(** * The yt-dlp download orchestrator: classifier, command rebuilding and
      retry ladder of [youtube-downloader/scripts/download_video.py]

    The development is a shallow embedding of the Python script.  Pure
    helpers ([has_403_error], [with_player_client], [version_at_least],
    [fallback_format_for_quality], ...) are Rocq functions over strings and
    lists of strings.  [download_video] talks to the outside world (the
    extractor process, the token-provider manager, the file system, the
    terminal); it is embedded as a finite tree of events, and a run is such
    a tree together with the answers of the environment.  The
    token-provider manager ([ensure_po_token_provider],
    [restart_po_token_provider] and the two package set-ups) and the MP3
    script ([download-mp3-by-song-name/scripts/download_mp3.py]) are
    embedded the same way, over the calls they make to the operating
    system; [pick_primary_file] is a function over the paths it is given.
    [managed] puts the two levels together: it answers the calls that
    [download_video] makes to the manager by running the manager.

    Text is modelled by [string], read as the UTF-8 bytes of the Python
    text; lower-casing acts on the ASCII letters, and [str.isdigit] and
    [int] are modelled on ASCII text, to which the statements about the
    functions that call them on a text given from outside are restricted.  For the signatures of
    the classifier this is what [str.lower] and [in] decide on any text:
    the only characters outside ASCII that lower-case to an ASCII letter
    give "k", which no signature contains, or "i" followed by a combining
    dot, where every signature has another letter after its "i". *)

From Stdlib Require Import String Ascii List ZArith Bool Arith Lia Sorted.
From Stdlib Require Import DecimalString.
Import ListNotations.
Local Open Scope string_scope.
Local Open Scope list_scope.

(** ** Python built-ins used by the script *)

Module Py.

(** [bool(v)] for an [Optional[str]]: [None] and [""] are falsy. *)
Definition truthy (v : option string) : bool :=
  match v with
  | Some (String _ _) => true
  | _ => false
  end.

(** [a or b] on [Optional[str]] values. *)
Definition or_else (a b : option string) : option string :=
  if truthy a then a else b.

(** [v or ""]: the text added to an accumulator by
    [if v: text += v]. *)
Definition text_of (v : option string) : string :=
  match v with
  | Some s => s
  | None => ""
  end.

Definition is_upper (c : ascii) : bool :=
  let n := nat_of_ascii c in (65 <=? n)%nat && (n <=? 90)%nat.

Definition lower_char (c : ascii) : ascii :=
  if is_upper c then ascii_of_nat (nat_of_ascii c + 32) else c.

(** [s.lower()] *)
Fixpoint lower (s : string) : string :=
  match s with
  | EmptyString => EmptyString
  | String c r => String (lower_char c) (lower r)
  end.

(** [pat in text] *)
Fixpoint str_in (pat text : string) : bool :=
  String.prefix pat text ||
  match text with
  | EmptyString => false
  | String _ r => str_in pat r
  end.

(** [s.endswith(suf)] *)
Fixpoint endswith (s suf : string) : bool :=
  String.eqb s suf ||
  match s with
  | EmptyString => false
  | String _ r => endswith r suf
  end.

(** [s[:-1]] *)
Fixpoint drop_last (s : string) : string :=
  match s with
  | EmptyString => EmptyString
  | String c r =>
      match r with
      | EmptyString => EmptyString
      | String _ _ => String c (drop_last r)
      end
  end.

Definition is_digit (c : ascii) : bool :=
  let n := nat_of_ascii c in (48 <=? n)%nat && (n <=? 57)%nat.

Fixpoint all_digits (s : string) : bool :=
  match s with
  | EmptyString => true
  | String c r => is_digit c && all_digits r
  end.

(** Text within ASCII: every byte is below 128. *)
Fixpoint is_ascii (s : string) : bool :=
  match s with
  | EmptyString => true
  | String c r => (nat_of_ascii c <? 128)%nat && is_ascii r
  end.

(** [s.isdigit()] on ASCII text: at least one character, all of them among
    the digits 0 to 9.  Outside ASCII [str.isdigit] accepts other digits of
    Unicode as well (the Arabic-Indic ones, the superscripts, ...), and
    [int] raises on some of them; what is stated below of a function that
    calls [isdigit] on a text given from outside is stated for [is_ascii]
    text. *)
Definition isdigit (s : string) : bool :=
  match s with
  | EmptyString => false
  | String _ _ => all_digits s
  end.

Fixpoint int_from (acc : Z) (s : string) : Z :=
  match s with
  | EmptyString => acc
  | String c r => int_from (10 * acc + (Z.of_nat (nat_of_ascii c) - 48)) r
  end.

(** [int(s)] on a string of the digits 0 to 9 (of at most 4300 digits, the
    longest that [int] converts by default). *)
Definition int (s : string) : Z := int_from 0 s.

(** [s.split(sep)] for a one-character separator. *)
Fixpoint split (sep : ascii) (s : string) : list string :=
  match s with
  | EmptyString => [EmptyString]
  | String c r =>
      if Ascii.eqb c sep then EmptyString :: split sep r
      else match split sep r with
           | h :: t => String c h :: t
           | [] => [String c EmptyString]
           end
  end.

(** [sep.join(parts)] *)
Fixpoint join (sep : string) (parts : list string) : string :=
  match parts with
  | [] => ""
  | [p] => p
  | p :: rest => (p ++ sep ++ join sep rest)%string
  end.

(** The one-byte line boundaries of [str.splitlines]: LF, VT, FF, CR, FS,
    GS and RS. *)
Definition is_linebreak (c : ascii) : bool :=
  let n := nat_of_ascii c in
  (n =? 10)%nat || (n =? 11)%nat || (n =? 12)%nat || (n =? 13)%nat ||
  (n =? 28)%nat || (n =? 29)%nat || (n =? 30)%nat.

(** [splitlines_from cur s]: [cur] is the line read so far, reversed.  CR LF
    counts as one boundary; so do NEL, LINE SEPARATOR and PARAGRAPH
    SEPARATOR, which take two or three bytes. *)
Fixpoint splitlines_from (cur : list ascii) (s : string) : list string :=
  let line := string_of_list_ascii (rev cur) in
  match s with
  | EmptyString =>
      match cur with
      | [] => []
      | _ :: _ => [line]
      end
  | String c r =>
      if is_linebreak c then
        match c, r with
        | "013"%char, String "010"%char r' => line :: splitlines_from [] r'
        | _, _ => line :: splitlines_from [] r
        end
      else
        match c, r with
        | "194"%char, String "133"%char r' => line :: splitlines_from [] r'
        | "226"%char, String "128"%char (String "168"%char r') =>
            line :: splitlines_from [] r'
        | "226"%char, String "128"%char (String "169"%char r') =>
            line :: splitlines_from [] r'
        | _, _ => splitlines_from (c :: cur) r
        end
  end.

(** [s.splitlines()] *)
Definition splitlines (s : string) : list string := splitlines_from [] s.

(** [a >= b] on lists of integers (lexicographic, a proper prefix is
    smaller). *)
Fixpoint list_ge (a b : list Z) : bool :=
  match a, b with
  | _, [] => true
  | [], _ :: _ => false
  | x :: a', y :: b' => if (x =? y)%Z then list_ge a' b' else (y <? x)%Z
  end.

(** [x in l] for a list of strings. *)
Definition list_in (x : string) (l : list string) : bool :=
  existsb (String.eqb x) l.

(** [l.index(x)], when [x in l]. *)
Fixpoint index (x : string) (l : list string) : nat :=
  match l with
  | [] => 0
  | y :: r => if String.eqb y x then 0 else S (index x r)
  end.

(** [l[i] = v] for [i < len(l)]; out of range the list is left as it is
    (the script guards the assignment by [i < len(l)]). *)
Fixpoint set_nth (i : nat) (v : string) (l : list string) : list string :=
  match l, i with
  | [], _ => []
  | _ :: r, O => v :: r
  | y :: r, S j => y :: set_nth j v r
  end.

(** The newline character, ["\n"]. *)
Definition nl : string := String "010"%char EmptyString.

End Py.

(** ** Results of a subprocess *)

(** [subprocess.CompletedProcess]: [stdout] and [stderr] are [None] unless
    the process was run with [capture_output=True]. *)
Record CompletedProcess : Type := mkCompleted {
  returncode : Z;
  stdout : option string;
  stderr : option string
}.

(** ** Output classifier (lines 149-176) *)

(** The text every classifier builds first: [stdout] then [stderr], each
    added only when present and non-empty. *)
Definition output_text (result : CompletedProcess) : string :=
  (Py.text_of (stdout result) ++ Py.text_of (stderr result))%string.

Definition has_403_error (result : CompletedProcess) : bool :=
  let text := Py.lower (output_text result) in
  Py.str_in "http error 403" text || Py.str_in "403: forbidden" text ||
  Py.str_in "fragment 1 not found" text.

Definition has_pot_error (result : CompletedProcess) : bool :=
  let text := Py.lower (output_text result) in
  Py.str_in "pot" text && Py.str_in "error" text.

Definition has_wpc_error (result : CompletedProcess) : bool :=
  let text := Py.lower (output_text result) in
  Py.str_in "pot:wpc" text || Py.str_in "webpoclient" text.

(** ** Command rebuilding (lines 179-191, 249-252) *)

(** One iteration of the loop of [with_player_client]; the state is
    [(rebuilt, skip_next)]. *)
Definition player_client_step (st : list string * bool) (token : string)
  : list string * bool :=
  let '(rebuilt, skip_next) := st in
  if skip_next then (rebuilt, false)
  else if String.eqb token "--extractor-args" then (rebuilt, true)
  else (rebuilt ++ [token], false).

Definition with_player_client (cmd : list string) (client : string)
  : list string :=
  let '(rebuilt, _) := fold_left player_client_step cmd ([], false) in
  rebuilt ++ ["--extractor-args"; ("youtube:player_client=" ++ client)%string].

Definition with_wpc_browser (cmd : list string) (browser_path : option string)
  : list string :=
  if negb (Py.truthy browser_path) then cmd
  else cmd ++ ["--extractor-args";
               ("youtubepot-wpc:browser_path=" ++ Py.text_of browser_path)%string].

(** ** Version comparison (lines 298-310) *)

(** The inner [parse]: the all-digit components, as integers. *)
Definition parse_version (value : string) : list Z :=
  map Py.int (filter Py.isdigit (Py.split "."%char value)).

(** [while len(l) < n: l.append(0)] *)
Definition pad_zeros (n : nat) (l : list Z) : list Z :=
  l ++ repeat 0%Z (n - length l).

Definition version_at_least (version minimum : string) : bool :=
  let current := parse_version version in
  let required := parse_version minimum in
  match current, required with
  | [], _ | _, [] => false
  | _, _ =>
      let current := pad_zeros (length required) current in
      let required := pad_zeros (length current) required in
      Py.list_ge current required
  end.

(** ** Quality presets and the progressive-format fallback
       (lines 40-47, 611-620) *)

Definition QUALITY_PRESETS : list (string * string) :=
  [ ("best", "bestvideo+bestaudio/best");
    ("1080p", "bestvideo[height<=1080]+bestaudio/best");
    ("720p", "bestvideo[height<=720]+bestaudio/best");
    ("480p", "bestvideo[height<=480]+bestaudio/best");
    ("360p", "bestvideo[height<=360]+bestaudio/best");
    ("worst", "worstvideo+worstaudio/worst") ].

(** [d.get(key)] on a dict given by its items. *)
Fixpoint dict_get (d : list (string * string)) (key : string)
  : option string :=
  match d with
  | [] => None
  | (k, v) :: r => if String.eqb k key then Some v else dict_get r key
  end.

Definition unrestricted_fallback : string :=
  "best[protocol!*=m3u8][ext=mp4]/best[protocol!*=m3u8]/best".

Definition capped_fallback (height : string) : string :=
  ("best[height<=" ++ height ++ "][protocol!*=m3u8][ext=mp4]/" ++
   "best[height<=" ++ height ++ "][protocol!*=m3u8]/best[protocol!*=m3u8]")%string.

Definition fallback_format_for_quality (quality : option string) : string :=
  if negb (Py.truthy quality) || String.eqb (Py.text_of quality) "best" then
    unrestricted_fallback
  else
    let q := Py.text_of quality in
    if Py.endswith q "p" && Py.isdigit (Py.drop_last q) then
      capped_fallback (Py.drop_last q)
    else unrestricted_fallback.

(** ** Log filtering (lines 121-132) *)

Definition is_cookie_line (line : string) : bool :=
  let lowered := Py.lower line in
  Py.str_in "extracting cookies" lowered ||
  (Py.str_in "extracted" lowered && Py.str_in "cookies" lowered).

Definition filter_cookie_lines (text : option string) : string :=
  if negb (Py.truthy text) then ""
  else
    Py.join Py.nl
      (filter (fun line => negb (is_cookie_line line))
              (Py.splitlines (Py.text_of text))).

(** ** The environment of [download_video] *)

(** What a child process did: its exit status and what it wrote on its two
    output streams, whether or not the parent captured them. *)
Record ProcOutcome : Type := mkOutcome {
  exit_code : Z;
  out_text : string;
  err_text : string
}.

(** A snapshot of the output directory ([list_files]): a set of paths. *)
Definition Snapshot : Type := list string.

(** The calls [download_video] makes to its collaborators; the index is the
    type of the answer.

    - [Which tool]: [subprocess.run(["which", tool], capture_output=True)],
      answering the exit code;
    - [Spawn cmd capture]: [subprocess.run(cmd)], with
      [capture_output=True, text=True] when [capture] is set;
    - [EnvironGet]: [os.environ.get];
    - [EnsurePoTokenProvider], [RestartPoTokenProvider],
      [EnsureWpcProvider], [FindChromePath]: the token-provider lifecycle
      manager (lines 234-246, 330-608), which answers a provider tag, a
      readiness flag or a browser path; the first three run processes of
      their own ([yt-dlp --version], [pip], the container runtime);
    - [PrintMsg]: a message of the script on standard output; [Echo]: the
      re-printing by [run_yt_dlp] of the captured output of the child, on
      standard output or (flag set) standard error;
    - [Sleep]: [time.sleep];
    - [ResolvePath], [Mkdir], [BuildOutputTemplate], [ListFiles]: path
      resolution, directory creation, [build_output_template] and
      [list_files];
    - [PrintVideoInfo]: [print_video_info] (lines 623-657), which runs
      the extractor with [--skip-download --dump-json] and answers an exit
      code;
    - [FinalizeDownload]: the nested [finalize_download] (lines 847-866),
      which reports the artifact found by comparing snapshots.

    Exceptions raised by the collaborators are not modelled. *)
Inductive Event : Type -> Type :=
| Which (tool : string) : Event Z
| Spawn (cmd : list string) (capture : bool) : Event ProcOutcome
| EnvironGet (name : string) : Event (option string)
| EnsurePoTokenProvider (proxy_url no_proxy : option string)
    : Event (option string)
| RestartPoTokenProvider (proxy_url no_proxy : option string) : Event bool
| EnsureWpcProvider (proxy_url : option string) : Event bool
| FindChromePath : Event (option string)
| PrintMsg (msg : string) : Event unit
| Echo (to_stderr : bool) (text : string) : Event unit
| Sleep (seconds : nat) : Event unit
| ResolvePath (path : string) : Event string
| Mkdir (path : string) : Event unit
| BuildOutputTemplate (output_dir : string) (template : option string)
    : Event string
| ListFiles (root : string) : Event Snapshot
| PrintVideoInfo (cmd_base : list string) (url : string) (hide : bool)
    : Event Z
| FinalizeDownload (output_root : string) (audio_only : bool)
    (before_snapshot : Snapshot) : Event unit.

(** A program is a finite tree: a result, or a call and what to do with
    its answer. *)
Inductive Prog (A : Type) : Type :=
| Ret (a : A)
| Vis {X : Type} (e : Event X) (k : X -> Prog A).

Arguments Ret {A} a.
Arguments Vis {A X} e k.

Fixpoint bind {A B : Type} (p : Prog A) (f : A -> Prog B) : Prog B :=
  match p with
  | Ret a => f a
  | Vis e k => Vis e (fun x => bind (k x) f)
  end.

Definition trigger {X : Type} (e : Event X) : Prog X := Vis e Ret.

Declare Scope prog_scope.
Delimit Scope prog_scope with prog.
Bind Scope prog_scope with Prog.

Notation "x <- p ;; k" := (bind p (fun x => k))
  (at level 61, p at next level, right associativity) : prog_scope.
Notation "' pat <- p ;; k" := (bind p (fun x => match x with pat => k end))
  (at level 61, pat pattern, p at next level, right associativity)
  : prog_scope.
Notation "p ;; k" := (bind p (fun _ => k))
  (at level 61, right associativity) : prog_scope.

Local Open Scope prog_scope.

(** A block of [download_video] either executes [return code] ([inl]) or
    falls through to the next statement with the values it leaves in the
    local variables ([inr]). *)
Definition Flow (A : Type) : Type := Prog (Z + A).

Definition Return {A : Type} (code : Z) : Flow A := Ret (inl code).
Definition Next {A : Type} (a : A) : Flow A := Ret (inr a).

Definition and_then {A B : Type} (p : Flow A) (k : A -> Flow B) : Flow B :=
  r <- p ;;
  match r with
  | inl code => Return code
  | inr a => k a
  end.

Notation "x <-- p ;; k" := (and_then p (fun x => k))
  (at level 61, p at next level, right associativity) : prog_scope.

(** One observed call: the event and the answer it got. *)
Inductive Obs : Type :=
| Saw {X : Type} (e : Event X) (x : X).

Definition Trace : Type := list Obs.

(** An environment answers calls, with a state of its own. *)
Definition Handler (W : Type) : Type := forall X, Event X -> W -> X * W.

(** Running a program in an environment: the result, the final state of
    the environment and the calls made, in order. *)
Fixpoint run {W A : Type} (h : Handler W) (p : Prog A) (w : W)
  : A * W * Trace :=
  match p with
  | Ret a => (a, w, [])
  | Vis e k =>
      let '(x, w1) := h _ e w in
      let '(a, w2, t) := run h (k x) w1 in
      (a, w2, Saw e x :: t)
  end.

(** The behaviours of a program: [exec p t a] when some answers of the
    environment make [p] perform the calls [t] and end with [a]. *)
Fixpoint exec {A : Type} (p : Prog A) (t : Trace) (a : A) : Prop :=
  match p with
  | Ret a' => t = [] /\ a = a'
  | Vis e k => exists x t', t = Saw e x :: t' /\ exec (k x) t' a
  end.

(** ** The process runner (lines 135-146) *)

Definition completed (capture : bool) (o : ProcOutcome) : CompletedProcess :=
  if capture then mkCompleted (exit_code o) (Some (out_text o)) (Some (err_text o))
  else mkCompleted (exit_code o) None None.

Definition subprocess_run (cmd : list string) (capture : bool)
  : Prog CompletedProcess :=
  o <- trigger (Spawn cmd capture) ;;
  Ret (completed capture o).

Definition print (msg : string) : Prog unit := trigger (PrintMsg msg).

Definition when (c : bool) (p : Prog unit) : Prog unit :=
  if c then p else Ret tt.

Definition nonempty (s : string) : bool := Py.truthy (Some s).

Definition run_yt_dlp (cmd : list string) (hide_cookie_logs : bool)
  : Prog CompletedProcess :=
  if negb hide_cookie_logs then subprocess_run cmd false
  else
    result <- subprocess_run cmd true ;;
    let stdout' := filter_cookie_lines (stdout result) in
    let stderr' := filter_cookie_lines (stderr result) in
    when (nonempty stdout') (trigger (Echo false stdout')) ;;
    when (nonempty stderr') (trigger (Echo true stderr')) ;;
    Ret result.

(** ** Proxy settings (lines 194-207) *)

(** [os.environ.get(n1) or os.environ.get(n2) or ...], evaluated left to
    right and stopping at the first truthy value. *)
Fixpoint environ_first (names : list string) : Prog (option string) :=
  match names with
  | [] => Ret None
  | [n] => trigger (EnvironGet n)
  | n :: rest =>
      v <- trigger (EnvironGet n) ;;
      if Py.truthy v then Ret v else environ_first rest
  end.

Definition get_proxy_settings (proxy_arg : option string)
  : Prog (option string * option string) :=
  proxy <- (if Py.truthy proxy_arg then Ret proxy_arg
            else environ_first ["ALL_PROXY"; "all_proxy"; "HTTPS_PROXY";
                                "https_proxy"; "HTTP_PROXY"; "http_proxy"]) ;;
  no_proxy <- environ_first ["NO_PROXY"; "no_proxy"] ;;
  Ret (proxy, no_proxy).

(** ** [download_video] (lines 681-965) *)

(** The parameters of [download_video]. *)
Record Args : Type := mkArgs {
  url : string;
  output_dir : string;
  format_spec : option string;
  quality : option string;
  output_template : option string;
  merge_format : option string;
  subtitles : bool;
  subtitle_lang : string;
  cookies_from_browser : option string;
  cookies_file : option string;
  player_client : option string;
  auto_po_token : bool;
  proxy : option string;
  wpc_browser_path : option string;
  allow_playlist : bool;
  use_android_client : bool;
  audio_only : bool;
  list_formats : bool;
  info_only : bool
}.

(** The local variables alive when the download is executed (line 873).
    [params] holds the parameters, with [quality] and [wpc_browser_path] as
    reassigned on the way. *)
Record Session : Type := mkSession {
  params : Args;
  cmd : list string;
  output_root : string;
  proxy_value : option string;
  no_proxy : option string;
  use_po_token : bool;
  provider_type : option string;
  wpc_available : bool;
  po_token_client : option string;
  format_from_quality : bool;
  retry_client : option string
}.

Definition set_wpc_browser_path (a : Args) (v : option string) : Args :=
  mkArgs (url a) (output_dir a) (format_spec a) (quality a)
    (output_template a) (merge_format a) (subtitles a) (subtitle_lang a)
    (cookies_from_browser a) (cookies_file a) (player_client a)
    (auto_po_token a) (proxy a) v (allow_playlist a) (use_android_client a)
    (audio_only a) (list_formats a) (info_only a).

Definition set_format (a : Args) (fmt q : option string) : Args :=
  mkArgs (url a) (output_dir a) fmt q
    (output_template a) (merge_format a) (subtitles a) (subtitle_lang a)
    (cookies_from_browser a) (cookies_file a) (player_client a)
    (auto_po_token a) (proxy a) (wpc_browser_path a) (allow_playlist a)
    (use_android_client a) (audio_only a) (list_formats a) (info_only a).

(** [v == lit] for an [Optional[str]]. *)
Definition is_str (v : option string) (lit : string) : bool :=
  match v with
  | Some s => String.eqb s lit
  | None => false
  end.

(** [cmd.extend(extra)] under a condition. *)
Definition extend_if (c : bool) (cmd extra : list string) : list string :=
  if c then cmd ++ extra else cmd.

Definition msg_not_installed : string := "✗ Error: yt-dlp is not installed".
Definition msg_install_hint : string :=
  "  Install via: brew install yt-dlp  # or: pip install yt-dlp".
Definition msg_cookie_conflict : string :=
  "✗ Error: Use either --cookies-from-browser or --cookies-file, not both.".
Definition msg_no_provider : string :=
  "✗ PO Token provider could not be started. Aborting download.".
Definition msg_format_conflict : string :=
  "✗ Error: Use either --format or --quality, not both.".
Definition msg_unsupported (quality : option string) : string :=
  ("✗ Error: Unsupported quality preset: " ++ Py.text_of quality)%string.
Definition msg_executing (cmd : list string) : string :=
  ("Executing: " ++ Py.join " " cmd)%string.
Definition msg_failed (code : Z) : string :=
  (Py.nl ++ "✗ Download failed with exit code " ++
   NilZero.string_of_int (Z.to_int code))%string.

(** The message each rule of the retry ladder prints when it fires. *)
Definition msg_restart : string :=
  (Py.nl ++ "⚠️  PO Token provider did not respond. Restarting it and retrying...")%string.
Definition msg_still_failing : string :=
  (Py.nl ++ "⚠️  Docker provider still failing. Switching to browser-based PO Token provider...")%string.
Definition msg_wpc_pending : string :=
  (Py.nl ++ "⚠️  Browser verification not ready. Keeping Chrome open and retrying once...")%string.
Definition msg_wpc_switch : string :=
  (Py.nl ++ "⚠️  PO Token provider failed. Switching to browser-based PO Token provider...")%string.
Definition msg_web_safari : string :=
  (Py.nl ++ "⚠️  Download failed with 403 errors. Retrying with web_safari client...")%string.
Definition msg_fallback : string :=
  (Py.nl ++ "⚠️  Download failed. Retrying with non-m3u8 progressive formats...")%string.

(** Lines 729-871: the checks and the construction of the command.  The
    block returns an exit code, or falls through to the execution of the
    download with the session it has set up. *)
Definition prepare (a : Args) : Flow Session :=
  check_result <- trigger (Which "yt-dlp") ;;
  if negb (check_result =? 0)%Z then
    print msg_not_installed ;;
    print msg_install_hint ;;
    Return 1%Z
  else
  let cmd := ["yt-dlp"] in
  if Py.truthy (cookies_from_browser a) && Py.truthy (cookies_file a) then
    print msg_cookie_conflict ;;
    Return 2%Z
  else
  '(proxy_value, no_proxy) <- get_proxy_settings (proxy a) ;;
  let use_po_token := auto_po_token a && negb (info_only a) in
  provider_type <-
    (if use_po_token then trigger (EnsurePoTokenProvider proxy_value no_proxy)
     else Ret None) ;;
  if use_po_token && negb (Py.truthy provider_type) then
    print msg_no_provider ;;
    Return 2%Z
  else
  let wpc_available := use_po_token && is_str provider_type "wpc" in
  wpc_browser_path <-
    (if negb (Py.truthy (wpc_browser_path a)) && use_po_token
     then trigger FindChromePath
     else Ret (wpc_browser_path a)) ;;
  let use_android :=
    use_android_client a &&
    negb (use_po_token || Py.truthy (cookies_from_browser a) ||
          Py.truthy (cookies_file a) || Py.truthy (player_client a)) in
  when (use_android_client a && negb use_android)
    (if use_po_token then
       print "ℹ︎ Note: Disabling Android client because PO Token provider is enabled."
     else
       print "ℹ︎ Note: Disabling Android client because cookies or player client are in use.") ;;
  let cmd :=
    extend_if use_android cmd
      ["--extractor-args"; "youtube:player_client=android"] in
  let cmd :=
    if Py.truthy (cookies_from_browser a) then
      cmd ++ ["--cookies-from-browser"; Py.text_of (cookies_from_browser a)]
    else
      extend_if (Py.truthy (cookies_file a)) cmd
        ["--cookies"; Py.text_of (cookies_file a)] in
  let cmd :=
    extend_if (Py.truthy proxy_value) cmd
      ["--proxy"; Py.text_of proxy_value] in
  let po_token_client :=
    if use_po_token then
      if Py.truthy (cookies_from_browser a) || Py.truthy (cookies_file a)
      then Some "web_safari" else Some "mweb"
    else None in
  let cmd :=
    if Py.truthy (player_client a) then
      cmd ++ ["--extractor-args";
              ("youtube:player_client=" ++ Py.text_of (player_client a))%string]
    else
      extend_if (Py.truthy po_token_client) cmd
        ["--extractor-args";
         ("youtube:player_client=" ++ Py.text_of po_token_client)%string] in
  let cmd := extend_if (negb (allow_playlist a)) cmd ["--no-playlist"] in
  if list_formats a then
    let cmd := cmd ++ ["-F"; url a] in
    result <- run_yt_dlp cmd (Py.truthy (cookies_from_browser a)) ;;
    when ((returncode result =? 0)%Z && use_android_client a)
      (print (Py.nl ++ "💡 Tip: Using Android client (360p only).")%string ;;
       print "   For 1080p/4K, install PO token provider:" ;;
       print "   See ../references/po-token-setup.md for instructions") ;;
    Return (returncode result)
  else
  if info_only a then
    code <- trigger (PrintVideoInfo cmd (url a)
                       (Py.truthy (cookies_from_browser a))) ;;
    Return code
  else
  if Py.truthy (format_spec a) && Py.truthy (quality a) then
    print msg_format_conflict ;;
    Return 2%Z
  else
  let quality :=
    if negb (Py.truthy (format_spec a)) && negb (Py.truthy (quality a)) &&
       negb (audio_only a)
    then Some "best" else quality a in
  let format_spec :=
    if Py.truthy quality then dict_get QUALITY_PRESETS (Py.text_of quality)
    else format_spec a in
  if Py.truthy quality && negb (Py.truthy format_spec) then
    print (msg_unsupported quality) ;;
    Return 2%Z
  else
  let format_from_quality := Py.truthy quality in
  output_root <- trigger (ResolvePath (output_dir a)) ;;
  trigger (Mkdir output_root) ;;
  output_template_final <-
    trigger (BuildOutputTemplate output_root (output_template a)) ;;
  let cmd := cmd ++ ["-o"; output_template_final] in
  let cmd :=
    if audio_only a then cmd ++ ["-x"; "--audio-format"; "mp3"]
    else extend_if (Py.truthy format_spec) cmd ["-f"; Py.text_of format_spec] in
  let cmd :=
    extend_if (subtitles a) cmd
      ["--write-subs"; "--write-auto-subs"; "--sub-lang"; subtitle_lang a] in
  let cmd :=
    extend_if (Py.truthy (merge_format a)) cmd
      ["--merge-output-format"; Py.text_of (merge_format a)] in
  let cmd := cmd ++ [url a] in
  let retry_client := Py.or_else (player_client a) po_token_client in
  let cmd :=
    if wpc_available && Py.truthy wpc_browser_path
    then with_wpc_browser cmd wpc_browser_path else cmd in
  Next {| params := set_format (set_wpc_browser_path a wpc_browser_path)
                      format_spec quality;
          cmd := cmd;
          output_root := output_root;
          proxy_value := proxy_value;
          no_proxy := no_proxy;
          use_po_token := use_po_token;
          provider_type := provider_type;
          wpc_available := wpc_available;
          po_token_client := po_token_client;
          format_from_quality := format_from_quality;
          retry_client := retry_client |}.

(** The variables the retry ladder reassigns. *)
Record State : Type := mkState {
  result : CompletedProcess;
  wpc_retried : bool
}.

Section Ladder.

Variable s : Session.

Definition hide_cookie_logs : bool :=
  Py.truthy (cookies_from_browser (params s)).

Definition finalize_download (before_snapshot : Snapshot) : Prog unit :=
  trigger (FinalizeDownload (output_root s) (audio_only (params s))
             before_snapshot).

(** [retry_client or "mweb"] *)
Definition retry_client_or_mweb : string :=
  if Py.truthy (retry_client s) then Py.text_of (retry_client s) else "mweb".

(** The retry every rule performs once its command is rebuilt: snapshot,
    log, run; on exit code 0 finalize and [return 0], otherwise the retry
    becomes the current [result]. *)
Definition retry (retry_cmd : list string) : Flow CompletedProcess :=
  before_retry <- trigger (ListFiles (output_root s)) ;;
  print (msg_executing retry_cmd) ;;
  retry_result <- run_yt_dlp retry_cmd hide_cookie_logs ;;
  if (returncode retry_result =? 0)%Z then
    finalize_download before_retry ;;
    Return 0%Z
  else Next retry_result.

(** Lines 882-891: restart the container-backed provider and, when it
    comes up, retry. *)
Definition restart_and_retry (st : State) : Flow State :=
  print msg_restart ;;
  restarted <-
    trigger (RestartPoTokenProvider (proxy_value s) (no_proxy s)) ;;
  if restarted then
    let retry_cmd := with_player_client (cmd s) retry_client_or_mweb in
    retry_result <-- retry retry_cmd ;;
    Next (mkState retry_result (wpc_retried st))
  else Next st.

(** Lines 892-904: while the token error persists, switch to the
    browser-backed provider and retry. *)
Definition switch_if_still_failing (st : State) : Flow State :=
  if has_pot_error (result st) then
    print msg_still_failing ;;
    ready <- trigger (EnsureWpcProvider (proxy_value s)) ;;
    if ready then
      let retry_cmd := with_player_client (cmd s) retry_client_or_mweb in
      let retry_cmd :=
        with_wpc_browser retry_cmd (wpc_browser_path (params s)) in
      retry_result <-- retry retry_cmd ;;
      Next (mkState retry_result true)
    else Next st
  else Next st.

(** Lines 881-904: the token error of a container-backed provider. *)
Definition rule_restart (st : State) : Flow State :=
  if use_po_token s && is_str (provider_type s) "bgutil" &&
     has_pot_error (result st)
  then
    st <-- restart_and_retry st ;;
    switch_if_still_failing st
  else Next st.

(** Lines 906-918: the browser verification was not ready. *)
Definition rule_wpc_pending (st : State) : Flow State :=
  if use_po_token s && has_wpc_error (result st) then
    print msg_wpc_pending ;;
    trigger (Sleep 3) ;;
    let retry_cmd := with_player_client (cmd s) retry_client_or_mweb in
    let retry_cmd :=
      with_wpc_browser retry_cmd (wpc_browser_path (params s)) in
    retry_result <-- retry retry_cmd ;;
    Next (mkState retry_result true)
  else Next st.

(** Lines 920-931: switch to the browser-backed provider, unless a
    browser-backed retry was already made. *)
Definition rule_wpc_switch (st : State) : Flow State :=
  if use_po_token s && has_pot_error (result st) && negb (wpc_retried st)
  then
    print msg_wpc_switch ;;
    ready <- trigger (EnsureWpcProvider (proxy_value s)) ;;
    if ready then
      let retry_cmd := with_player_client (cmd s) retry_client_or_mweb in
      let retry_cmd :=
        with_wpc_browser retry_cmd (wpc_browser_path (params s)) in
      retry_result <-- retry retry_cmd ;;
      Next (mkState retry_result (wpc_retried st))
    else Next st
  else Next st.

(** Lines 933-942: 403 with browser cookies. *)
Definition rule_web_safari (st : State) : Flow State :=
  if Py.truthy (cookies_from_browser (params s)) &&
     negb (Py.truthy (player_client (params s))) &&
     has_403_error (result st)
  then
    print msg_web_safari ;;
    let retry_cmd := with_player_client (cmd s) "web_safari" in
    retry_result <-- retry retry_cmd ;;
    Next (mkState retry_result (wpc_retried st))
  else Next st.

(** The command of the last rule: the value after the first ["-f"] is
    replaced, or the option is added. *)
Definition fallback_cmd : list string :=
  let retry_cmd := cmd s in
  let retry_format := fallback_format_for_quality (quality (params s)) in
  if Py.list_in "-f" retry_cmd then
    let format_index := Py.index "-f" retry_cmd + 1 in
    if (format_index <? length retry_cmd)%nat
    then Py.set_nth format_index retry_format retry_cmd
    else retry_cmd
  else retry_cmd ++ ["-f"; retry_format].

(** Lines 944-961: the progressive-format fallback; when it fires it
    always returns. *)
Definition rule_fallback (st : State) : Flow State :=
  if negb (audio_only (params s)) && format_from_quality s then
    print msg_fallback ;;
    retry_result <-- retry fallback_cmd ;;
    print (msg_failed (returncode retry_result)) ;;
    Return (returncode retry_result)
  else Next st.

(** Lines 881-931: the rules that react to token errors. *)
Definition token_rules (st : State) : Flow State :=
  st <-- rule_restart st ;;
  st <-- rule_wpc_pending st ;;
  rule_wpc_switch st.

(** Lines 880-963: the whole ladder, entered after a failed first
    attempt. *)
Definition ladder (st : State) : Flow State :=
  st <-- token_rules st ;;
  st <-- rule_web_safari st ;;
  st <-- rule_fallback st ;;
  print (msg_failed (returncode (result st))) ;;
  Next st.

(** Lines 873-879: the first attempt. *)
Definition first_attempt : Flow State :=
  before_files <- trigger (ListFiles (output_root s)) ;;
  print (msg_executing (cmd s)) ;;
  result <- run_yt_dlp (cmd s) hide_cookie_logs ;;
  if (returncode result =? 0)%Z then
    finalize_download before_files ;;
    Return (returncode result)
  else Next (mkState result false).

(** Lines 873-965. *)
Definition execute : Prog Z :=
  r <- (st <-- first_attempt ;; ladder st) ;;
  match r with
  | inl code => Ret code
  | inr st => Ret (returncode (result st))
  end.

End Ladder.

Definition download_video (a : Args) : Prog Z :=
  r <- prepare a ;;
  match r with
  | inl code => Ret code
  | inr s => execute s
  end.

(** ** What is read off a trace *)

(** The entries of a trace selected by [f], in order. *)
Fixpoint collect {B : Type} (f : Obs -> option B) (t : Trace) : list B :=
  match t with
  | [] => []
  | o :: r =>
      match f o with
      | Some b => b :: collect f r
      | None => collect f r
      end
  end.

(** An attempt: a process that [download_video] itself runs through
    [run_yt_dlp], with its command, whether its output was captured, and
    what the child did. *)
Definition attempt_of (o : Obs) : option (list string * bool * ProcOutcome) :=
  match o with
  | Saw e x =>
      match e in Event X return X -> option (list string * bool * ProcOutcome) with
      | Spawn cmd capture => fun out => Some (cmd, capture, out)
      | _ => fun _ => None
      end x
  end.

(** The attempts of a trace.  The processes that the collaborators run on
    their own are part of their calls and are no attempts: [which], the
    commands of the token-provider manager ([yt-dlp --version], [pip], the
    container runtime) and the query of [print_video_info]
    ([yt-dlp --skip-download --dump-json]).  A trace without attempts is
    one in which [download_video] asked for no download and no listing of
    formats; the extractor may still have been run by a collaborator. *)
Definition attempts (t : Trace) : list (list string * bool * ProcOutcome) :=
  collect attempt_of t.

(** The exit codes of the attempts. *)
Definition codes (t : Trace) : list Z :=
  map (fun a => exit_code (snd a)) (attempts t).

(** The rules of the ladder, numbered as they stand in the source, with
    the message each prints when it fires. *)
Definition ladder_messages : list (string * nat) :=
  [ (msg_restart, 1); (msg_still_failing, 2); (msg_wpc_pending, 3);
    (msg_wpc_switch, 4); (msg_web_safari, 5); (msg_fallback, 6) ].

Fixpoint rule_of_message (table : list (string * nat)) (msg : string)
  : option nat :=
  match table with
  | [] => None
  | (m, k) :: r => if String.eqb msg m then Some k else rule_of_message r msg
  end.

Definition rule_of (o : Obs) : option nat :=
  match o with
  | Saw e _ =>
      match e with
      | PrintMsg msg => rule_of_message ladder_messages msg
      | _ => None
      end
  end.

(** The rules that fired, in the order they fired. *)
Definition announced (t : Trace) : list nat := collect rule_of t.

Definition finalize_of (o : Obs) : option Snapshot :=
  match o with
  | Saw e _ =>
      match e with
      | FinalizeDownload _ _ before => Some before
      | _ => None
      end
  end.

(** How many times the result finalizer was called. *)
Definition finalized (t : Trace) : nat := length (collect finalize_of t).

Definition is_echo (o : Obs) : bool :=
  match o with
  | Saw e _ =>
      match e with
      | Echo _ _ => true
      | _ => false
      end
  end.

(** An entry that is no attempt, no firing of a rule and no call of the
    finalizer. *)
Definition inert (o : Obs) : bool :=
  match attempt_of o, rule_of o, finalize_of o with
  | None, None, None => true
  | _, _, _ => false
  end.

(** No attempt of [t] exited with code 0. *)
Definition all_failed (t : Trace) : Prop :=
  Forall (fun c => c <> 0%Z) (codes t).

(** No classifier recognises the output. *)
Definition unclassified (r : CompletedProcess) : bool :=
  negb (has_403_error r) && negb (has_pot_error r) && negb (has_wpc_error r).

(** ** A scripted environment

    It answers every call from a fixed table; successive children behave
    as the successive entries of [children] (and fail silently with exit
    code 1 once the list is used up). *)
Record Script : Type := mkScript {
  which_code : Z;
  environ : list (string * string);
  provider : option string;
  restart_ok : bool;
  wpc_ok : bool;
  chrome : option string;
  info_code : Z;
  children : list ProcOutcome
}.

Definition next_child (w : Script) : ProcOutcome * Script :=
  match children w with
  | [] => (mkOutcome 1 "" "", w)
  | o :: r =>
      (o, mkScript (which_code w) (environ w) (provider w) (restart_ok w)
            (wpc_ok w) (chrome w) (info_code w) r)
  end.

Definition scripted : Handler Script :=
  fun X e w =>
    match e in Event X return X * Script with
    | Which _ => (which_code w, w)
    | Spawn _ _ => next_child w
    | EnvironGet name => (dict_get (environ w) name, w)
    | EnsurePoTokenProvider _ _ => (provider w, w)
    | RestartPoTokenProvider _ _ => (restart_ok w, w)
    | EnsureWpcProvider _ => (wpc_ok w, w)
    | FindChromePath => (chrome w, w)
    | PrintMsg _ => (tt, w)
    | Echo _ _ => (tt, w)
    | Sleep _ => (tt, w)
    | ResolvePath path => (path, w)
    | Mkdir _ => (tt, w)
    | BuildOutputTemplate dir template =>
        ((dir ++ "/" ++
          (if Py.truthy template then Py.text_of template
           else "%(title)s.%(ext)s"))%string, w)
    | ListFiles _ => ([], w)
    | PrintVideoInfo _ _ _ => (info_code w, w)
    | FinalizeDownload _ _ _ => (tt, w)
    end.

(** The command-line defaults of the script, for a URL. *)
Definition default_args (u : string) : Args :=
  {| url := u; output_dir := "."; format_spec := None; quality := None;
     output_template := None; merge_format := Some "mp4"; subtitles := false;
     subtitle_lang := "en"; cookies_from_browser := None;
     cookies_file := None; player_client := None; auto_po_token := true;
     proxy := None; wpc_browser_path := None; allow_playlist := false;
     use_android_client := true; audio_only := false; list_formats := false;
     info_only := false |}.

Definition with_cookies_from_browser (a : Args) (v : option string) : Args :=
  mkArgs (url a) (output_dir a) (format_spec a) (quality a)
    (output_template a) (merge_format a) (subtitles a) (subtitle_lang a)
    v (cookies_file a) (player_client a)
    (auto_po_token a) (proxy a) (wpc_browser_path a) (allow_playlist a)
    (use_android_client a) (audio_only a) (list_formats a) (info_only a).

Definition with_cookies_file (a : Args) (v : option string) : Args :=
  mkArgs (url a) (output_dir a) (format_spec a) (quality a)
    (output_template a) (merge_format a) (subtitles a) (subtitle_lang a)
    (cookies_from_browser a) v (player_client a)
    (auto_po_token a) (proxy a) (wpc_browser_path a) (allow_playlist a)
    (use_android_client a) (audio_only a) (list_formats a) (info_only a).

Definition with_auto_po_token (a : Args) (v : bool) : Args :=
  mkArgs (url a) (output_dir a) (format_spec a) (quality a)
    (output_template a) (merge_format a) (subtitles a) (subtitle_lang a)
    (cookies_from_browser a) (cookies_file a) (player_client a)
    v (proxy a) (wpc_browser_path a) (allow_playlist a)
    (use_android_client a) (audio_only a) (list_formats a) (info_only a).

Definition quiet_world : Script :=
  {| which_code := 0; environ := []; provider := Some "bgutil";
     restart_ok := true; wpc_ok := true; chrome := None; info_code := 0;
     children := [] |}.

Definition with_children (w : Script) (l : list ProcOutcome) : Script :=
  mkScript (which_code w) (environ w) (provider w) (restart_ok w)
    (wpc_ok w) (chrome w) (info_code w) l.

Definition forbidden_output : string :=
  "ERROR: unable to download video data: HTTP Error 403: Forbidden".

Definition with_quality (a : Args) (fmt q : option string) (list : bool)
  : Args :=
  mkArgs (url a) (output_dir a) fmt q
    (output_template a) (merge_format a) (subtitles a) (subtitle_lang a)
    (cookies_from_browser a) (cookies_file a) (player_client a)
    (auto_po_token a) (proxy a) (wpc_browser_path a) (allow_playlist a)
    (use_android_client a) (audio_only a) list (info_only a).

Definition with_which (w : Script) (code : Z) : Script :=
  mkScript code (environ w) (provider w) (restart_ok w)
    (wpc_ok w) (chrome w) (info_code w) (children w).

(** A download with browser cookies and no token provider. *)
Definition browser_cookie_args : Args :=
  with_auto_po_token
    (with_cookies_from_browser (default_args "https://youtu.be/x")
       (Some "chrome"))
    false.

(** A session with browser cookies, as [prepare] sets it up for
    [browser_cookie_args]. *)
Definition browser_cookie_session : Session :=
  {| params :=
       with_quality browser_cookie_args (Some "bestvideo+bestaudio/best")
         (Some "best") false;
     cmd := [ "yt-dlp"; "--cookies-from-browser"; "chrome"; "--no-playlist";
              "-o"; "./%(title)s.%(ext)s"; "-f"; "bestvideo+bestaudio/best";
              "--merge-output-format"; "mp4"; "https://youtu.be/x" ];
     output_root := ".";
     proxy_value := None;
     no_proxy := None;
     use_po_token := false;
     provider_type := None;
     wpc_available := false;
     po_token_client := None;
     format_from_quality := true;
     retry_client := None |}.

(** ** Notions the statements below are phrased with *)

(** [pat] occurs in [text] as a substring, at any position. *)
Definition occurs_in (pat text : string) : Prop :=
  exists before after, text = (before ++ pat ++ after)%string.

(** [current] is at least [required] when both are read as sequences of
    components with every missing component equal to zero: they agree
    everywhere, or [current] is larger at the first component where they
    differ. *)
Definition padded_ge (current required : list Z) : Prop :=
  (forall i, nth i current 0%Z = nth i required 0%Z) \/
  (exists i,
      (forall j, (j < i)%nat -> nth j current 0%Z = nth j required 0%Z) /\
      (nth i required 0%Z < nth i current 0%Z)%Z).

(** [without_extractor_args cmd kept]: reading [cmd] from the left, every
    ["--extractor-args"] token is dropped together with the token that
    follows it, and [kept] is what remains, in order. *)
Inductive without_extractor_args : list string -> list string -> Prop :=
| wea_nil : without_extractor_args [] []
| wea_dangling : without_extractor_args ["--extractor-args"] []
| wea_pair (value : string) (rest kept : list string) :
    without_extractor_args rest kept ->
    without_extractor_args ("--extractor-args" :: value :: rest) kept
| wea_keep (token : string) (rest kept : list string) :
    token <> "--extractor-args" ->
    without_extractor_args rest kept ->
    without_extractor_args (token :: rest) (token :: kept).

(** The rules announced in [t] are among those numbered above [lo] and up
    to [hi], each at most once and in the order of the ladder. *)
Definition well_announced (lo hi : nat) (t : Trace) : Prop :=
  StronglySorted lt (announced t) /\
  Forall (fun k => lo < k <= hi) (announced t).

(** A firing of a rule of the ladder, as it stands in a trace: the
    announcement of the rule, followed by at most one attempt and by no
    other announcement. *)
Definition firing (seg : Trace) : Prop :=
  match seg with
  | [] => False
  | o :: rest =>
      rule_of o <> None /\ announced rest = [] /\ length (attempts rest) <= 1
  end.

(** [t] is made of firings, one after the other. *)
Definition firings (t : Trace) : Prop :=
  exists segs, t = concat segs /\ Forall firing segs.

(** The format fallback applies to the session and has not fired in
    [t]. *)
Definition fallback_pending (s : Session) (t : Trace) : bool :=
  negb (audio_only (params s)) && format_from_quality s &&
  negb (existsb (Nat.eqb 6) (announced t)).

(** A stretch of the session with trace [t] and outcome [r] lets an
    unclassified failure be: after a failed attempt in [t] that no
    classifier recognises, the stretch announces nothing and attempts
    nothing, and it ends with the result of that attempt as the current
    one. *)
Definition settles (t : Trace) (r : Z + State) : Prop :=
  forall t1 c capture o t2,
    t = t1 ++ Saw (Spawn c capture) o :: t2 ->
    exit_code o <> 0%Z ->
    unclassified (completed capture o) = true ->
    announced t2 = [] /\ attempts t2 = [] /\
    exists st, r = inr st /\ result st = completed capture o.

(** The result [r] was produced by [run_yt_dlp] in session [s]: with
    captured output exactly when cookie logs are hidden. *)
Definition from_runner (s : Session) (r : CompletedProcess) : Prop :=
  exists o, r = completed (hide_cookie_logs s) o.

(** [t] ends with a successful attempt: every earlier attempt failed, and
    after the successful one come only its echoed output and one call of
    the finalizer. *)
Definition succeeded (s : Session) (t : Trace) : Prop :=
  exists t1 c o echoes before,
    t = t1 ++ Saw (Spawn c (hide_cookie_logs s)) o ::
          echoes ++ [Saw (FinalizeDownload (output_root s)
                            (audio_only (params s)) before) tt] /\
    exit_code o = 0%Z /\ all_failed t1 /\ finalized t1 = 0 /\
    forallb is_echo echoes = true.

(** What a stretch of the ladder does when entered with current result
    [res], as read off its trace [t] and outcome [r]. *)
Definition block_ok (s : Session) (lo hi : nat) (res : CompletedProcess)
  (t : Trace) (r : Z + State) : Prop :=
  well_announced lo hi t /\
  length (codes t) <= length (announced t) /\
  match r with
  | inr st =>
      all_failed t /\ finalized t = 0 /\
      returncode (result st) = last (codes t) (returncode res) /\
      (from_runner s res -> from_runner s (result st))
  | inl code =>
      code = last (codes t) (returncode res) /\
      ((all_failed t /\ finalized t = 0) \/ succeeded s t)
  end.

(** The configuration errors of an invocation. *)
Definition cookie_conflict (a : Args) : bool :=
  Py.truthy (cookies_from_browser a) && Py.truthy (cookies_file a).

Definition format_conflict (a : Args) : bool :=
  Py.truthy (format_spec a) && Py.truthy (quality a).

Definition unsupported_preset (a : Args) : bool :=
  Py.truthy (quality a) &&
  negb (Py.truthy (dict_get QUALITY_PRESETS (Py.text_of (quality a)))).

(** Token-backed access is requested: [use_po_token] of line 747. *)
Definition token_backed (a : Args) : bool :=
  auto_po_token a && negb (info_only a).

Definition is_environ_get (o : Obs) : bool :=
  match o with
  | Saw e _ =>
      match e with
      | EnvironGet _ => true
      | _ => false
      end
  end.

Definition provider_call_of (o : Obs) : option unit :=
  match o with
  | Saw e _ =>
      match e with
      | EnsurePoTokenProvider _ _ => Some tt
      | RestartPoTokenProvider _ _ => Some tt
      | EnsureWpcProvider _ => Some tt
      | _ => None
      end
  end.

(** How many times the token-provider manager was called. *)
Definition provider_calls (t : Trace) : nat :=
  length (collect provider_call_of t).

(** The set-up of the token provider, [ensure_po_token_provider]: a call
    during which processes are run ([yt-dlp --version] first, then [pip]
    and the container runtime as needed). *)
Definition is_provider_setup (o : Obs) : bool :=
  match o with
  | Saw e _ =>
      match e with
      | EnsurePoTokenProvider _ _ => true
      | _ => false
      end
  end.

(** A call during which no process is run: a read of the environment, a
    message, or the search for the browser, which only looks at paths. *)
Definition starts_no_process (o : Obs) : bool :=
  match o with
  | Saw e _ =>
      match e with
      | EnvironGet _ | PrintMsg _ | FindChromePath => true
      | _ => false
      end
  end.

(** What the checks of [prepare] guarantee, in terms of its trace [t] and
    outcome [r]. *)
Definition prepare_spec (a : Args) (t : Trace) (r : Z + Session) : Prop :=
  exists code rest,
    t = Saw (Which "yt-dlp") code :: rest /\
    (code <> 0%Z ->
     r = inl 1%Z /\
     rest = [Saw (PrintMsg msg_not_installed) tt;
             Saw (PrintMsg msg_install_hint) tt]) /\
    (code = 0%Z -> cookie_conflict a = true ->
     r = inl 2%Z /\ rest = [Saw (PrintMsg msg_cookie_conflict) tt]) /\
    (code = 0%Z -> list_formats a = false -> info_only a = false ->
     format_conflict a || unsupported_preset a = true ->
     r = inl 2%Z /\ attempts t = [] /\
     provider_calls t =
       (if negb (cookie_conflict a) && token_backed a then 1 else 0) /\
     forallb (fun o => starts_no_process o || is_provider_setup o) rest
       = true) /\
    (code = 0%Z -> cookie_conflict a = false -> token_backed a = true ->
     exists envs proxy_url no_proxy answer post,
       rest = envs ++ Saw (EnsurePoTokenProvider proxy_url no_proxy) answer
                    :: post /\
       forallb is_environ_get envs = true /\
       (Py.truthy answer = false ->
        r = inl 2%Z /\ post = [Saw (PrintMsg msg_no_provider) tt])).

(** The versions on which [parse_version] is the inner [parse] of the
    source: text within ASCII, where [str.isdigit] accepts the digits 0 to
    9 only, of at most 4300 characters, the longest run of digits that
    [int] converts by default. *)
Definition plain_version (v : string) : bool :=
  Py.is_ascii v && (String.length v <=? 4300)%nat.

Definition echo_of (o : Obs) : option (bool * string) :=
  match o with
  | Saw e _ =>
      match e with
      | Echo to_stderr text => Some (to_stderr, text)
      | _ => None
      end
  end.

(** The texts re-printed by [run_yt_dlp], each with its stream. *)
Definition echoed (t : Trace) : list (bool * string) := collect echo_of t.

(** The commands a session may run: the prepared one and the forms the
    ladder rebuilds from it. *)
Definition session_commands (s : Session) : list (list string) :=
  [ cmd s;
    with_player_client (cmd s) (retry_client_or_mweb s);
    with_wpc_browser (with_player_client (cmd s) (retry_client_or_mweb s))
      (wpc_browser_path (params s));
    with_player_client (cmd s) "web_safari";
    fallback_cmd s ].

(** [t] holds at most [n] attempts, each of them a command of the session
    run in the session's capture mode. *)
Definition took (s : Session) (n : nat) (t : Trace) : Prop :=
  length (attempts t) <= n /\
  Forall (fun a => In (fst (fst a)) (session_commands s) /\
                   snd (fst a) = hide_cookie_logs s)
         (attempts t).

(** The fallback format goes with the preset: the same height cap, or no
    cap for the two presets without one. *)
Definition fallback_matches (quality format_spec : option string) : Prop :=
  (exists height,
      format_spec =
        Some ("bestvideo[height<=" ++ height ++ "]+bestaudio/best")%string /\
      fallback_format_for_quality quality = capped_fallback height) \/
  ((quality = Some "best"%string \/ quality = Some "worst"%string) /\
   fallback_format_for_quality quality = unrestricted_fallback).

(** The client of the retries of rules 1 to 4, as the parameters decide
    it. *)
Definition token_retry_client (a : Args) : string :=
  if Py.truthy (player_client a) then Py.text_of (player_client a)
  else if Py.truthy (cookies_from_browser a) || Py.truthy (cookies_file a)
       then "web_safari"
       else "mweb".

(** What holds of a session set up by [prepare a]. *)
Definition prepared (a : Args) (s : Session) : Prop :=
  (list_formats a = false /\ info_only a = false /\
   cookie_conflict a = false /\ format_conflict a = false) /\
  (cookies_from_browser (params s) = cookies_from_browser a /\
   cookies_file (params s) = cookies_file a /\
   player_client (params s) = player_client a /\
   audio_only (params s) = audio_only a) /\
  (use_po_token s = auto_po_token a /\
   wpc_available s = use_po_token s && is_str (provider_type s) "wpc" /\
   (use_po_token s = true ->
    Py.truthy (provider_type s) = true /\
    retry_client_or_mweb s = token_retry_client a)) /\
  (format_from_quality s = Py.truthy (quality (params s)) /\
   (format_from_quality s = false ->
    quality a = quality (params s) /\
    (audio_only a = true \/ Py.truthy (format_spec a) = true)) /\
   (format_from_quality s = true ->
    dict_get QUALITY_PRESETS (Py.text_of (quality (params s))) =
      format_spec (params s) /\
    fallback_matches (quality (params s)) (format_spec (params s)))).

(** A download with the command-line defaults and no token provider. *)
Definition android_args : Args :=
  with_auto_po_token (default_args "https://youtu.be/x") false.

(** The session [prepare] sets up for [android_args]. *)
Definition android_session : Session :=
  {| params :=
       with_quality android_args (Some "bestvideo+bestaudio/best")
         (Some "best") false;
     cmd := [ "yt-dlp"; "--extractor-args"; "youtube:player_client=android";
              "--no-playlist"; "-o"; "./%(title)s.%(ext)s"; "-f";
              "bestvideo+bestaudio/best"; "--merge-output-format"; "mp4";
              "https://youtu.be/x" ];
     output_root := ".";
     proxy_value := None;
     no_proxy := None;
     use_po_token := false;
     provider_type := None;
     wpc_available := false;
     po_token_client := None;
     format_from_quality := true;
     retry_client := None |}.

Definition mkdir_of (o : Obs) : option string :=
  match o with
  | Saw e _ =>
      match e with
      | Mkdir path => Some path
      | _ => None
      end
  end.

(** The directories created. *)
Definition created (t : Trace) : list string := collect mkdir_of t.

Definition info_of (o : Obs) : option (list string * string * bool * Z) :=
  match o with
  | Saw e x =>
      match e in Event X return X -> option (list string * string * bool * Z)
      with
      | PrintVideoInfo cmd_base url hide => fun code =>
          Some (cmd_base, url, hide, code)
      | _ => fun _ => None
      end x
  end.

(** The calls of [print_video_info], each with its exit code.  During
    such a call the extractor is run, with [--skip-download --dump-json
    --no-playlist] and the URL after the command given (lines 624-625);
    that process is no attempt. *)
Definition info_calls (t : Trace) : list (list string * string * bool * Z) :=
  collect info_of t.

(** ** The helper programs around [download_video]

    The token-provider manager (lines 234-608) and the MP3 script
    ([download-mp3-by-song-name/scripts/download_mp3.py]) talk to the
    operating system directly.  Their calls, indexed by the type of the
    answer:

    - [Subprocess cmd capture]: [subprocess.run(cmd)], with
      [capture_output=True, text=True] when [capture] is set;
    - [ShutilWhich name]: [shutil.which(name)];
    - [PathExists path]: [Path(path).exists()];
    - [PathHome]: [Path.home()], as text;
    - [ReadFirstLine path]: [open(path).readline()], or [None] on
      [OSError];
    - [ProviderPing]: [provider_ping()] (lines 255-260);
    - [WaitForProvider]: [wait_for_provider()] (lines 273-279), which polls
      [provider_ping] against the clock;
    - [ImageioFfmpegExe]: [imageio_ffmpeg.get_ffmpeg_exe()], or [None] when
      the import or the call raises;
    - [MakeDirs path]: [Path(path).mkdir(parents=True, exist_ok=True)];
    - [Say to_stderr msg]: [print(msg)], on standard error when the flag is
      set.

    Exceptions other than the ones named are not modelled: a process is
    one that could be started and has exited, with a zero or non-zero
    code. *)
Inductive Request : Type -> Type :=
| Subprocess (cmd : list string) (capture : bool) : Request ProcOutcome
| ShutilWhich (name : string) : Request (option string)
| PathExists (path : string) : Request bool
| PathHome : Request string
| ReadFirstLine (path : string) : Request (option string)
| ProviderPing : Request bool
| WaitForProvider : Request bool
| ImageioFfmpegExe : Request (option string)
| MakeDirs (path : string) : Request unit
| Say (to_stderr : bool) (msg : string) : Request unit.

Inductive Task (A : Type) : Type :=
| Pure (a : A)
| Ask {X : Type} (q : Request X) (k : X -> Task A).

Arguments Pure {A} a.
Arguments Ask {A X} q k.

Fixpoint task_bind {A B : Type} (p : Task A) (f : A -> Task B) : Task B :=
  match p with
  | Pure a => f a
  | Ask q k => Ask q (fun x => task_bind (k x) f)
  end.

Definition request {X : Type} (q : Request X) : Task X := Ask q Pure.

Declare Scope task_scope.
Delimit Scope task_scope with task.
Bind Scope task_scope with Task.

Notation "x <- p ;; k" := (task_bind p (fun x => k))
  (at level 61, p at next level, right associativity) : task_scope.
Notation "' pat <- p ;; k" :=
  (task_bind p (fun x => match x with pat => k end))
  (at level 61, pat pattern, p at next level, right associativity)
  : task_scope.
Notation "p ;; k" := (task_bind p (fun _ => k))
  (at level 61, right associativity) : task_scope.

(** One answered call. *)
Inductive Reply : Type :=
| Got {X : Type} (q : Request X) (x : X).

Definition Log : Type := list Reply.

Definition Responder (W : Type) : Type := forall X, Request X -> W -> X * W.

(** Running a task against an operating system [h]: the result, the final
    state of the system and the calls made, in order. *)
Fixpoint perform {W A : Type} (h : Responder W) (p : Task A) (w : W)
  : A * W * Log :=
  match p with
  | Pure a => (a, w, [])
  | Ask q k =>
      let '(x, w1) := h _ q w in
      let '(a, w2, l) := perform h (k x) w1 in
      (a, w2, Got q x :: l)
  end.

(** [does p l a]: some answers make [p] perform the calls [l] and end
    with [a]. *)
Fixpoint does {A : Type} (p : Task A) (l : Log) (a : A) : Prop :=
  match p with
  | Pure a' => l = [] /\ a = a'
  | Ask q k => exists x l', l = Got q x :: l' /\ does (k x) l' a
  end.

(** The entries of a log selected by [f], in order. *)
Fixpoint pick {B : Type} (f : Reply -> option B) (l : Log) : list B :=
  match l with
  | [] => []
  | o :: r =>
      match f o with
      | Some b => b :: pick f r
      | None => pick f r
      end
  end.

Definition subprocess_of (o : Reply) : option (list string * bool * ProcOutcome) :=
  match o with
  | Got q x =>
      match q in Request X return X -> option (list string * bool * ProcOutcome)
      with
      | Subprocess cmd capture => fun out => Some (cmd, capture, out)
      | _ => fun _ => None
      end x
  end.

(** The processes run, each with its command, its capture mode and what
    it did. *)
Definition spawned (l : Log) : list (list string * bool * ProcOutcome) :=
  pick subprocess_of l.

Definition makedirs_of (o : Reply) : option string :=
  match o with
  | Got q _ =>
      match q with
      | MakeDirs path => Some path
      | _ => None
      end
  end.

Definition made_dirs (l : Log) : list string := pick makedirs_of l.

Definition said_of (o : Reply) : option (bool * string) :=
  match o with
  | Got q _ =>
      match q with
      | Say to_stderr msg => Some (to_stderr, msg)
      | _ => None
      end
  end.

(** The messages printed, each with its stream. *)
Definition said (l : Log) : list (bool * string) := pick said_of l.

Definition which_of (o : Reply) : option (string * option string) :=
  match o with
  | Got q x =>
      match q in Request X return X -> option (string * option string) with
      | ShutilWhich name => fun path => Some (name, path)
      | _ => fun _ => None
      end x
  end.

(** The executables looked up on the search path, each with the answer. *)
Definition lookups (l : Log) : list (string * option string) :=
  pick which_of l.

(** The number of processes run that failed. *)
Definition failed_count (l : Log) : Z :=
  Z.of_nat (length (filter (fun p => negb (exit_code (snd p) =? 0)%Z)
                           (spawned l))).

(** [str(n)] for an integer. *)
Definition str_of_int (n : Z) : string := NilZero.string_of_int (Z.to_int n).

(** ** The MP3 script ([download_mp3.py]) *)

Local Open Scope task_scope.

Module Mp3.

Section Script.

(** [str(Path(dir) / name)] *)
Variable joinpath : string -> string -> string.

(** The tools that [resolve_tools] reports as missing. *)
Definition missing_tools (yt_dlp_bin ffmpeg_bin : option string)
  : list string :=
  (if negb (Py.truthy yt_dlp_bin) then ["yt-dlp"] else []) ++
  (if negb (Py.truthy ffmpeg_bin) then ["ffmpeg"] else []).

Definition msg_missing (missing : list string) : string :=
  ("Missing required tools: " ++ Py.join ", " missing ++ Py.nl ++
   "Install and retry. Examples: brew install yt-dlp ffmpeg OR pip install --user yt-dlp imageio-ffmpeg")%string.

(** Lines 9-38; [inl code] stands for [sys.exit(code)]. *)
Definition resolve_tools : Task (Z + string * string) :=
  yt_dlp_bin <- request (ShutilWhich "yt-dlp") ;;
  yt_dlp_bin <-
    match yt_dlp_bin with
    | None =>
        home <- request PathHome ;;
        let user_bin := joinpath home "Library/Python/3.9/bin/yt-dlp" in
        found <- request (PathExists user_bin) ;;
        Pure (if found then Some user_bin else None)
    | Some _ => Pure yt_dlp_bin
    end ;;
  ffmpeg_bin <- request (ShutilWhich "ffmpeg") ;;
  ffmpeg_bin <-
    match ffmpeg_bin with
    | None => request ImageioFfmpegExe
    | Some _ => Pure ffmpeg_bin
    end ;;
  if Py.truthy yt_dlp_bin && Py.truthy ffmpeg_bin then
    Pure (inr (Py.text_of yt_dlp_bin, Py.text_of ffmpeg_bin))
  else
    request (Say true (msg_missing (missing_tools yt_dlp_bin ffmpeg_bin))) ;;
    Pure (inl 1%Z).

(** The command of lines 43-60. *)
Definition mp3_cmd (song_query output_dir yt_dlp_bin ffmpeg_bin : string)
  : list string :=
  [ yt_dlp_bin; ("ytsearch1:" ++ song_query)%string; "--extract-audio";
    "--audio-format"; "mp3"; "--audio-quality"; "0"; "--embed-metadata";
    "--embed-thumbnail"; "--no-playlist"; "--extractor-args";
    "youtube:player_client=android"; "--ffmpeg-location"; ffmpeg_bin; "-o";
    joinpath output_dir "%(title)s.%(ext)s" ].

(** Lines 41-68. *)
Definition download_one (song_query output_dir yt_dlp_bin ffmpeg_bin : string)
  : Task Z :=
  let cmd := mp3_cmd song_query output_dir yt_dlp_bin ffmpeg_bin in
  request (Say false ("Downloading: " ++ song_query)%string) ;;
  completed <- request (Subprocess cmd false) ;;
  (if (exit_code completed =? 0)%Z
   then request (Say false ("Done: " ++ song_query)%string)
   else request (Say true ("Failed: " ++ song_query)%string)) ;;
  Pure (exit_code completed).

(** The loop of lines 88-89. *)
Fixpoint download_songs (songs : list string)
    (output_dir yt_dlp_bin ffmpeg_bin : string) (failures : Z) : Task Z :=
  match songs with
  | [] => Pure failures
  | song :: rest =>
      code <- download_one song output_dir yt_dlp_bin ffmpeg_bin ;;
      download_songs rest output_dir yt_dlp_bin ffmpeg_bin
        (failures + (if negb (code =? 0)%Z then 1 else 0))%Z
  end.

(** Lines 71-96, for the song queries of the command line. *)
Definition main (songs : list string) : Task Z :=
  tools <- resolve_tools ;;
  match tools with
  | inl code => Pure code
  | inr (yt_dlp_bin, ffmpeg_bin) =>
      home <- request PathHome ;;
      let output_dir := joinpath home "Downloads" in
      request (MakeDirs output_dir) ;;
      failures <- download_songs songs output_dir yt_dlp_bin ffmpeg_bin 0 ;;
      if negb (failures =? 0)%Z then
        request (Say true ("Completed with " ++ str_of_int failures ++
                           " failure(s).")%string) ;;
        Pure 1%Z
      else
        request (Say false ("All downloads saved in: " ++ output_dir)%string) ;;
        Pure 0%Z
  end.

End Script.

End Mp3.

Local Close Scope task_scope.

(** ** The primary file of a download (lines 74-94) *)

(** A path as [pick_primary_file] reads it: its text, [path.suffix.lower()]
    and [path.stat().st_size]. *)
Record PathInfo : Type := mkPath {
  path_text : string;
  suffix_lower : string;
  st_size : Z
}.

Definition partial_exts : list string := [".part"; ".ytdl"; ".tmp"].
Definition video_exts : list string :=
  [".mp4"; ".webm"; ".mkv"; ".mov"; ".m4v"].
Definition audio_exts : list string :=
  [".mp3"; ".m4a"; ".opus"; ".aac"; ".flac"; ".wav"].

Definition is_partial (path : PathInfo) : bool :=
  Py.list_in (suffix_lower path) partial_exts.

(** The test of the first loop: not a partial download, and of the kind
    asked for. *)
Definition is_wanted (audio_only : bool) (path : PathInfo) : bool :=
  negb (is_partial path) &&
  (if audio_only then Py.list_in (suffix_lower path) audio_exts
   else Py.list_in (suffix_lower path) video_exts).

(** [max(best :: rest, key=lambda p: p.stat().st_size)]: the first path of
    the largest size. *)
Fixpoint max_by_size (best : PathInfo) (rest : list PathInfo) : PathInfo :=
  match rest with
  | [] => best
  | path :: rest' =>
      max_by_size (if (st_size best <? st_size path)%Z then path else best)
        rest'
  end.

Definition pick_primary_file (files : list PathInfo) (audio_only : bool)
  : option PathInfo :=
  let candidates := filter (is_wanted audio_only) files in
  let candidates :=
    match candidates with
    | [] => filter (fun path => negb (is_partial path)) files
    | _ :: _ => candidates
    end in
  match candidates with
  | [] => None
  | path :: rest => Some (max_by_size path rest)
  end.

(** ** More Python built-ins: whitespace *)

Module PyText.

(** The one-byte whitespace characters of [str.isspace]: TAB to CR, FS to
    US and the space. *)
Definition is_ascii_space (c : ascii) : bool :=
  let n := nat_of_ascii c in
  ((9 <=? n)%nat && (n <=? 13)%nat) || ((28 <=? n)%nat && (n <=? 32)%nat).

(** The last byte of U+2000 to U+200A, U+2028, U+2029 and U+202F, which
    all start with the bytes 226 and 128. *)
Definition is_wide_space (d : ascii) : bool :=
  let n := nat_of_ascii d in
  ((128 <=? n)%nat && (n <=? 138)%nat) || (n =? 168)%nat || (n =? 169)%nat ||
  (n =? 175)%nat.

(** The number of bytes of the whitespace character that starts [s], or 0
    when [s] does not start with one.  Beyond ASCII these are NEL, the
    no-break space, the Ogham space mark, the spaces of the General
    Punctuation block, the medium mathematical space and the ideographic
    space. *)
Definition space_width (s : string) : nat :=
  match s with
  | EmptyString => 0
  | String c r =>
      if is_ascii_space c then 1
      else
        match c, r with
        | "194"%char, String d _ =>
            if ((nat_of_ascii d =? 133) || (nat_of_ascii d =? 160))%nat
            then 2 else 0
        | "225"%char, String "154"%char (String "128"%char _) => 3
        | "226"%char, String "128"%char (String d _) =>
            if is_wide_space d then 3 else 0
        | "226"%char, String "129"%char (String "159"%char _) => 3
        | "227"%char, String "128"%char (String "128"%char _) => 3
        | _, _ => 0
        end
  end.

(** [s.lstrip()] *)
Fixpoint lstrip (s : string) : string :=
  match s with
  | EmptyString => EmptyString
  | String _ r =>
      match space_width s, r with
      | 0, _ => s
      | 1, _ => lstrip r
      | 2, String _ r' => lstrip r'
      | S (S (S _)), String _ (String _ r'') => lstrip r''
      | _, _ => s
      end
  end.

(** [s] is made of whitespace characters only. *)
Fixpoint all_space (s : string) : bool :=
  match s with
  | EmptyString => true
  | String _ r =>
      match space_width s, r with
      | 0, _ => false
      | 1, _ => all_space r
      | 2, String _ r' => all_space r'
      | S (S (S _)), String _ (String _ r'') => all_space r''
      | _, _ => false
      end
  end.

(** [s.rstrip()] *)
Fixpoint rstrip (s : string) : string :=
  match s with
  | EmptyString => EmptyString
  | String c r => if all_space s then EmptyString else String c (rstrip r)
  end.

(** [s.strip()] *)
Definition strip (s : string) : string := rstrip (lstrip s).

(** The word read so far ([cur], reversed), if any. *)
Definition flush (cur : list ascii) : list string :=
  match cur with
  | [] => []
  | _ :: _ => [string_of_list_ascii (rev cur)]
  end.

Fixpoint split_from (cur : list ascii) (s : string) : list string :=
  match s with
  | EmptyString => flush cur
  | String c r =>
      match space_width s, r with
      | 0, _ => split_from (c :: cur) r
      | 1, _ => flush cur ++ split_from [] r
      | 2, String _ r' => flush cur ++ split_from [] r'
      | S (S (S _)), String _ (String _ r'') => flush cur ++ split_from [] r''
      | _, _ => split_from (c :: cur) r
      end
  end.

(** [s.split()]: the words of [s], separated by runs of whitespace. *)
Definition split (s : string) : list string := split_from [] s.

(** [s[n:]] for a text whose first [n] characters are ASCII. *)
Fixpoint drop (n : nat) (s : string) : string :=
  match n, s with
  | S m, String _ r => drop m r
  | _, _ => s
  end.

End PyText.

(** ** The token-provider manager (lines 210-231, 263-608) *)

Local Open Scope task_scope.

Definition PYPI_MIRROR : string := "https://pypi.tuna.tsinghua.edu.cn/simple".

(** [subprocess.run(cmd, capture_output=True, text=True)] *)
Definition run_captured (cmd : list string) : Task CompletedProcess :=
  o <- request (Subprocess cmd true) ;;
  Pure (completed true o).

Definition say (msg : string) : Task unit := request (Say false msg).

Definition docker_available : Task bool :=
  result <- run_captured ["docker"; "--version"] ;;
  Pure (returncode result =? 0)%Z.

Definition docker_daemon_ready : Task bool :=
  result <- run_captured ["docker"; "info"] ;;
  Pure (returncode result =? 0)%Z.

Definition container_exists (name : string) : Task bool :=
  result <- run_captured ["docker"; "ps"; "-a"; "--filter";
                          ("name=" ++ name)%string; "--format"; "{{.Names}}"] ;;
  Pure ((returncode result =? 0)%Z &&
        Py.list_in name (PyText.split (Py.text_of (stdout result)))).

Definition parse_yt_dlp_version : Task (option string) :=
  result <- run_captured ["yt-dlp"; "--version"] ;;
  if negb (returncode result =? 0)%Z then Pure None
  else Pure (Some (PyText.strip (Py.text_of (stdout result)))).

Definition yt_dlp_python : Task (option string) :=
  yt_dlp_path <- request (ShutilWhich "yt-dlp") ;;
  if negb (Py.truthy yt_dlp_path) then Pure None
  else
    line <- request (ReadFirstLine (Py.text_of yt_dlp_path)) ;;
    match line with
    | None => Pure None
    | Some line =>
        let first := PyText.strip line in
        if negb (String.prefix "#!" first) then Pure None
        else
          let shebang := PyText.strip (PyText.drop 2 first) in
          if Py.endswith shebang "env python3" ||
             Py.endswith shebang "env python"
          then Pure (Some "python3")
          else Pure (Some shebang)
    end.

(** The common shape of [ensure_pot_plugin_installed] and
    [ensure_wpc_provider]: a minimum version of the extractor, then
    [pip show] and, when the package is missing, [pip install]. *)
Definition ensure_pot_plugin_installed (proxy_url : option string)
  : Task bool :=
  version <- parse_yt_dlp_version ;;
  if negb (Py.truthy version) ||
     negb (version_at_least (Py.text_of version) "2025.05.22") then
    say "⚠️  yt-dlp needs to be updated before enabling PO Token provider." ;;
    Pure false
  else
    python_bin <- yt_dlp_python ;;
    if negb (Py.truthy python_bin) then
      say "⚠️  Unable to locate yt-dlp's Python interpreter for plugin install." ;;
      Pure false
    else
      let python_bin := Py.text_of python_bin in
      check <- run_captured [python_bin; "-m"; "pip"; "show";
                             "bgutil-ytdlp-pot-provider"] ;;
      if (returncode check =? 0)%Z then Pure true
      else
        say "⚠️  Installing PO Token provider plugin (one-time setup)..." ;;
        let install_cmd :=
          [python_bin; "-m"; "pip"; "install"; "bgutil-ytdlp-pot-provider";
           "-i"; PYPI_MIRROR] in
        let install_cmd :=
          extend_if (Py.truthy proxy_url) install_cmd
            ["--proxy"; Py.text_of proxy_url] in
        install <- run_captured install_cmd ;;
        Pure (returncode install =? 0)%Z.

Definition ensure_wpc_provider (proxy_url : option string) : Task bool :=
  version <- parse_yt_dlp_version ;;
  if negb (Py.truthy version) ||
     negb (version_at_least (Py.text_of version) "2025.09.26") then
    say "⚠️  yt-dlp needs to be updated before enabling the WPC PO Token provider." ;;
    Pure false
  else
    python_bin <- yt_dlp_python ;;
    if negb (Py.truthy python_bin) then
      say "⚠️  Unable to locate yt-dlp's Python interpreter for WPC provider install." ;;
      Pure false
    else
      let python_bin := Py.text_of python_bin in
      check <- run_captured [python_bin; "-m"; "pip"; "show";
                             "yt-dlp-getpot-wpc"] ;;
      if (returncode check =? 0)%Z then Pure true
      else
        say "⚠️  Installing WPC PO Token provider (one-time setup)..." ;;
        let install_cmd :=
          [python_bin; "-m"; "pip"; "install"; "-U"; "yt-dlp-getpot-wpc";
           "-i"; PYPI_MIRROR] in
        let install_cmd :=
          extend_if (Py.truthy proxy_url) install_cmd
            ["--proxy"; Py.text_of proxy_url] in
        install <- run_captured install_cmd ;;
        Pure (returncode install =? 0)%Z.

(** ["wpc" if ensure_wpc_provider(proxy_url) else None] *)
Definition wpc_or_none (proxy_url : option string) : Task (option string) :=
  ready <- ensure_wpc_provider proxy_url ;;
  Pure (if ready then Some "wpc" else None).

(** The six [-e] pairs that hand a proxy to the container. *)
Definition proxy_env_args (docker_proxy : string) : list string :=
  [ "-e"; ("HTTP_PROXY=" ++ docker_proxy)%string;
    "-e"; ("HTTPS_PROXY=" ++ docker_proxy)%string;
    "-e"; ("ALL_PROXY=" ++ docker_proxy)%string;
    "-e"; ("http_proxy=" ++ docker_proxy)%string;
    "-e"; ("https_proxy=" ++ docker_proxy)%string;
    "-e"; ("all_proxy=" ++ docker_proxy)%string ].

Definition no_proxy_env_args (no_proxy : option string) : list string :=
  extend_if (Py.truthy no_proxy) []
    [ "-e"; ("NO_PROXY=" ++ Py.text_of no_proxy)%string;
      "-e"; ("no_proxy=" ++ Py.text_of no_proxy)%string ].

Definition provider_name : string := "bgutil-pot-provider".

(** The [docker run] command of lines 437-448 and 553-564. *)
Definition docker_run_cmd (use_host_network : bool) (env_args : list string)
  : list string :=
  extend_if use_host_network ["docker"; "run"; "-d"; "--name"; provider_name]
    ["--network"; "host"] ++
  ["-p"; "4416:4416"] ++ env_args ++
  ["--init"; "brainicism/bgutil-ytdlp-pot-provider"].

Section ProviderManager.

(** [urllib.parse]: the six components of a URL, and what [urlparse]
    reads off the network location. *)
Record ParseResult : Type := mkParsed {
  scheme : string;
  netloc : string;
  path : string;
  params_part : string;
  query : string;
  fragment : string;
  hostname : option string;
  username : option string;
  password : option string;
  port : option Z
}.

Variable urlparse : string -> ParseResult.
Variable urlunparse :
  string -> string -> string -> string -> string -> string -> string.

Definition local_host (parsed : ParseResult) : bool :=
  match hostname parsed with
  | Some h => String.eqb h "127.0.0.1" || String.eqb h "localhost"
  | None => false
  end.

(** Lines 210-226. *)
Definition normalize_proxy_for_docker (proxy_url : string) : string :=
  let parsed := urlparse proxy_url in
  if local_host parsed then
    let host := "host.docker.internal" in
    let netloc :=
      if Py.truthy (username parsed) || Py.truthy (password parsed) then
        let userinfo := Py.text_of (Py.or_else (username parsed) (Some "")) in
        let userinfo :=
          if Py.truthy (password parsed)
          then (userinfo ++ ":" ++ Py.text_of (password parsed))%string
          else userinfo in
        (userinfo ++ "@")%string
      else "" in
    let netloc :=
      match port parsed with
      | Some p =>
          if negb (p =? 0)%Z
          then (netloc ++ host ++ ":" ++ str_of_int p)%string
          else (netloc ++ host)%string
      | None => (netloc ++ host)%string
      end in
    urlunparse (scheme parsed) netloc (path parsed) (params_part parsed)
      (query parsed) (fragment parsed)
  else proxy_url.

(** Lines 229-231. *)
Definition is_localhost_proxy (proxy_url : string) : bool :=
  local_host (urlparse proxy_url).

(** [use_host_network] and [env_args] as lines 406-436 (and 522-552) leave
    them. *)
Definition first_run_settings (proxy_url no_proxy : option string)
  : bool * list string :=
  let '(use_host_network, env_args) :=
    if Py.truthy proxy_url then
      let use_host_network := is_localhost_proxy (Py.text_of proxy_url) in
      let docker_proxy :=
        if use_host_network then Py.text_of proxy_url
        else normalize_proxy_for_docker (Py.text_of proxy_url) in
      (use_host_network, proxy_env_args docker_proxy)
    else (false, []) in
  (use_host_network, env_args ++ no_proxy_env_args no_proxy).

(** [env_args] of the second [docker run], without host networking
    (lines 454-477 and 568-591). *)
Definition second_run_env_args (proxy_url no_proxy : option string)
  : list string :=
  proxy_env_args (normalize_proxy_for_docker (Py.text_of proxy_url)) ++
  no_proxy_env_args no_proxy.

(** Lines 516-608. *)
Definition restart_po_token_provider (proxy_url no_proxy : option string)
  : Task bool :=
  available <- docker_available ;;
  ready <- (if available then docker_daemon_ready else Pure false) ;;
  if negb available || negb ready then Pure false
  else
    present <- container_exists provider_name ;;
    (if present
     then _ <- run_captured ["docker"; "rm"; "-f"; provider_name] ;; Pure tt
     else Pure tt) ;;
    let '(use_host_network, env_args) :=
      first_run_settings proxy_url no_proxy in
    run <- run_captured (docker_run_cmd use_host_network env_args) ;;
    (if negb (returncode run =? 0)%Z && use_host_network
     then _ <- run_captured
                 (docker_run_cmd false
                    (second_run_env_args proxy_url no_proxy)) ;;
          Pure tt
     else Pure tt) ;;
    request WaitForProvider.

Definition msg_running : string := "✓ PO Token provider is running.".

Definition msg_start_failed : string :=
  "⚠️  Docker provider failed to start. Switching to browser-based PO Token provider...".

(** Lines 503-513: wait for the container to answer; when it does not,
    recreate it once. *)
Definition await_provider (proxy_url no_proxy : option string)
  : Task (option string) :=
  up <- request WaitForProvider ;;
  if up then
    say msg_running ;;
    Pure (Some "bgutil")
  else
    restarted <- restart_po_token_provider proxy_url no_proxy ;;
    answering <- (if restarted then request ProviderPing else Pure false) ;;
    if restarted && answering then
      say msg_running ;;
      Pure (Some "bgutil")
    else
      say "⚠️  Docker-based provider failed. Switching to browser-based PO Token provider..." ;;
      wpc_or_none proxy_url.

(** Lines 384-513. *)
Definition ensure_po_token_provider (proxy_url no_proxy : option string)
  : Task (option string) :=
  installed <- ensure_pot_plugin_installed proxy_url ;;
  if negb installed then wpc_or_none proxy_url
  else
  answering <- request ProviderPing ;;
  if answering then Pure (Some "bgutil")
  else
  available <- docker_available ;;
  if negb available then
    say "⚠️  Docker is not available. Switching to browser-based PO Token provider..." ;;
    wpc_or_none proxy_url
  else
  ready <- docker_daemon_ready ;;
  if negb ready then
    say "⚠️  Docker daemon is not running. Switching to browser-based PO Token provider..." ;;
    wpc_or_none proxy_url
  else
  present <- container_exists provider_name ;;
  if present then
    start <- run_captured ["docker"; "start"; provider_name] ;;
    if negb (returncode start =? 0)%Z then
      say "⚠️  Docker container failed to start. Switching to browser-based PO Token provider..." ;;
      wpc_or_none proxy_url
    else await_provider proxy_url no_proxy
  else
    let '(use_host_network, env_args) :=
      first_run_settings proxy_url no_proxy in
    run <- run_captured (docker_run_cmd use_host_network env_args) ;;
    if negb (returncode run =? 0)%Z then
      if use_host_network && Py.truthy proxy_url then
        retry <- run_captured
                   (docker_run_cmd false
                      (second_run_env_args proxy_url no_proxy)) ;;
        if (returncode retry =? 0)%Z then await_provider proxy_url no_proxy
        else
          say msg_start_failed ;;
          wpc_or_none proxy_url
      else
        say msg_start_failed ;;
        wpc_or_none proxy_url
    else await_provider proxy_url no_proxy.

End ProviderManager.

Local Close Scope task_scope.

(** *** What is read off a log of the manager *)

(** A container command: [docker] with one of the subcommands the manager
    uses. *)
Definition is_docker (cmd : list string) : bool :=
  match cmd with
  | tool :: sub :: _ =>
      String.eqb tool "docker" &&
      Py.list_in sub ["--version"; "info"; "ps"; "start"; "rm"; "run"]
  | _ => false
  end.

(** The container commands run, each with what it did. *)
Definition docker_runs (l : Log) : list (list string * ProcOutcome) :=
  map (fun p => (fst (fst p), snd p))
      (filter (fun p => is_docker (fst (fst p))) (spawned l)).

Definition health_of (o : Reply) : option (bool * bool) :=
  match o with
  | Got q x =>
      match q in Request X return X -> option (bool * bool) with
      | ProviderPing => fun up => Some (false, up)
      | WaitForProvider => fun up => Some (true, up)
      | _ => fun _ => None
      end x
  end.

(** The health checks of the provider: whether the check was a wait
    ([true]) or a single ping, and its answer. *)
Definition health (l : Log) : list (bool * bool) := pick health_of l.

(** [cmd] runs [pip] for [package] with some interpreter. *)
Definition pip_for (package : string) (cmd : list string) : Prop :=
  exists python_bin tail,
    cmd = python_bin :: "-m"%string :: "pip"%string :: tail /\
    In package tail.

(** What a run [l] of [ensure_pot_plugin_installed] or
    [ensure_wpc_provider] with answer [r] looks like: the version of the
    extractor is asked first, then come at most two runs of [pip]; the
    answer is [True] exactly when the version is at least [minimum] and the
    last run of [pip] succeeded. *)
Definition pip_setup (package minimum : string) (l : Log) (r : bool) : Prop :=
  health l = [] /\
  exists o rest,
    spawned l = (["yt-dlp"%string; "--version"%string], true, o) :: rest /\
    Forall (fun p => pip_for package (fst (fst p))) rest /\
    length rest <= 2 /\
    (r = true <->
     exit_code o = 0%Z /\
     version_at_least (PyText.strip (out_text o)) minimum = true /\
     exists earlier p, rest = earlier ++ [p] /\ exit_code (snd p) = 0%Z).

(** The last health check, if there was one, found the provider
    answering. *)
Definition answered (l : Log) : Prop :=
  last (map snd (health l)) false = true.

(** What a run [l] of [ensure_po_token_provider] with answer [r] looks
    like. *)
Definition ensured (l : Log) (r : option string) : Prop :=
  (r = None \/ r = Some "wpc"%string \/ r = Some "bgutil"%string) /\
  (r = Some "bgutil"%string <-> answered l) /\
  (forall rest,
      health l = (false, true) :: rest -> rest = [] /\ docker_runs l = []) /\
  (exists o rest,
      spawned l = (["yt-dlp"; "--version"]%string, true, o) :: rest /\
      (exit_code o <> 0%Z \/
       version_at_least (PyText.strip (out_text o)) "2025.05.22" = false ->
       docker_runs l = [] /\ health l = [])) /\
  (forall o rest,
      docker_runs l = (["docker"; "--version"]%string, o) :: rest ->
      exit_code o <> 0%Z -> rest = [] /\ health l = [(false, false)]) /\
  (forall o1 o2 rest,
      docker_runs l = (["docker"; "--version"]%string, o1) ::
                      (["docker"; "info"]%string, o2) :: rest ->
      exit_code o2 <> 0%Z -> rest = [] /\ health l = [(false, false)]).

(** What a run [l] of [restart_po_token_provider] with answer [r] looks
    like.  Only container commands are run.  When [docker --version] or
    [docker info] fails nothing else happens and the answer is [False].
    Otherwise the container is listed, removed when the listing names it,
    and created: once, and once more without host networking when the
    first creation asked for host networking and failed; the answer is
    that of the wait that follows. *)
Definition restarted
    (urlparse : string -> ParseResult)
    (urlunparse :
       string -> string -> string -> string -> string -> string -> string)
    (proxy_url no_proxy : option string) (l : Log) (r : bool) : Prop :=
  length (spawned l) = length (docker_runs l) /\
  exists o1,
    (exit_code o1 <> 0%Z /\ r = false /\ health l = [] /\
     docker_runs l = [(["docker"; "--version"]%string, o1)]) \/
    exists o2,
      (exit_code o1 = 0%Z /\ exit_code o2 <> 0%Z /\ r = false /\
       health l = [] /\
       docker_runs l = [ (["docker"; "--version"]%string, o1);
                         (["docker"; "info"]%string, o2) ]) \/
      exists o3 o4 o5 o6,
        let '(use_host_network, env_args) :=
          first_run_settings urlparse urlunparse proxy_url no_proxy in
        exit_code o1 = 0%Z /\ exit_code o2 = 0%Z /\
        health l = [(true, r)] /\
        docker_runs l =
          [ (["docker"; "--version"]%string, o1);
            (["docker"; "info"]%string, o2);
            (["docker"; "ps"; "-a"; "--filter";
              ("name=" ++ provider_name)%string; "--format";
              "{{.Names}}"]%string, o3) ] ++
          (if (exit_code o3 =? 0)%Z &&
              Py.list_in provider_name (PyText.split (out_text o3))
           then [(["docker"; "rm"; "-f"; provider_name]%string, o4)]
           else []) ++
          (docker_run_cmd use_host_network env_args, o5) ::
          (if negb (exit_code o5 =? 0)%Z && use_host_network
           then [(docker_run_cmd false
                    (second_run_env_args urlparse urlunparse proxy_url
                       no_proxy), o6)]
           else []).

(** ** Probes of the machine (lines 97-118, 234-246) *)

Local Open Scope task_scope.

(** The command of lines 102-113, for [str(path)]. *)
Definition ffprobe_cmd (path : string) : list string :=
  [ "ffprobe"; "-v"; "error"; "-select_streams"; "v:0"; "-show_entries";
    "stream=width,height"; "-of"; "csv=p=0:s=x"; path ].

(** Lines 97-118. *)
Definition get_video_resolution (path : string) : Task (option string) :=
  check <- run_captured ["which"; "ffprobe"] ;;
  if negb (returncode check =? 0)%Z then Pure None
  else
    result <- run_captured (ffprobe_cmd path) ;;
    if negb (returncode result =? 0)%Z then Pure None
    else
      let value := PyText.strip (Py.text_of (stdout result)) in
      Pure (Py.or_else (Some value) None).

Definition chrome_candidates : list string :=
  [ "/Applications/Google Chrome.app/Contents/MacOS/Google Chrome";
    "/Applications/Chromium.app/Contents/MacOS/Chromium" ].

Definition chrome_names : list string :=
  [ "google-chrome"; "chromium"; "chromium-browser"; "chrome" ].

(** The loop of lines 242-246: the first name found on the search path. *)
Fixpoint first_which (names : list string) : Task (option string) :=
  match names with
  | [] => Pure None
  | name :: rest =>
      path <- request (ShutilWhich name) ;;
      if Py.truthy path then Pure path else first_which rest
  end.

(** The loop of lines 239-241, followed by [otherwise]. *)
Fixpoint first_existing (candidates : list string)
    (otherwise : Task (option string)) : Task (option string) :=
  match candidates with
  | [] => otherwise
  | candidate :: rest =>
      found <- request (PathExists candidate) ;;
      if found then Pure (Some candidate) else first_existing rest otherwise
  end.

(** Lines 234-246. *)
Definition find_chrome_path : Task (option string) :=
  first_existing chrome_candidates (first_which chrome_names).

Local Close Scope task_scope.

Definition probe_of (o : Reply) : option (string * option string) :=
  match o with
  | Got q x =>
      match q in Request X return X -> option (string * option string) with
      | PathExists path => fun found =>
          Some (path, if found then Some path else None)
      | ShutilWhich name => fun path => Some (name, path)
      | _ => fun _ => None
      end x
  end.

(** The places looked at, in order: a path with itself when it exists, a
    name with what the search path gives for it. *)
Definition probes (l : Log) : list (string * option string) :=
  pick probe_of l.

Definition environ_of (o : Obs) : option (string * option string) :=
  match o with
  | Saw e x =>
      match e in Event X return X -> option (string * option string) with
      | EnvironGet name => fun value => Some (name, value)
      | _ => fun _ => None
      end x
  end.

(** The environment variables read, each with its value. *)
Definition environ_reads (t : Trace) : list (string * option string) :=
  collect environ_of t.

(** [reads] looks the names of [names] up from the first one on, in order,
    and stops at the first truthy answer or at the last name; [v] is the
    last answer. *)
Definition first_set (names : list string)
    (reads : list (string * option string)) (v : option string) : Prop :=
  reads <> [] /\
  map fst reads = firstn (length reads) names /\
  Forall (fun r => Py.truthy (snd r) = false) (removelast reads) /\
  v = snd (last reads (""%string, None)) /\
  (Py.truthy v = false -> length reads = length names).

(** ** Sizes for the reader (lines 64-71)

    [human_size] turns its argument into a float by dividing it by
    [1024.0], up to four times.  For a size below 2^53 every value it
    computes is the integer divided by a power of 1024, which a float holds
    exactly; the float is modelled by the integer [num] and the number
    [scale] of divisions made.  Sizes from 2^53 on are rounded by the first
    division, which is not modelled. *)

(** The number of tenths nearest to [num / 1024^scale], the even one on a
    tie: the digits that [f"{x:.1f}"] prints for this float, which it
    rounds correctly. *)
Definition tenths (num : Z) (scale : nat) : Z :=
  let d := (1024 ^ Z.of_nat scale)%Z in
  let q := (10 * num / d)%Z in
  let r := ((10 * num) mod d)%Z in
  if (d <? 2 * r)%Z || ((2 * r =? d)%Z && Z.odd q) then (q + 1)%Z else q.

(** [f"{x:.1f}"] for [x = num / 1024^scale], [num] not negative. *)
Definition format_1f (num : Z) (scale : nat) : string :=
  let m := tenths num scale in
  (str_of_int (m / 10) ++ "." ++ str_of_int (m mod 10))%string.

(** The loop of lines 67-70 and the last line. *)
Fixpoint human_size_units (units : list string) (num : Z) (scale : nat)
  : string :=
  match units with
  | [] => (format_1f num scale ++ " PB")%string
  | unit :: rest =>
      let scale := S scale in
      if (num <? 1024 * 1024 ^ Z.of_nat scale)%Z
      then (format_1f num scale ++ " " ++ unit)%string
      else human_size_units rest num scale
  end.

Definition human_size (num_bytes : Z) : string :=
  if (num_bytes <? 1024)%Z then (str_of_int num_bytes ++ " B")%string
  else human_size_units ["KB"; "MB"; "GB"; "TB"] num_bytes 0.

(** ** [download_video] over the operating system

    An environment of [download_video] in which the calls of the
    token-provider manager are answered by running the manager itself on a
    system [os]; what it does there is added to a log.  The other calls
    are answered from a script, as [scripted] does. *)
Section Managed.

Variable W : Type.
Variable os : Responder W.
Variable urlparse : string -> ParseResult.
Variable urlunparse :
  string -> string -> string -> string -> string -> string -> string.

Definition managed : Handler (Script * W * Log) :=
  fun X e st =>
    let '(script, w, log) := st in
    let manager (A : Type) (p : Task A) : A * (Script * W * Log) :=
      let '(r, w1, l) := perform os p w in
      (r, (script, w1, log ++ l)) in
    match e in Event X return X * (Script * W * Log) with
    | EnsurePoTokenProvider proxy_url no_proxy =>
        manager _ (ensure_po_token_provider urlparse urlunparse
                     proxy_url no_proxy)
    | RestartPoTokenProvider proxy_url no_proxy =>
        manager _ (restart_po_token_provider urlparse urlunparse
                     proxy_url no_proxy)
    | EnsureWpcProvider proxy_url => manager _ (ensure_wpc_provider proxy_url)
    | FindChromePath => manager _ find_chrome_path
    | e0 =>
        let '(x, script1) := scripted _ e0 script in
        (x, (script1, w, log))
    end.

End Managed.

(** A system in which everything is in place: every process exits with
    code 0 and prints 2025.10.22, the extractor is a Python script, every
    path exists, and the provider answers. *)
Definition ready_system : Responder unit :=
  fun X q w =>
    match q in Request X return X * unit with
    | Subprocess _ _ => (mkOutcome 0 "2025.10.22" "", w)
    | ShutilWhich name => (Some ("/usr/bin/" ++ name)%string, w)
    | PathExists _ => (true, w)
    | PathHome => ("/home/user", w)
    | ReadFirstLine _ => (Some "#!/usr/bin/python3", w)
    | ProviderPing => (true, w)
    | WaitForProvider => (true, w)
    | ImageioFfmpegExe => (None, w)
    | MakeDirs _ => (tt, w)
    | Say _ _ => (tt, w)
    end.

(** * Properties *)

(** ** Strings *)

Lemma prefix_append (p b : string) : String.prefix p (p ++ b)%string = true.
Proof.
  induction p as [|c p IH]; simpl.
  - destruct b; reflexivity.
  - destruct (ascii_dec c c) as [_|n]; [exact IH | contradiction].
Qed.

Lemma prefix_elim (p t : string) :
  String.prefix p t = true -> exists b, t = (p ++ b)%string.
Proof.
  revert t; induction p as [|c p IH]; intros t H.
  - exists t; reflexivity.
  - destruct t as [|d t]; simpl in H; [discriminate|].
    destruct (ascii_dec c d) as [->|]; [|discriminate].
    destruct (IH _ H) as [b ->]. exists b; reflexivity.
Qed.

Lemma append_assoc (a b c : string) :
  ((a ++ b) ++ c)%string = (a ++ b ++ c)%string.
Proof. induction a as [|x a IH]; simpl; [reflexivity | now rewrite IH]. Qed.

Lemma append_empty_r (a : string) : (a ++ "")%string = a.
Proof. induction a as [|x a IH]; simpl; [reflexivity | now rewrite IH]. Qed.

Lemma str_in_nil (p : string) : Py.str_in p "" = String.prefix p "".
Proof. unfold Py.str_in. apply orb_false_r. Qed.

Lemma str_in_cons (p : string) (c : ascii) (t : string) :
  Py.str_in p (String c t) = String.prefix p (String c t) || Py.str_in p t.
Proof. reflexivity. Qed.

Lemma str_in_iff (p t : string) : Py.str_in p t = true <-> occurs_in p t.
Proof.
  split.
  - induction t as [|c t IH]; intros H.
    + rewrite str_in_nil in H. destruct (prefix_elim _ _ H) as [b E].
      exists ""%string, b. exact E.
    + rewrite str_in_cons in H. apply orb_true_iff in H. destruct H as [H|H].
      * destruct (prefix_elim _ _ H) as [b E]. exists ""%string, b. exact E.
      * destruct (IH H) as (a & b & ->). exists (String c a), b. reflexivity.
  - intros (a & b & ->). induction a as [|c a IH].
    + change ("" ++ p ++ b)%string with (p ++ b)%string.
      destruct (p ++ b)%string as [|c r] eqn:E.
      * rewrite str_in_nil, <- E. apply prefix_append.
      * rewrite str_in_cons, <- E, prefix_append. reflexivity.
    + change (String c a ++ p ++ b)%string with (String c (a ++ p ++ b)).
      rewrite str_in_cons, IH. apply orb_true_r.
Qed.

Lemma str_in_false (p t : string) :
  Py.str_in p t = false <-> ~ occurs_in p t.
Proof.
  rewrite <- str_in_iff. destruct (Py.str_in p t); split; intro H.
  - discriminate.
  - exfalso; apply H; reflexivity.
  - discriminate.
  - reflexivity.
Qed.

Lemma lower_append (a b : string) :
  Py.lower (a ++ b) = (Py.lower a ++ Py.lower b)%string.
Proof. induction a as [|c a IH]; simpl; [reflexivity | now rewrite IH]. Qed.

Lemma occurs_in_lower (m pat text : string) :
  Py.lower m = pat -> occurs_in m text -> occurs_in pat (Py.lower text).
Proof.
  intros <- (a & b & ->). exists (Py.lower a), (Py.lower b).
  now rewrite !lower_append.
Qed.

(** ** The classifier *)

(** C4: the token-verification classifier answers true exactly when the
    lower-cased concatenation of stdout and stderr (an absent stream counts
    as empty) contains "pot" and contains "error", each anywhere in the
    text. *)
Theorem has_pot_error_iff (result : CompletedProcess) :
  has_pot_error result = true <->
  occurs_in "pot"
    (Py.lower (Py.text_of (stdout result) ++ Py.text_of (stderr result))) /\
  occurs_in "error"
    (Py.lower (Py.text_of (stdout result) ++ Py.text_of (stderr result))).
Proof.
  unfold has_pot_error, output_text.
  rewrite andb_true_iff, !str_in_iff. reflexivity.
Qed.

(** C5: the forbidden-access classifier answers true exactly when the
    lower-cased concatenation of stdout and stderr contains one of its three
    signatures; in particular an output with "HTTP Error 403" spelled in any
    mix of upper and lower case is classified as forbidden access. *)
Theorem has_403_error_iff (result : CompletedProcess) :
  (has_403_error result = true <->
   occurs_in "http error 403"
     (Py.lower (Py.text_of (stdout result) ++ Py.text_of (stderr result))) \/
   occurs_in "403: forbidden"
     (Py.lower (Py.text_of (stdout result) ++ Py.text_of (stderr result))) \/
   occurs_in "fragment 1 not found"
     (Py.lower (Py.text_of (stdout result) ++ Py.text_of (stderr result)))) /\
  (forall spelling,
      Py.lower spelling = "http error 403"%string ->
      occurs_in spelling
        (Py.text_of (stdout result) ++ Py.text_of (stderr result)) ->
      has_403_error result = true).
Proof.
  assert (E : has_403_error result = true <->
    occurs_in "http error 403" (Py.lower (output_text result)) \/
    occurs_in "403: forbidden" (Py.lower (output_text result)) \/
    occurs_in "fragment 1 not found" (Py.lower (output_text result))).
  { unfold has_403_error.
    rewrite !orb_true_iff, !str_in_iff. tauto. }
  split; [exact E|].
  intros spelling Hl Ho. apply E. left.
  exact (occurs_in_lower _ _ _ Hl Ho).
Qed.

(** ** Version comparison *)

Lemma length_pad_zeros (n : nat) (l : list Z) :
  length (pad_zeros n l) = Nat.max n (length l).
Proof. unfold pad_zeros. rewrite length_app, repeat_length. lia. Qed.

Lemma nth_pad_zeros (n i : nat) (l : list Z) :
  nth i (pad_zeros n l) 0%Z = nth i l 0%Z.
Proof.
  unfold pad_zeros. destruct (Nat.lt_ge_cases i (length l)) as [H|H].
  - now rewrite app_nth1.
  - rewrite app_nth2 by exact H. rewrite (nth_overflow l) by exact H.
    remember (i - length l) as k eqn:E. clear E. revert k.
    induction (n - length l) as [|m IH]; intros [|k]; simpl; auto.
Qed.

Lemma padded_ge_pad (n m : nat) (a b : list Z) :
  padded_ge (pad_zeros n a) (pad_zeros m b) <-> padded_ge a b.
Proof.
  unfold padded_ge. split.
  - intros [H|(i & H1 & H2)].
    + left. intro i. specialize (H i). now rewrite !nth_pad_zeros in H.
    + right. exists i. rewrite !nth_pad_zeros in H2. split; [|exact H2].
      intros j Hj. specialize (H1 j Hj). now rewrite !nth_pad_zeros in H1.
  - intros [H|(i & H1 & H2)].
    + left. intro i. now rewrite !nth_pad_zeros.
    + right. exists i. rewrite !nth_pad_zeros. split; [|exact H2].
      intros j Hj. rewrite !nth_pad_zeros. now apply H1.
Qed.

Lemma list_ge_padded (a b : list Z) :
  length a = length b -> (Py.list_ge a b = true <-> padded_ge a b).
Proof.
  revert b; induction a as [|x a IH]; intros [|y b] Hlen; try discriminate.
  - simpl. split; [|reflexivity]. intros _. left. reflexivity.
  - simpl in Hlen. injection Hlen as Hlen. specialize (IH b Hlen).
    simpl. destruct (Z.eqb_spec x y) as [->|Hxy].
    + rewrite IH. unfold padded_ge. split.
      * intros [H|(i & H1 & H2)].
        -- left. intros [|i]; simpl; auto.
        -- right. exists (S i). split; [|exact H2].
           intros [|j] Hj; simpl; [reflexivity|]. apply H1. lia.
      * intros [H|(i & H1 & H2)].
        -- left. intro i. exact (H (S i)).
        -- right. destruct i as [|i]; simpl in H2; [lia|].
           exists i. split; [|exact H2].
           intros j Hj. apply (H1 (S j)). lia.
    + rewrite Z.ltb_lt. unfold padded_ge. split.
      * intro H. right. exists 0%nat. split; [intros j Hj; lia | exact H].
      * intros [H|(i & H1 & H2)].
        -- specialize (H 0%nat). simpl in H. congruence.
        -- destruct i as [|i]; simpl in H2; [exact H2|].
           specialize (H1 0%nat (Nat.lt_0_succ i)). simpl in H1. congruence.
Qed.

Lemma version_at_least_iff (version minimum : string) :
  version_at_least version minimum = true <->
  parse_version version <> [] /\ parse_version minimum <> [] /\
  padded_ge (parse_version version) (parse_version minimum).
Proof.
  unfold version_at_least.
  destruct (parse_version version) as [|x cur] eqn:Ec.
  { split; [discriminate | intros [H _]; congruence]. }
  destruct (parse_version minimum) as [|y req] eqn:Er.
  { split; [discriminate | intros (_ & H & _); congruence]. }
  rewrite list_ge_padded, padded_ge_pad.
  - split; [intro H; repeat split; try discriminate; exact H | tauto].
  - rewrite !length_pad_zeros. lia.
Qed.









(** ** The progressive-format fallback *)

Lemma drop_last_app_p (n : string) : Py.drop_last (n ++ "p") = n.
Proof.
  induction n as [|c n IH]; [reflexivity|].
  change (String c n ++ "p")%string with (String c (n ++ "p")).
  destruct (n ++ "p")%string as [|d r] eqn:E.
  - destruct n; discriminate.
  - change (Py.drop_last (String c (String d r)))
      with (String c (Py.drop_last (String d r))).
    now rewrite IH.
Qed.

Lemma endswith_cons (c : ascii) (q suf : string) :
  Py.endswith (String c q) suf =
  String.eqb (String c q) suf || Py.endswith q suf.
Proof. reflexivity. Qed.

Lemma endswith_app_p (n : string) : Py.endswith (n ++ "p") "p" = true.
Proof.
  induction n as [|c n IH]; [reflexivity|].
  change (String c n ++ "p")%string with (String c (n ++ "p")).
  rewrite endswith_cons, IH. apply orb_true_r.
Qed.

Lemma endswith_p_elim (q : string) :
  Py.endswith q "p" = true -> q = (Py.drop_last q ++ "p")%string.
Proof.
  induction q as [|c q IH]; intro H; [discriminate|].
  rewrite endswith_cons in H.
  apply orb_true_iff in H. destruct H as [H|H].
  - apply String.eqb_eq in H. now rewrite H.
  - specialize (IH H). destruct q as [|d q]; [discriminate|].
    change (Py.drop_last (String c (String d q)))
      with (String c (Py.drop_last (String d q))).
    change (String c (String d q) = String c (Py.drop_last (String d q) ++ "p")).
    f_equal. exact IH.
Qed.

Lemma digits_not_best (n : string) :
  Py.isdigit n = true -> String.eqb (n ++ "p") "best" = false.
Proof.
  destruct n as [|c n]; [discriminate|]. simpl. intro H.
  apply andb_true_iff in H. destruct H as [Hc _].
  destruct (Ascii.eqb_spec c "b"%char) as [->|]; [discriminate|reflexivity].
Qed.

(** C9: a preset made of digits 0 to 9 followed by "p" gives the selector
    capped at that height (mp4 first, then any capped non-m3u8 stream, then
    any non-m3u8 stream); no preset, "best", every preset in ASCII that is
    not of that form and every preset, in ASCII or not, that does not end
    in "p" give the unrestricted non-m3u8 selector.  (A preset that ends
    in "p" and spells its digits outside ASCII is numeric for [str.isdigit]
    too; it is left out.) *)
Theorem fallback_format_for_quality_spec :
  (forall n : string,
      Py.isdigit n = true ->
      fallback_format_for_quality (Some (n ++ "p")%string) =
      Py.join "/" [ ("best[height<=" ++ n ++ "][protocol!*=m3u8][ext=mp4]")%string;
                    ("best[height<=" ++ n ++ "][protocol!*=m3u8]")%string;
                    "best[protocol!*=m3u8]" ]) /\
  fallback_format_for_quality None =
    Py.join "/" [ "best[protocol!*=m3u8][ext=mp4]"; "best[protocol!*=m3u8]"; "best" ] /\
  fallback_format_for_quality (Some "best") =
    Py.join "/" [ "best[protocol!*=m3u8][ext=mp4]"; "best[protocol!*=m3u8]"; "best" ] /\
  (forall q : string,
      Py.is_ascii q = true ->
      (forall n : string, Py.isdigit n = true -> q <> (n ++ "p")%string) ->
      fallback_format_for_quality (Some q) =
      Py.join "/" [ "best[protocol!*=m3u8][ext=mp4]"; "best[protocol!*=m3u8]"; "best" ]) /\
  (forall q : string,
      Py.endswith q "p" = false ->
      fallback_format_for_quality (Some q) =
      Py.join "/" [ "best[protocol!*=m3u8][ext=mp4]"; "best[protocol!*=m3u8]"; "best" ]).
Proof.
  split; [|split; [reflexivity | split; [reflexivity | split]]].
  - intros n Hn. unfold fallback_format_for_quality.
    assert (Ht : Py.truthy (Some (n ++ "p")%string) = true).
    { destruct n; [discriminate | reflexivity]. }
    rewrite Ht. cbn [negb orb Py.text_of].
    rewrite (digits_not_best n Hn), endswith_app_p, drop_last_app_p, Hn.
    cbn [andb]. unfold capped_fallback. cbn [Py.join].
    rewrite !append_assoc. reflexivity.
  - intros q _ Hq. unfold fallback_format_for_quality.
    destruct (negb (Py.truthy (Some q)) || String.eqb (Py.text_of (Some q)) "best");
      [reflexivity|].
    cbn [Py.text_of].
    destruct (Py.endswith q "p") eqn:He; [|reflexivity].
    destruct (Py.isdigit (Py.drop_last q)) eqn:Hd; [|reflexivity].
    exfalso. exact (Hq _ Hd (endswith_p_elim _ He)).
  - intros q He. unfold fallback_format_for_quality.
    destruct (negb (Py.truthy (Some q)) || String.eqb (Py.text_of (Some q)) "best");
      [reflexivity|].
    cbn [Py.text_of]. rewrite He. reflexivity.
Qed.

(** ** Rebuilding a command with a player client *)

(** What the loop of [with_player_client] computes from a list of tokens
    still to read, with [skip_next] unset and set. *)
Lemma player_client_loop (cmd : list string) :
  (forall rebuilt,
      exists kept skip,
        fold_left player_client_step cmd (rebuilt, false) =
          (rebuilt ++ kept, skip) /\
        without_extractor_args cmd kept /\
        ~ In "--extractor-args"%string kept) /\
  (forall rebuilt,
      exists kept skip,
        fold_left player_client_step cmd (rebuilt, true) =
          (rebuilt ++ kept, skip) /\
        without_extractor_args ("--extractor-args"%string :: cmd) kept /\
        ~ In "--extractor-args"%string kept).
Proof.
  induction cmd as [|token rest [IHf IHt]]; split; intro rebuilt.
  - exists [], false. rewrite app_nil_r. repeat split; [constructor | intros []].
  - exists [], true. rewrite app_nil_r. repeat split; [constructor | intros []].
  - cbn [fold_left player_client_step].
    destruct (String.eqb_spec token "--extractor-args") as [->|Hne].
    + exact (IHt rebuilt).
    + destruct (IHf (rebuilt ++ [token])) as (kept & skip & E & Hw & Hn).
      exists (token :: kept), skip. rewrite E, <- app_assoc.
      repeat split; [now constructor|].
      intros [H|H]; [congruence | exact (Hn H)].
  - cbn [fold_left player_client_step].
    destruct (IHf rebuilt) as (kept & skip & E & Hw & Hn).
    exists kept, skip. repeat split; [exact E | now constructor | exact Hn].
Qed.

Lemma without_extractor_args_order (cmd kept : list string) :
  without_extractor_args cmd kept ->
  exists keep : list bool,
    length keep = length cmd /\
    kept = map snd (filter fst (combine keep cmd)).
Proof.
  induction 1 as [| |value rest kept _ (keep & Hl & ->)
                  |token rest kept _ _ (keep & Hl & ->)].
  - exists []. split; reflexivity.
  - exists [false]. split; reflexivity.
  - exists (false :: false :: keep). split; [simpl; now rewrite Hl | reflexivity].
  - exists (true :: keep). split; [simpl; now rewrite Hl | reflexivity].
Qed.

(** C10: [with_player_client] drops every "--extractor-args" token with the
    token that follows it, keeps the other tokens in their order, and adds
    one pair for the requested client at the end, so that the result
    carries exactly one "--extractor-args" token, the one added. *)
Theorem with_player_client_spec (cmd : list string) (client : string) :
  exists kept : list string,
    with_player_client cmd client =
      kept ++ ["--extractor-args"%string;
               ("youtube:player_client=" ++ client)%string] /\
    without_extractor_args cmd kept /\
    ~ In "--extractor-args"%string kept /\
    count_occ string_dec (with_player_client cmd client)
      "--extractor-args"%string = 1.
Proof.
  destruct (player_client_loop cmd) as [Hf _].
  destruct (Hf []) as (kept & skip & E & Hw & Hn).
  exists kept. unfold with_player_client. rewrite E. cbn [app].
  repeat split; try assumption.
  rewrite count_occ_app, (proj1 (count_occ_not_In string_dec _ _) Hn).
  reflexivity.
Qed.

(** ** Programs and their behaviours *)

Lemma exec_bind {A B : Type} (p : Prog A) (f : A -> Prog B)
      (t : Trace) (b : B) :
  exec (bind p f) t b <->
  exists a t1 t2, exec p t1 a /\ exec (f a) t2 b /\ t = t1 ++ t2.
Proof.
  revert t. induction p as [a|X e k IH]; intro t; simpl.
  - split.
    + intro H. exists a, [], t. auto.
    + intros (a' & t1 & t2 & [-> ->] & H & ->). exact H.
  - split.
    + intros (x & t' & -> & H). apply IH in H.
      destruct H as (a & t1 & t2 & H1 & H2 & ->).
      exists a, (Saw e x :: t1), t2. split; [exists x, t1; auto | auto].
    + intros (a & t1 & t2 & (x & t' & -> & H1) & H2 & ->).
      exists x, (t' ++ t2). split; [reflexivity|]. apply IH.
      exists a, t', t2. auto.
Qed.

Lemma exec_and_then {A B : Type} (p : Flow A) (k : A -> Flow B)
      (t : Trace) (r : Z + B) :
  exec (and_then p k) t r <->
  (exists code, exec p t (inl code) /\ r = inl code) \/
  (exists a t1 t2, exec p t1 (inr a) /\ exec (k a) t2 r /\ t = t1 ++ t2).
Proof.
  unfold and_then. rewrite exec_bind. split.
  - intros ([code|a] & t1 & t2 & H1 & H2 & ->).
    + destruct H2 as [-> ->]. rewrite app_nil_r. left. eauto.
    + right. eauto 6.
  - intros [(code & H & ->)|(a & t1 & t2 & H1 & H2 & ->)].
    + exists (inl code), t, []. rewrite app_nil_r. repeat split; auto.
    + exists (inr a), t1, t2. auto.
Qed.

(** Every run is a behaviour. *)
Lemma run_exec {W A : Type} (h : Handler W) (p : Prog A) (w : W) :
  exec p (snd (run h p w)) (fst (fst (run h p w))).
Proof.
  revert w. induction p as [a|X e k IH]; intro w; simpl; [auto|].
  destruct (h X e w) as [x w1]. specialize (IH x w1).
  destruct (run h (k x) w1) as [[a w2] t]. simpl in *. eauto.
Qed.

Lemma run_bind {W A B : Type} (h : Handler W) (p : Prog A) (f : A -> Prog B)
      (w : W) :
  run h (bind p f) w =
  let '(a, w1, t1) := run h p w in
  let '(b, w2, t2) := run h (f a) w1 in
  (b, w2, t1 ++ t2).
Proof.
  revert w. induction p as [a|X e k IH]; intro w; simpl.
  - destruct (run h (f a) w) as [[b w2] t2]. reflexivity.
  - destruct (h X e w) as [x w1]. rewrite IH.
    destruct (run h (k x) w1) as [[a w2] t1].
    destruct (run h (f a) w2) as [[b w3] t2]. reflexivity.
Qed.

(** An invocation is the checks followed, when they pass, by the session
    they set up. *)
Lemma download_video_run {W : Type} (h : Handler W) (w : W) (a : Args) :
  run h (download_video a) w =
  let '(r, w1, t0) := run h (prepare a) w in
  match r with
  | inl code => (code, w1, t0)
  | inr s =>
      let '(rc, w2, t) := run h (execute s) w1 in
      (rc, w2, t0 ++ t)
  end.
Proof.
  unfold download_video. rewrite run_bind.
  destruct (run h (prepare a) w) as [[[code|s] w1] t0].
  - cbn [run]. now rewrite app_nil_r.
  - destruct (run h (execute s) w1) as [[rc w2] t]. reflexivity.
Qed.

(** ** Reading traces *)

Lemma collect_app {B : Type} (f : Obs -> option B) (t1 t2 : Trace) :
  collect f (t1 ++ t2) = collect f t1 ++ collect f t2.
Proof.
  induction t1 as [|o t1 IH]; simpl; [reflexivity|].
  destruct (f o); simpl; now rewrite IH.
Qed.

Lemma attempts_app (t1 t2 : Trace) :
  attempts (t1 ++ t2) = attempts t1 ++ attempts t2.
Proof. apply collect_app. Qed.

Lemma codes_app (t1 t2 : Trace) : codes (t1 ++ t2) = codes t1 ++ codes t2.
Proof. unfold codes. now rewrite attempts_app, map_app. Qed.

Lemma announced_app (t1 t2 : Trace) :
  announced (t1 ++ t2) = announced t1 ++ announced t2.
Proof. apply collect_app. Qed.

Lemma finalized_app (t1 t2 : Trace) :
  finalized (t1 ++ t2) = finalized t1 + finalized t2.
Proof. unfold finalized. now rewrite collect_app, length_app. Qed.

Lemma all_failed_app (t1 t2 : Trace) :
  all_failed (t1 ++ t2) <-> all_failed t1 /\ all_failed t2.
Proof. unfold all_failed. rewrite codes_app. apply Forall_app. Qed.

Lemma collect_inert {B : Type} (f : Obs -> option B) (t : Trace) :
  (forall o, In o t -> f o = None) -> collect f t = [].
Proof.
  induction t as [|o t IH]; intro H; simpl; [reflexivity|].
  rewrite (H o (or_introl eq_refl)). apply IH. intros o' Ho'. apply H. now right.
Qed.

Lemma inert_attempt (o : Obs) : inert o = true -> attempt_of o = None.
Proof. unfold inert. destruct (attempt_of o); [discriminate | reflexivity]. Qed.

Lemma inert_rule (o : Obs) : inert o = true -> rule_of o = None.
Proof.
  unfold inert. destruct (attempt_of o); [discriminate|].
  destruct (rule_of o); [discriminate | reflexivity].
Qed.

Lemma inert_finalize (o : Obs) : inert o = true -> finalize_of o = None.
Proof.
  unfold inert. destruct (attempt_of o); [discriminate|].
  destruct (rule_of o); [discriminate|].
  destruct (finalize_of o); [discriminate | reflexivity].
Qed.

Lemma echo_inert (o : Obs) : is_echo o = true -> inert o = true.
Proof. destruct o as [X e x]. destruct e; try discriminate. reflexivity. Qed.

(** A stretch of inert entries changes nothing of what is read off. *)
Lemma inert_silent (t : Trace) :
  forallb inert t = true ->
  attempts t = [] /\ codes t = [] /\ announced t = [] /\ finalized t = 0.
Proof.
  intro H. rewrite forallb_forall in H.
  assert (Ha : attempts t = []).
  { apply collect_inert. intros o Ho. apply inert_attempt, H, Ho. }
  unfold codes, finalized, announced. rewrite Ha.
  rewrite !collect_inert; auto; intros o Ho.
  - apply inert_finalize, H, Ho.
  - apply inert_rule, H, Ho.
Qed.

Lemma echoes_inert (t : Trace) :
  forallb is_echo t = true -> forallb inert t = true.
Proof.
  rewrite !forallb_forall. intros H o Ho. apply echo_inert, H, Ho.
Qed.

(** ** The process runner and the retry *)

Lemma exec_run_yt_dlp (c : list string) (h : bool) (t : Trace)
      (r : CompletedProcess) :
  exec (run_yt_dlp c h) t r ->
  exists o echoes,
    t = Saw (Spawn c h) o :: echoes /\
    forallb is_echo echoes = true /\
    r = completed h o.
Proof.
  unfold run_yt_dlp, subprocess_run, when. destruct h; cbn [negb].
  - cbn [bind trigger exec]. intros (o & t' & -> & H). revert H.
    destruct (nonempty _); destruct (nonempty _); cbn [bind trigger exec];
      intro H; exists o;
      repeat match goal with
             | H : exists _, _ |- _ => destruct H as [? H]
             | H : _ /\ _ |- _ => destruct H as [? H]
             end; subst; eexists; repeat split; reflexivity.
  - cbn [bind trigger exec]. intros (o & t' & -> & -> & ->).
    exists o, []. repeat split.
Qed.

Section LadderFacts.

Variable s : Session.

Lemma exec_retry (c : list string) (t : Trace) (r : Z + CompletedProcess) :
  exec (retry s c) t r ->
  exists before o echoes,
    forallb is_echo echoes = true /\
    ((exit_code o = 0%Z /\ r = inl 0%Z /\
      t = Saw (ListFiles (output_root s)) before ::
          Saw (PrintMsg (msg_executing c)) tt ::
          Saw (Spawn c (hide_cookie_logs s)) o ::
          echoes ++ [Saw (FinalizeDownload (output_root s)
                            (audio_only (params s)) before) tt]) \/
     (exit_code o <> 0%Z /\ r = inr (completed (hide_cookie_logs s) o) /\
      t = Saw (ListFiles (output_root s)) before ::
          Saw (PrintMsg (msg_executing c)) tt ::
          Saw (Spawn c (hide_cookie_logs s)) o :: echoes)).
Proof.
  unfold retry. cbn [bind trigger print exec].
  intros (before & t1 & -> & [] & t2 & -> & H).
  apply exec_bind in H. destruct H as (res & ta & tb & Hr & H & ->).
  apply exec_run_yt_dlp in Hr. destruct Hr as (o & echoes & -> & He & ->).
  exists before, o, echoes. split; [exact He|].
  assert (Hrc : returncode (completed (hide_cookie_logs s) o) = exit_code o).
  { unfold completed. destruct (hide_cookie_logs s); reflexivity. }
  rewrite Hrc in H. destruct (Z.eqb_spec (exit_code o) 0) as [E|E].
  - left. unfold finalize_download in H. cbn [bind trigger exec Return] in H.
    destruct H as ([] & t' & -> & -> & ->). repeat split; auto.
  - right. cbn [Next exec] in H. destruct H as [-> ->].
    rewrite app_nil_r. repeat split; auto.
Qed.

End LadderFacts.

(** ** Composing stretches of the ladder *)

Lemma last_cons_default {A : Type} (l : list A) (a d d' : A) :
  last (a :: l) d = last (a :: l) d'.
Proof.
  revert a. induction l as [|b l IH]; intro a; [reflexivity|].
  change (last (b :: l) d = last (b :: l) d'). apply IH.
Qed.

Lemma last_app_default {A : Type} (l1 l2 : list A) (d : A) :
  last (l1 ++ l2) d = last l2 (last l1 d).
Proof.
  revert d. induction l1 as [|x l1 IH]; intro d; [reflexivity|].
  destruct l1 as [|y l1].
  - destruct l2 as [|z l2]; [reflexivity|].
    change (last (z :: l2) d = last (z :: l2) x). apply last_cons_default.
  - change (last ((y :: l1) ++ l2) d = last l2 (last (y :: l1) d)).
    apply IH.
Qed.

Lemma well_announced_nil (lo hi : nat) (t : Trace) :
  announced t = [] -> well_announced lo hi t.
Proof. intros E. unfold well_announced. rewrite E. split; constructor. Qed.

Lemma well_announced_one (lo hi k : nat) (t : Trace) :
  announced t = [k] -> lo < k <= hi -> well_announced lo hi t.
Proof.
  intros E H. unfold well_announced. rewrite E.
  split; repeat constructor; lia.
Qed.

Lemma well_announced_weaken (lo hi lo' hi' : nat) (t : Trace) :
  well_announced lo hi t -> lo' <= lo -> hi <= hi' -> well_announced lo' hi' t.
Proof.
  intros [Hs Hf] Hlo Hhi. split; [exact Hs|].
  eapply Forall_impl; [|exact Hf]. simpl. intros k Hk. lia.
Qed.

Lemma well_announced_app (lo mid hi : nat) (t1 t2 : Trace) :
  well_announced lo mid t1 -> well_announced mid hi t2 -> lo <= mid <= hi ->
  well_announced lo hi (t1 ++ t2).
Proof.
  intros [Hs1 Hf1] [Hs2 Hf2] Hb. unfold well_announced.
  rewrite announced_app. split.
  - induction Hs1 as [|k l Hs1 IH Hk]; [exact Hs2|].
    simpl. constructor.
    + apply IH. now inversion Hf1.
    + apply Forall_app. split; [exact Hk|].
      inversion Hf1 as [|? ? Hk1 _]; subst.
      eapply Forall_impl; [|exact Hf2]. simpl. intros j Hj. lia.
  - apply Forall_app. split.
    + eapply Forall_impl; [|exact Hf1]. simpl. intros k Hk. lia.
    + eapply Forall_impl; [|exact Hf2]. simpl. intros k Hk. lia.
Qed.

Section Blocks.

Variable s : Session.

Lemma succeeded_prefix (t0 t : Trace) :
  all_failed t0 -> finalized t0 = 0 -> succeeded s t -> succeeded s (t0 ++ t).
Proof.
  intros Hf Hz (t1 & c & o & echoes & before & -> & Ho & Hf1 & Hz1 & He).
  exists (t0 ++ t1), c, o, echoes, before.
  rewrite <- app_assoc. repeat split; auto.
  - apply all_failed_app. auto.
  - rewrite finalized_app. lia.
Qed.

Lemma block_ok_skip (lo hi : nat) (st : State) :
  block_ok s lo hi (result st) [] (inr st).
Proof.
  repeat split; try constructor; auto.
Qed.

Lemma block_ok_weaken (lo hi lo' hi' : nat) (res : CompletedProcess)
      (t : Trace) (r : Z + State) :
  block_ok s lo hi res t r -> lo' <= lo -> hi <= hi' ->
  block_ok s lo' hi' res t r.
Proof.
  intros (Hw & Hl & Hr) Hlo Hhi.
  split; [eapply well_announced_weaken; eauto|]. split; assumption.
Qed.

Lemma block_ok_seq (lo mid hi : nat) (res : CompletedProcess)
      (t1 t2 : Trace) (st1 : State) (r : Z + State) :
  lo <= mid <= hi ->
  block_ok s lo mid res t1 (inr st1) ->
  block_ok s mid hi (result st1) t2 r ->
  block_ok s lo hi res (t1 ++ t2) r.
Proof.
  intros Hb (Hw1 & Hl1 & Hf1 & Hz1 & Hc1 & Hr1) (Hw2 & Hl2 & H2).
  split; [eapply well_announced_app; eauto|].
  split; [rewrite codes_app, announced_app, !length_app; lia|].
  rewrite codes_app, last_app_default, <- Hc1.
  destruct r as [code|st2].
  - destruct H2 as (Hc2 & H2). split; [exact Hc2|].
    destruct H2 as [[Hf2 Hz2]|Hs].
    + left. split; [apply all_failed_app; auto|].
      rewrite finalized_app. lia.
    + right. now apply succeeded_prefix.
  - destruct H2 as (Hf2 & Hz2 & Hc2 & Hr2).
    split; [apply all_failed_app; auto|].
    split; [rewrite finalized_app; lia|].
    split; [exact Hc2 | auto].
Qed.

End Blocks.

(** ** The rules, one by one *)

Lemma echoes_collect (echoes : Trace) :
  forallb is_echo echoes = true ->
  collect attempt_of echoes = [] /\ collect rule_of echoes = [] /\
  collect finalize_of echoes = [].
Proof.
  intro H. apply echoes_inert in H. rewrite forallb_forall in H.
  repeat split; apply collect_inert; intros o Ho.
  - apply inert_attempt, H, Ho.
  - apply inert_rule, H, Ho.
  - apply inert_finalize, H, Ho.
Qed.

Lemma message_executing (c : list string) :
  rule_of_message ladder_messages (msg_executing c) = None.
Proof. reflexivity. Qed.

Lemma message_failed (code : Z) :
  rule_of_message ladder_messages (msg_failed code) = None.
Proof. reflexivity. Qed.

Lemma message_restart : rule_of_message ladder_messages msg_restart = Some 1.
Proof. reflexivity. Qed.

Lemma message_still_failing :
  rule_of_message ladder_messages msg_still_failing = Some 2.
Proof. reflexivity. Qed.

Lemma message_wpc_pending :
  rule_of_message ladder_messages msg_wpc_pending = Some 3.
Proof. reflexivity. Qed.

Lemma message_wpc_switch :
  rule_of_message ladder_messages msg_wpc_switch = Some 4.
Proof. reflexivity. Qed.

Lemma message_web_safari :
  rule_of_message ladder_messages msg_web_safari = Some 5.
Proof. reflexivity. Qed.

Lemma message_fallback :
  rule_of_message ladder_messages msg_fallback = Some 6.
Proof. reflexivity. Qed.

Create Rewrite HintDb messages.
#[local] Hint Rewrite message_executing message_failed message_restart
  message_still_failing message_wpc_pending message_wpc_switch
  message_web_safari message_fallback : messages.

Lemma returncode_completed (h : bool) (o : ProcOutcome) :
  returncode (completed h o) = exit_code o.
Proof. destruct h; reflexivity. Qed.

(** Reads a trace made of explicit entries and stretches of echoes. *)
Ltac read_trace :=
  unfold codes, finalized, announced, attempts in *;
  repeat match goal with
         | H : forallb is_echo ?e = true |- _ =>
             let Ha := fresh "Ha" in
             let Hr := fresh "Hr" in
             let Hf := fresh "Hf" in
             destruct (echoes_collect e H) as (Ha & Hr & Hf); clear H
         end;
  repeat (rewrite ?collect_app;
          cbn [collect attempt_of rule_of finalize_of map length app snd];
          autorewrite with messages;
          repeat match goal with
                 | H : collect _ _ = [] |- _ => rewrite H
                 end).

Section Rules.

Variable s : Session.

(** What a retry leaves in the trace: no announcement, one attempt, and
    the finalizer exactly when the attempt succeeded. *)
Lemma retry_reads (c : list string) (t : Trace) (r : Z + CompletedProcess) :
  exec (retry s c) t r ->
  announced t = [] /\
  exists o,
    attempts t = [(c, hide_cookie_logs s, o)] /\
    ((exit_code o = 0%Z /\ r = inl 0%Z /\ succeeded s t) \/
     (exit_code o <> 0%Z /\ r = inr (completed (hide_cookie_logs s) o) /\
      finalized t = 0)).
Proof.
  intro H. apply exec_retry in H.
  destruct H as (before & o & echoes & He & [(E & -> & ->)|(E & -> & ->)]).
  - split; [read_trace; reflexivity|]. exists o.
    split; [read_trace; reflexivity|]. left. repeat split; auto.
    exists [Saw (ListFiles (output_root s)) before;
            Saw (PrintMsg (msg_executing c)) tt], c, o, echoes, before.
    repeat split; auto. constructor.
  - split; [read_trace; reflexivity|]. exists o.
    split; [read_trace; reflexivity|]. right. repeat split; auto.
    read_trace. reflexivity.
Qed.

(** A rule that announces itself as number [k], does some inert things
    ([pre]) and then retries. *)
Lemma fired_ok (lo hi k : nat) (msg : string) (pre t : Trace)
      (c : list string) (res : CompletedProcess)
      (r : Z + CompletedProcess) (retried : bool) :
  rule_of_message ladder_messages msg = Some k -> lo < k <= hi ->
  forallb inert pre = true ->
  exec (retry s c) t r ->
  block_ok s lo hi res (Saw (PrintMsg msg) tt :: pre ++ t)
    match r with
    | inl code => inl code
    | inr rr => inr (mkState rr retried)
    end.
Proof.
  intros Hk Hb Hpre Hr. apply retry_reads in Hr.
  destruct Hr as (Ha & o & Ht & Hr).
  apply inert_silent in Hpre. destruct Hpre as (Pa & Pc & Pn & Pf).
  assert (Hc : codes t = [exit_code o]) by (unfold codes; now rewrite Ht).
  change (Saw (PrintMsg msg) tt :: pre ++ t)
    with ([Saw (PrintMsg msg) tt] ++ pre ++ t).
  assert (Ea : announced ([Saw (PrintMsg msg) tt] ++ pre ++ t) = [k]).
  { rewrite !announced_app, Pn, Ha. unfold announced. cbn [collect rule_of app]. now rewrite Hk. }
  assert (Ec : codes ([Saw (PrintMsg msg) tt] ++ pre ++ t) = [exit_code o]).
  { rewrite !codes_app, Pc, Hc. reflexivity. }
  split; [eapply well_announced_one; eauto|].
  split; [rewrite Ea, Ec; simpl; lia|].
  rewrite Ec. destruct Hr as [(E & -> & Hs)|(E & -> & Hz)].
  - split; [simpl; congruence|]. right.
    apply succeeded_prefix; [constructor | reflexivity|].
    apply succeeded_prefix; [|exact Pf | exact Hs].
    unfold all_failed. rewrite Pc. constructor.
  - cbn [result]. split.
    { apply all_failed_app. split; [constructor|].
      apply all_failed_app. unfold all_failed. rewrite Pc, Hc.
      split; repeat constructor. exact E. }
    split.
    { rewrite !finalized_app, Pf, Hz. reflexivity. }
    split; [apply returncode_completed|].
    intros _. exists o. reflexivity.
Qed.

(** A rule that announces itself as number [k], does some inert things and
    gives up without retrying. *)
Lemma announced_only_ok (lo hi k : nat) (msg : string) (pre : Trace)
      (st : State) :
  rule_of_message ladder_messages msg = Some k -> lo < k <= hi ->
  forallb inert pre = true ->
  block_ok s lo hi (result st) (Saw (PrintMsg msg) tt :: pre) (inr st).
Proof.
  intros Hk Hb Hpre.
  apply inert_silent in Hpre. destruct Hpre as (Pa & Pc & Pn & Pf).
  change (Saw (PrintMsg msg) tt :: pre) with ([Saw (PrintMsg msg) tt] ++ pre).
  assert (Ea : announced ([Saw (PrintMsg msg) tt] ++ pre) = [k]).
  { rewrite !announced_app, Pn. unfold announced. cbn [collect rule_of app]. now rewrite Hk. }
  assert (Ec : codes ([Saw (PrintMsg msg) tt] ++ pre) = []).
  { rewrite !codes_app, Pc. reflexivity. }
  split; [eapply well_announced_one; eauto|].
  split; [rewrite Ea, Ec; simpl; lia|].
  split; [unfold all_failed; rewrite Ec; constructor|].
  split; [rewrite finalized_app, Pf; reflexivity|].
  split; [rewrite Ec; reflexivity | auto].
Qed.

End Rules.

Section RuleBlocks.

Variable s : Session.

Lemma inert_ok (lo hi : nat) (pre : Trace) (st : State) :
  forallb inert pre = true ->
  block_ok s lo hi (result st) pre (inr st).
Proof.
  intro Hpre. apply inert_silent in Hpre. destruct Hpre as (Pa & Pc & Pn & Pf).
  split; [now apply well_announced_nil|].
  split; [rewrite Pc, Pn; reflexivity|].
  split; [unfold all_failed; rewrite Pc; constructor|].
  split; [exact Pf|]. split; [rewrite Pc; reflexivity | auto].
Qed.

Lemma gave_up_ok (lo hi : nat) (pre : Trace) (st : State) :
  forallb inert pre = true ->
  block_ok s lo hi (result st) pre (inl (returncode (result st))).
Proof.
  intro Hpre. apply inert_silent in Hpre. destruct Hpre as (Pa & Pc & Pn & Pf).
  split; [now apply well_announced_nil|].
  split; [rewrite Pc, Pn; reflexivity|].
  split; [rewrite Pc; reflexivity|]. left.
  split; [unfold all_failed; rewrite Pc; constructor | exact Pf].
Qed.

(** Splits the behaviour of [x <-- retry c ;; Next (f x)]. *)
Lemma exec_retry_next (c : list string) (retried : bool) (t : Trace)
      (r : Z + State) :
  exec (retry_result <-- retry s c ;; Next (mkState retry_result retried)) t r ->
  exists r', exec (retry s c) t r' /\
             r = match r' with
                 | inl code => inl code
                 | inr rr => inr (mkState rr retried)
                 end.
Proof.
  intro H. apply exec_and_then in H.
  destruct H as [(code & H & ->)|(rr & ta & tb & H & [-> ->] & ->)].
  - exists (inl code). auto.
  - rewrite app_nil_r. exists (inr rr). auto.
Qed.

Lemma restart_and_retry_ok (st : State) (t : Trace) (r : Z + State) :
  exec (restart_and_retry s st) t r -> block_ok s 0 1 (result st) t r.
Proof.
  unfold restart_and_retry. cbn [bind print trigger exec].
  intros ([] & t1 & -> & restarted & t2 & -> & H). destruct restarted.
  - apply exec_retry_next in H. destruct H as (r' & H & ->).
    apply (fired_ok s 0 1 1 msg_restart
             [Saw (RestartPoTokenProvider (proxy_value s) (no_proxy s)) true]
             t2 _ (result st) r' (wpc_retried st)) in H;
      [exact H | reflexivity | lia | reflexivity].
  - destruct H as [-> ->].
    apply (announced_only_ok s 0 1 1 msg_restart
             [Saw (RestartPoTokenProvider (proxy_value s) (no_proxy s)) false]);
      [reflexivity | lia | reflexivity].
Qed.

Lemma switch_if_still_failing_ok (st : State) (t : Trace) (r : Z + State) :
  exec (switch_if_still_failing s st) t r -> block_ok s 1 2 (result st) t r.
Proof.
  unfold switch_if_still_failing. destruct (has_pot_error (result st)).
  - cbn [bind print trigger exec].
    intros ([] & t1 & -> & ready & t2 & -> & H). destruct ready.
    + apply exec_retry_next in H. destruct H as (r' & H & ->).
      apply (fired_ok s 1 2 2 msg_still_failing
               [Saw (EnsureWpcProvider (proxy_value s)) true]
               t2 _ (result st) r' true) in H;
        [exact H | reflexivity | lia | reflexivity].
    + destruct H as [-> ->].
      apply (announced_only_ok s 1 2 2 msg_still_failing
               [Saw (EnsureWpcProvider (proxy_value s)) false]);
        [reflexivity | lia | reflexivity].
  - intros [-> ->]. apply block_ok_skip.
Qed.

(** Sequencing two stretches of the ladder. *)
Lemma and_then_ok (lo mid hi : nat) (p : Flow State) (k : State -> Flow State)
      (res : CompletedProcess) (t : Trace) (r : Z + State) :
  lo <= mid <= hi ->
  (forall t1 r1, exec p t1 r1 -> block_ok s lo mid res t1 r1) ->
  (forall st1 t2 r2, exec (k st1) t2 r2 -> block_ok s mid hi (result st1) t2 r2) ->
  exec (and_then p k) t r -> block_ok s lo hi res t r.
Proof.
  intros Hb Hp Hk H. apply exec_and_then in H.
  destruct H as [(code & H & ->)|(st1 & t1 & t2 & H1 & H2 & ->)].
  - apply Hp in H. eapply block_ok_weaken; eauto; lia.
  - eapply block_ok_seq; eauto.
Qed.

Lemma rule_restart_ok (st : State) (t : Trace) (r : Z + State) :
  exec (rule_restart s st) t r -> block_ok s 0 2 (result st) t r.
Proof.
  unfold rule_restart.
  destruct (use_po_token s && is_str (provider_type s) "bgutil" &&
            has_pot_error (result st)).
  - apply (and_then_ok 0 1 2); [lia | |].
    + intros t1 r1. apply restart_and_retry_ok.
    + intros st1 t2 r2. apply switch_if_still_failing_ok.
  - intros [-> ->]. apply block_ok_skip.
Qed.

Lemma rule_wpc_pending_ok (st : State) (t : Trace) (r : Z + State) :
  exec (rule_wpc_pending s st) t r -> block_ok s 2 3 (result st) t r.
Proof.
  unfold rule_wpc_pending.
  destruct (use_po_token s && has_wpc_error (result st)).
  - cbn [bind print trigger exec].
    intros ([] & t1 & -> & [] & t2 & -> & H).
    apply exec_retry_next in H. destruct H as (r' & H & ->).
    apply (fired_ok s 2 3 3 msg_wpc_pending [Saw (Sleep 3) tt]
             t2 _ (result st) r' true) in H;
      [exact H | reflexivity | lia | reflexivity].
  - intros [-> ->]. apply block_ok_skip.
Qed.

Lemma rule_wpc_switch_ok (st : State) (t : Trace) (r : Z + State) :
  exec (rule_wpc_switch s st) t r -> block_ok s 3 4 (result st) t r.
Proof.
  unfold rule_wpc_switch.
  destruct (use_po_token s && has_pot_error (result st) &&
            negb (wpc_retried st)).
  - cbn [bind print trigger exec].
    intros ([] & t1 & -> & ready & t2 & -> & H). destruct ready.
    + apply exec_retry_next in H. destruct H as (r' & H & ->).
      apply (fired_ok s 3 4 4 msg_wpc_switch
               [Saw (EnsureWpcProvider (proxy_value s)) true]
               t2 _ (result st) r' (wpc_retried st)) in H;
        [exact H | reflexivity | lia | reflexivity].
    + destruct H as [-> ->].
      apply (announced_only_ok s 3 4 4 msg_wpc_switch
               [Saw (EnsureWpcProvider (proxy_value s)) false]);
        [reflexivity | lia | reflexivity].
  - intros [-> ->]. apply block_ok_skip.
Qed.

Lemma rule_web_safari_ok (st : State) (t : Trace) (r : Z + State) :
  exec (rule_web_safari s st) t r -> block_ok s 4 5 (result st) t r.
Proof.
  unfold rule_web_safari.
  destruct (Py.truthy (cookies_from_browser (params s)) &&
            negb (Py.truthy (player_client (params s))) &&
            has_403_error (result st)).
  - cbn [bind print trigger exec]. intros ([] & t1 & -> & H).
    apply exec_retry_next in H. destruct H as (r' & H & ->).
    apply (fired_ok s 4 5 5 msg_web_safari [] t1 _ (result st) r'
             (wpc_retried st)) in H;
      [exact H | reflexivity | lia | reflexivity].
  - intros [-> ->]. apply block_ok_skip.
Qed.

Lemma rule_fallback_ok (st : State) (t : Trace) (r : Z + State) :
  exec (rule_fallback s st) t r -> block_ok s 5 6 (result st) t r.
Proof.
  unfold rule_fallback.
  destruct (negb (audio_only (params s)) && format_from_quality s).
  - cbn [bind print trigger exec]. intros ([] & t1 & -> & H).
    apply exec_and_then in H.
    destruct H as [(code & H & ->)|(rr & ta & tb & H & Hk & ->)].
    + apply (fired_ok s 5 6 6 msg_fallback [] t1 _ (result st) (inl code)
               false) in H;
        [exact H | reflexivity | lia | reflexivity].
    + apply (fired_ok s 5 6 6 msg_fallback [] ta _ (result st) (inr rr)
               false) in H; [| reflexivity | lia | reflexivity].
      cbn [bind print trigger exec Return] in Hk.
      destruct Hk as ([] & t' & -> & -> & ->).
      apply (block_ok_seq s 5 6 6 _ (Saw (PrintMsg msg_fallback) tt :: [] ++ ta)
               _ (mkState rr false)); [lia | exact H|].
      apply (gave_up_ok 6 6 _ (mkState rr false)). reflexivity.
  - intros [-> ->]. apply block_ok_skip.
Qed.

Lemma token_rules_ok (st : State) (t : Trace) (r : Z + State) :
  exec (token_rules s st) t r -> block_ok s 0 4 (result st) t r.
Proof.
  unfold token_rules.
  apply (and_then_ok 0 2 4); [lia | intros t1 r1; apply rule_restart_ok|].
  intros st1 t2 r2.
  apply (and_then_ok 2 3 4); [lia | intros ? ?; apply rule_wpc_pending_ok|].
  intros st2 t3 r3. apply rule_wpc_switch_ok.
Qed.

Lemma ladder_ok (st : State) (t : Trace) (r : Z + State) :
  exec (ladder s st) t r -> block_ok s 0 6 (result st) t r.
Proof.
  unfold ladder.
  apply (and_then_ok 0 4 6); [lia | intros t1 r1; apply token_rules_ok|].
  intros st1 t2 r2.
  apply (and_then_ok 4 5 6); [lia | intros ? ?; apply rule_web_safari_ok|].
  intros st2 t3 r3.
  apply (and_then_ok 5 6 6); [lia | intros ? ?; apply rule_fallback_ok|].
  intros st3 t4 r4. cbn [bind print trigger exec Next].
  intros ([] & t' & -> & -> & ->). apply inert_ok. reflexivity.
Qed.

End RuleBlocks.

(** ** The checks before the download *)

Lemma exec_environ_first (names : list string) (t : Trace)
      (r : option string) :
  exec (environ_first names) t r -> forallb is_environ_get t = true.
Proof.
  revert t. induction names as [|n rest IH]; intro t.
  - intros [-> _]. reflexivity.
  - destruct rest as [|n' rest].
    + cbn [environ_first trigger exec]. intros (x & t' & -> & -> & _).
      reflexivity.
    + change (environ_first (n :: n' :: rest))
        with (v <- trigger (EnvironGet n) ;;
              if Py.truthy v then Ret v else environ_first (n' :: rest)).
      cbn [bind trigger exec]. intros (x & t' & -> & H).
      destruct (Py.truthy x).
      * destruct H as [-> _]. reflexivity.
      * cbn [forallb is_environ_get]. apply IH. exact H.
Qed.

Lemma exec_get_proxy_settings (p : option string) (t : Trace)
      (r : option string * option string) :
  exec (get_proxy_settings p) t r -> forallb is_environ_get t = true.
Proof.
  unfold get_proxy_settings. intro H.
  apply exec_bind in H. destruct H as (proxy & t1 & t2 & H1 & H2 & ->).
  apply exec_bind in H2. destruct H2 as (np & t3 & t4 & H3 & [-> _] & ->).
  rewrite app_nil_r, forallb_app. apply andb_true_iff. split.
  - destruct (Py.truthy p).
    + destruct H1 as [-> _]. reflexivity.
    + eapply exec_environ_first; eauto.
  - eapply exec_environ_first; eauto.
Qed.

Lemma environ_collect (t : Trace) :
  forallb is_environ_get t = true ->
  collect attempt_of t = [] /\ collect rule_of t = [] /\
  collect finalize_of t = [].
Proof.
  intro H. rewrite forallb_forall in H.
  repeat split; apply collect_inert; intros [X e x] Ho;
    specialize (H _ Ho); destruct e; try discriminate; reflexivity.
Qed.

(** One step of the symbolic execution of a behaviour [H : exec p t r]. *)
Ltac exec_step H :=
  first
    [ progress cbn [bind print trigger exec when Return Next] in H
    | match type of H with
      | exists _, _ => let x := fresh "x" in destruct H as [x H]
      | ?t = _ /\ _ => let E := fresh "E" in destruct H as [E H]; subst t
      | exec (bind (get_proxy_settings _) _) _ _ =>
          let pv := fresh "pxy" in
          let np := fresh "npx" in
          let ta := fresh "ta" in
          let tb := fresh "tb" in
          let Hp := fresh "Hproxy" in
          apply exec_bind in H;
          destruct H as ([pv np] & ta & tb & Hp & H & ->);
          apply exec_get_proxy_settings in Hp
      | exec (bind (run_yt_dlp _ _) _) _ _ =>
          let res := fresh "res" in
          let ta := fresh "ta" in
          let tb := fresh "tb" in
          let Hr := fresh "Hrun" in
          apply exec_bind in H;
          destruct H as (res & ta & tb & Hr & H & ->);
          apply exec_run_yt_dlp in Hr;
          destruct Hr as (? & ? & -> & ? & ->)
      | exec (bind (when ?c _) _) _ _ => destruct c eqn:?
      | exec (bind (if ?c then _ else _) _) _ _ => destruct c eqn:?
      | exec (if ?c then _ else _) _ _ => destruct c eqn:?
      end ].

Lemma format_check (fs q : option string) (audio : bool) :
  let q' := if negb (Py.truthy fs) && negb (Py.truthy q) && negb audio
            then Some "best"%string else q in
  Py.truthy fs && Py.truthy q ||
  Py.truthy q && negb (Py.truthy (dict_get QUALITY_PRESETS (Py.text_of q))) = true ->
  Py.truthy fs && Py.truthy q = false ->
  Py.truthy q' &&
  negb (Py.truthy (if Py.truthy q' then dict_get QUALITY_PRESETS (Py.text_of q')
                   else fs)) = true.
Proof.
  intros q' F C. subst q'. rewrite C in F. cbn [orb] in F.
  apply andb_true_iff in F. destruct F as [Eq F].
  rewrite Eq in *. rewrite andb_true_r in C. rewrite C.
  cbn [negb andb]. rewrite Eq. exact F.
Qed.

Lemma environ_runs_nothing (t : Trace) :
  forallb is_environ_get t = true ->
  collect provider_call_of t = [] /\
  forallb (fun o => starts_no_process o || is_provider_setup o) t = true.
Proof.
  intro H. rewrite forallb_forall in H. split.
  - apply collect_inert. intros [X e x] Ho.
    specialize (H _ Ho). destruct e; try discriminate; reflexivity.
  - apply forallb_forall. intros [X e x] Ho.
    specialize (H _ Ho). destruct e; try discriminate; reflexivity.
Qed.

Lemma prepare_facts (a : Args) (t : Trace) (r : Z + Session) :
  exec (prepare a) t r -> prepare_spec a t r.
Proof.
  unfold prepare. cbn [bind trigger exec]. intros (code & rest & -> & H).
  exists code, rest. split; [reflexivity|].
  destruct (Z.eqb_spec code 0) as [E|E]; cbn [negb] in H.
  2: { split; [|split; [|split]; intros; congruence]. intros _.
       cbn [bind print trigger exec Return] in H.
       destruct H as ([] & t1 & -> & [] & t2 & -> & -> & ->). auto. }
  split; [intro; congruence|].
  unfold cookie_conflict, token_backed.
  destruct (Py.truthy (cookies_from_browser a) && Py.truthy (cookies_file a))
    eqn:Hcc.
  { cbn [bind print trigger exec Return] in H.
    destruct H as ([] & t' & -> & -> & ->).
    split; [auto|]. split; [intros; repeat split | intros; congruence]. }
  split; [intros; congruence|]. split.
  - intros _ L I F. rewrite L, I in H. cbn [negb andb]. rewrite I.
    pose proof (format_check (format_spec a) (quality a) (audio_only a) F) as G.
    cbv zeta in G.
    repeat exec_step H; repeat match goal with x : unit |- _ => destruct x end;
      destruct (environ_collect _ Hproxy) as (Ha & _);
      destruct (environ_runs_nothing _ Hproxy) as (Hp & Hq);
      match goal with
      | H : r = inl 2%Z |- _ =>
          split; [exact H|];
          repeat match goal with
                 | Hb : ?c = _ |- context [if ?c then _ else _] => rewrite Hb
                 end;
          split; [unfold attempts; cbn [collect attempt_of];
                  rewrite collect_app, Ha; reflexivity|];
          split; [unfold provider_calls; cbn [collect provider_call_of];
                  rewrite collect_app, Hp; reflexivity|];
          rewrite forallb_app, Hq; reflexivity
      | G : false = false -> false = true |- _ => discriminate (G eq_refl)
      end.
  - intros _ _ Htb. rewrite Htb in H.
    do 6 exec_step H.
    exists ta, pxy, npx, x, x0.
    split; [reflexivity|]. split; [exact Hproxy|].
    intro Hf. rewrite Hf in H. cbn [andb negb] in H.
    cbn [bind print trigger exec Return] in H.
    destruct H as ([] & t' & -> & -> & ->). auto.
Qed.

(** ** The session as a whole *)

Section SessionFacts.

Variable s : Session.

(** The first attempt behaves as a retry of the session's command. *)
Lemma exec_first_attempt (t : Trace) (r : Z + State) :
  exec (first_attempt s) t r ->
  exists r',
    exec (retry s (cmd s)) t r' /\
    r = match r' with
        | inl code => inl code
        | inr rr => inr (mkState rr false)
        end.
Proof.
  unfold first_attempt, retry. cbn [bind trigger print exec].
  intros (before & t1 & -> & [] & t2 & -> & H).
  apply exec_bind in H. destruct H as (res & ta & tb & Hr & H & ->).
  destruct (returncode res =? 0)%Z eqn:E.
  - unfold finalize_download in H. cbn [bind trigger exec Return] in H.
    destruct H as ([] & t' & -> & -> & ->).
    exists (inl 0%Z). split.
    + exists before; eexists. split; [reflexivity|].
      exists tt; eexists. split; [reflexivity|].
      apply exec_bind. exists res, ta; eexists. split; [exact Hr|].
      split; [|reflexivity]. rewrite E.
      unfold finalize_download. cbn [bind trigger exec Return].
      exists tt, []. auto.
    + apply Z.eqb_eq in E. now rewrite E.
  - cbn [Next exec] in H. destruct H as [-> ->].
    exists (inr res). split; [|reflexivity].
    exists before; eexists. split; [reflexivity|].
    exists tt; eexists. split; [reflexivity|].
    apply exec_bind. exists res, ta, []. split; [exact Hr|].
    split; [|reflexivity]. rewrite E. cbn [Next exec]. auto.
Qed.

(** Everything read off a complete session. *)
Lemma execute_summary (t : Trace) (rc : Z) :
  exec (execute s) t rc ->
  well_announced 0 6 t /\
  length (codes t) <= 1 + length (announced t) /\
  codes t <> [] /\
  rc = last (codes t) 0%Z /\
  ((all_failed t /\ finalized t = 0) \/ succeeded s t).
Proof.
  unfold execute. intro H.
  apply exec_bind in H. destruct H as (r & ta & tb & H & Hm & ->).
  apply exec_and_then in H.
  destruct H as [(code & H & ->)|(st0 & t1 & t2 & H1 & H2 & ->)].
  - destruct Hm as [-> ->]. rewrite app_nil_r.
    apply exec_first_attempt in H. destruct H as (r' & H & E).
    apply retry_reads in H. destruct H as (Ha & o & Ht & Hr).
    assert (Hc : codes ta = [exit_code o]) by (unfold codes; now rewrite Ht).
    destruct Hr as [(E0 & -> & Hs)|(E0 & -> & Hz)]; [|discriminate].
    injection E as ->.
    split; [now apply well_announced_nil|].
    split; [rewrite Hc, Ha; simpl; lia|].
    split; [rewrite Hc; discriminate|].
    split; [rewrite Hc; simpl; congruence | right; exact Hs].
  - apply exec_first_attempt in H1. destruct H1 as (r' & H1 & E).
    apply retry_reads in H1. destruct H1 as (Ha & o & Ht & Hr).
    assert (Hc : codes t1 = [exit_code o]) by (unfold codes; now rewrite Ht).
    destruct Hr as [(E0 & -> & Hs)|(E0 & -> & Hz)]; [discriminate|].
    injection E as ->.
    apply ladder_ok in H2.
    destruct H2 as ((Hs2 & Hf2) & Hl & Hr).
    cbn [result] in Hr. rewrite returncode_completed in Hr.
    assert (F1 : all_failed t1).
    { unfold all_failed. rewrite Hc. repeat constructor. exact E0. }
    assert (Et : tb = [] /\
                 rc = last (codes t2) (exit_code o) /\
                 ((all_failed t2 /\ finalized t2 = 0) \/ succeeded s t2)).
    { destruct r as [code|st].
      - destruct Hm as [-> ->]. destruct Hr as (-> & Hr). auto.
      - destruct Hm as [-> ->]. destruct Hr as (F2 & Z2 & -> & _). auto. }
    destruct Et as (-> & -> & Hend). rewrite app_nil_r.
    split.
    { unfold well_announced. rewrite announced_app, Ha. auto. }
    split; [rewrite codes_app, announced_app, Hc, Ha, !length_app; simpl; lia|].
    split; [rewrite codes_app, Hc; discriminate|].
    split; [rewrite codes_app, Hc, last_app_default; reflexivity|].
    destruct Hend as [[F2 Z2]|Hs].
    + left. split; [apply all_failed_app; auto|].
      rewrite finalized_app. lia.
    + right. now apply succeeded_prefix.
Qed.

End SessionFacts.

(** A successful attempt has one place in a trace in which every earlier
    attempt failed and no attempt follows. *)
Lemma success_position (t1 t2 t1' t2' : Trace) (a a' : Obs)
      (c : list string) (capture : bool) (o : ProcOutcome) :
  t1 ++ a :: t2 = t1' ++ a' :: t2' ->
  attempt_of a = Some (c, capture, o) -> exit_code o = 0%Z ->
  all_failed t1' -> attempts t2' = [] ->
  t1 = t1' /\ a = a' /\ t2 = t2'.
Proof.
  intros E Ha Ho. revert t1' E.
  induction t1 as [|x t1 IH]; intros [|x' t1'] E Hf He.
  - injection E as -> ->. auto.
  - exfalso. injection E as <- _.
    unfold all_failed, codes, attempts in Hf. cbn [collect] in Hf.
    rewrite Ha in Hf. cbn [map snd] in Hf. inversion Hf; congruence.
  - exfalso. injection E as _ <-.
    unfold attempts in He. rewrite collect_app in He. cbn [collect] in He.
    rewrite Ha in He. destruct (collect attempt_of t1); discriminate.
  - injection E as <- E.
    change (x :: t1') with ([x] ++ t1') in Hf.
    apply all_failed_app in Hf. destruct Hf as [_ Hf].
    destruct (IH t1' E Hf He) as (-> & -> & ->). auto.
Qed.

(** C8: in every session, an attempt that exits with code 0 is the last
    thing the ladder does: every earlier attempt failed, only the echoed
    output of the child and one call of the result finalizer follow it, the
    finalizer is called once in the whole session, and the session returns
    0. *)
Theorem success_ends_session :
  forall (W : Type) (h : Handler W) (w : W) (s : Session),
    let '(rc, _, t) := run h (execute s) w in
    forall t1 c capture o t2,
      t = t1 ++ Saw (Spawn c capture) o :: t2 ->
      exit_code o = 0%Z ->
      rc = 0%Z /\ finalized t = 1 /\ all_failed t1 /\
      exists echoes before,
        forallb is_echo echoes = true /\
        t2 = echoes ++ [Saw (FinalizeDownload (output_root s)
                               (audio_only (params s)) before) tt].
Proof.
  intros W h w s. pose proof (run_exec h (execute s) w) as H.
  destruct (run h (execute s) w) as [[rc w'] t]. cbn [fst snd] in H.
  apply execute_summary in H. destruct H as (_ & _ & _ & Hrc & Hend).
  intros t1 c capture o t2 Et Ho.
  destruct Hend as [[Hf _]|(t1' & c' & o' & echoes & before & Es & Ho' & Hf' & Hz' & He)].
  - exfalso. rewrite Et in Hf. apply all_failed_app in Hf. destruct Hf as [_ Hf].
    unfold all_failed, codes, attempts in Hf. cbn in Hf.
    inversion Hf; congruence.
  - rewrite Es in Et. symmetry in Et.
    destruct (echoes_collect _ He) as (Ea & Er & Ef).
    apply (success_position _ _ _ _ _ _ c capture o) in Et; auto.
    2: { unfold attempts. rewrite collect_app, Ea. reflexivity. }
    destruct Et as (-> & _ & ->).
    split.
    { rewrite Hrc, Es, codes_app. unfold codes at 2, attempts.
      cbn [collect attempt_of]. rewrite collect_app, Ea. cbn.
      rewrite last_app_default. cbn. congruence. }
    split.
    { rewrite Es, finalized_app, Hz'. unfold finalized.
      cbn [collect finalize_of]. rewrite collect_app, Ef. reflexivity. }
    split; [exact Hf'|]. exists echoes, before. auto.
Qed.

(** ** Firings *)

Lemma firings_nil : firings [].
Proof. exists []. split; [reflexivity | constructor]. Qed.

Lemma firings_app (t1 t2 : Trace) :
  firings t1 -> firings t2 -> firings (t1 ++ t2).
Proof.
  intros (l1 & -> & H1) (l2 & -> & H2). exists (l1 ++ l2).
  split; [now rewrite concat_app | now apply Forall_app].
Qed.

Lemma firing_app_inert (seg tail : Trace) :
  firing seg -> forallb inert tail = true -> firing (seg ++ tail).
Proof.
  destruct seg as [|o rest]; [intros []|]. intros (Ho & Ha & Hl) Ht.
  apply inert_silent in Ht. destruct Ht as (Ta & _ & Tn & _).
  cbn [app firing]. split; [exact Ho|].
  rewrite announced_app, attempts_app, Ha, Tn, Ta, !app_nil_r. auto.
Qed.

(** What follows the last firing without being an attempt or an
    announcement belongs to it. *)
Lemma firings_app_inert (t tail : Trace) :
  firings t -> t <> [] -> forallb inert tail = true -> firings (t ++ tail).
Proof.
  intros (segs & -> & Hs) Hne Ht.
  destruct (exists_last (l := segs)) as (l & seg & ->).
  { intros ->. now apply Hne. }
  apply Forall_app in Hs. destruct Hs as [Hl Hseg].
  exists (l ++ [seg ++ tail]). split.
  - rewrite !concat_app. cbn [concat]. now rewrite !app_nil_r, app_assoc.
  - apply Forall_app. split; [exact Hl|]. constructor; [|constructor].
    apply firing_app_inert; [now inversion Hseg | exact Ht].
Qed.

Section Firings.

Variable s : Session.

(** A rule that announces itself, does some inert things, retries and does
    some more inert things is one firing. *)
Lemma fired_firing (msg : string) (k : nat) (pre post t : Trace)
      (c : list string) (r : Z + CompletedProcess) :
  rule_of_message ladder_messages msg = Some k ->
  forallb inert pre = true -> forallb inert post = true ->
  exec (retry s c) t r ->
  firings (Saw (PrintMsg msg) tt :: pre ++ t ++ post).
Proof.
  intros Hk Hpre Hpost Hr. apply retry_reads in Hr.
  destruct Hr as (Ha & o & Ht & _).
  apply inert_silent in Hpre. destruct Hpre as (Pa & _ & Pn & _).
  apply inert_silent in Hpost. destruct Hpost as (Qa & _ & Qn & _).
  exists [Saw (PrintMsg msg) tt :: pre ++ t ++ post].
  split; [cbn [concat]; now rewrite app_nil_r|].
  constructor; [|constructor]. cbn [firing rule_of].
  split; [rewrite Hk; discriminate|].
  rewrite !announced_app, !attempts_app, Pa, Pn, Qa, Qn, Ha, Ht.
  split; [reflexivity | cbn; lia].
Qed.

Lemma announced_only_firing (msg : string) (k : nat) (pre : Trace) :
  rule_of_message ladder_messages msg = Some k ->
  forallb inert pre = true ->
  firings (Saw (PrintMsg msg) tt :: pre).
Proof.
  intros Hk Hpre.
  apply inert_silent in Hpre. destruct Hpre as (Pa & _ & Pn & _).
  exists [Saw (PrintMsg msg) tt :: pre].
  split; [cbn [concat]; now rewrite app_nil_r|].
  constructor; [|constructor]. cbn [firing rule_of].
  split; [rewrite Hk; discriminate|]. rewrite Pa, Pn. auto.
Qed.

Lemma and_then_firings (p : Flow State) (k : State -> Flow State)
      (t : Trace) (r : Z + State) :
  (forall t1 r1, exec p t1 r1 -> firings t1) ->
  (forall st1 t2 r2, exec (k st1) t2 r2 -> firings t2) ->
  exec (and_then p k) t r -> firings t.
Proof.
  intros Hp Hk H. apply exec_and_then in H.
  destruct H as [(code & H & ->)|(st1 & t1 & t2 & H1 & H2 & ->)].
  - eapply Hp; eauto.
  - apply firings_app; eauto.
Qed.

Lemma restart_and_retry_firings (st : State) (t : Trace) (r : Z + State) :
  exec (restart_and_retry s st) t r -> firings t.
Proof.
  unfold restart_and_retry. cbn [bind print trigger exec].
  intros ([] & t1 & -> & restarted & t2 & -> & H). destruct restarted.
  - apply exec_retry_next in H. destruct H as (r' & H & ->).
    apply (fired_firing msg_restart 1
             [Saw (RestartPoTokenProvider (proxy_value s) (no_proxy s)) true]
             []) in H; [| reflexivity..].
    now rewrite app_nil_r in H.
  - destruct H as [-> ->].
    apply (announced_only_firing msg_restart 1); reflexivity.
Qed.

Lemma switch_if_still_failing_firings (st : State) (t : Trace)
      (r : Z + State) :
  exec (switch_if_still_failing s st) t r -> firings t.
Proof.
  unfold switch_if_still_failing. destruct (has_pot_error (result st)).
  - cbn [bind print trigger exec].
    intros ([] & t1 & -> & ready & t2 & -> & H). destruct ready.
    + apply exec_retry_next in H. destruct H as (r' & H & ->).
      apply (fired_firing msg_still_failing 2
               [Saw (EnsureWpcProvider (proxy_value s)) true] []) in H;
        [| reflexivity..].
      now rewrite app_nil_r in H.
    + destruct H as [-> ->].
      apply (announced_only_firing msg_still_failing 2); reflexivity.
  - intros [-> ->]. apply firings_nil.
Qed.

Lemma rule_restart_firings (st : State) (t : Trace) (r : Z + State) :
  exec (rule_restart s st) t r -> firings t.
Proof.
  unfold rule_restart.
  destruct (use_po_token s && is_str (provider_type s) "bgutil" &&
            has_pot_error (result st)).
  - apply and_then_firings.
    + intros t1 r1. apply restart_and_retry_firings.
    + intros st1 t2 r2. apply switch_if_still_failing_firings.
  - intros [-> ->]. apply firings_nil.
Qed.

Lemma rule_wpc_pending_firings (st : State) (t : Trace) (r : Z + State) :
  exec (rule_wpc_pending s st) t r -> firings t.
Proof.
  unfold rule_wpc_pending.
  destruct (use_po_token s && has_wpc_error (result st)).
  - cbn [bind print trigger exec].
    intros ([] & t1 & -> & [] & t2 & -> & H).
    apply exec_retry_next in H. destruct H as (r' & H & ->).
    apply (fired_firing msg_wpc_pending 3 [Saw (Sleep 3) tt] []) in H;
      [| reflexivity..].
    now rewrite app_nil_r in H.
  - intros [-> ->]. apply firings_nil.
Qed.

Lemma rule_wpc_switch_firings (st : State) (t : Trace) (r : Z + State) :
  exec (rule_wpc_switch s st) t r -> firings t.
Proof.
  unfold rule_wpc_switch.
  destruct (use_po_token s && has_pot_error (result st) &&
            negb (wpc_retried st)).
  - cbn [bind print trigger exec].
    intros ([] & t1 & -> & ready & t2 & -> & H). destruct ready.
    + apply exec_retry_next in H. destruct H as (r' & H & ->).
      apply (fired_firing msg_wpc_switch 4
               [Saw (EnsureWpcProvider (proxy_value s)) true] []) in H;
        [| reflexivity..].
      now rewrite app_nil_r in H.
    + destruct H as [-> ->].
      apply (announced_only_firing msg_wpc_switch 4); reflexivity.
  - intros [-> ->]. apply firings_nil.
Qed.

Lemma rule_web_safari_firings (st : State) (t : Trace) (r : Z + State) :
  exec (rule_web_safari s st) t r -> firings t.
Proof.
  unfold rule_web_safari.
  destruct (Py.truthy (cookies_from_browser (params s)) &&
            negb (Py.truthy (player_client (params s))) &&
            has_403_error (result st)).
  - cbn [bind print trigger exec]. intros ([] & t1 & -> & H).
    apply exec_retry_next in H. destruct H as (r' & H & ->).
    apply (fired_firing msg_web_safari 5 [] []) in H; [| reflexivity..].
    now rewrite app_nil_r in H.
  - intros [-> ->]. apply firings_nil.
Qed.

Lemma rule_fallback_firings (st : State) (t : Trace) (r : Z + State) :
  exec (rule_fallback s st) t r -> firings t.
Proof.
  unfold rule_fallback.
  destruct (negb (audio_only (params s)) && format_from_quality s).
  - cbn [bind print trigger exec]. intros ([] & t1 & -> & H).
    apply exec_and_then in H.
    destruct H as [(code & H & ->)|(rr & ta & tb & H & Hk & ->)].
    + apply (fired_firing msg_fallback 6 [] []) in H; [| reflexivity..].
      now rewrite app_nil_r in H.
    + cbn [bind print trigger exec Return] in Hk.
      destruct Hk as ([] & t' & -> & -> & ->).
      apply (fired_firing msg_fallback 6 []
               [Saw (PrintMsg (msg_failed (returncode rr))) tt]) in H;
        [exact H | reflexivity..].
  - intros [-> ->]. apply firings_nil.
Qed.

Lemma token_rules_firings (st : State) (t : Trace) (r : Z + State) :
  exec (token_rules s st) t r -> firings t.
Proof.
  unfold token_rules.
  apply and_then_firings; [intros t1 r1; apply rule_restart_firings|].
  intros st1 t2 r2.
  apply and_then_firings; [intros ? ?; apply rule_wpc_pending_firings|].
  intros st2 t3 r3. apply rule_wpc_switch_firings.
Qed.

(** The ladder is a sequence of firings, followed by the last message when
    no rule ended the session. *)
Lemma ladder_firings (st : State) (t : Trace) (r : Z + State) :
  exec (ladder s st) t r ->
  exists fired tail,
    t = fired ++ tail /\ firings fired /\ forallb inert tail = true.
Proof.
  unfold ladder. intro H. apply exec_and_then in H.
  destruct H as [(code & H & ->)|(st1 & t1 & t2 & H1 & H2 & ->)].
  { exists t, []. rewrite app_nil_r.
    split; [reflexivity|]. split; [|reflexivity].
    eapply token_rules_firings; eauto. }
  apply token_rules_firings in H1. apply exec_and_then in H2.
  destruct H2 as [(code & H & ->)|(st2 & t3 & t4 & H2 & H3 & ->)].
  { exists (t1 ++ t2), []. rewrite app_nil_r.
    split; [reflexivity|]. split; [|reflexivity].
    apply firings_app; [exact H1|]. eapply rule_web_safari_firings; eauto. }
  apply rule_web_safari_firings in H2. apply exec_and_then in H3.
  destruct H3 as [(code & H & ->)|(st3 & t5 & t6 & H3 & H4 & ->)].
  { exists (t1 ++ t3 ++ t4), []. rewrite app_nil_r.
    split; [reflexivity|]. split; [|reflexivity].
    apply firings_app; [exact H1|]. apply firings_app; [exact H2|].
    eapply rule_fallback_firings; eauto. }
  apply rule_fallback_firings in H3.
  cbn [bind print trigger exec Next] in H4.
  destruct H4 as ([] & t' & -> & -> & ->).
  exists (t1 ++ t3 ++ t5), [Saw (PrintMsg (msg_failed (returncode (result st3)))) tt].
  split; [now rewrite <- !app_assoc|]. split; [|reflexivity].
  apply firings_app; [exact H1|]. now apply firings_app.
Qed.

(** A session is its first attempt followed by firings. *)
Lemma execute_firings (t : Trace) (rc : Z) :
  exec (execute s) t rc ->
  exists first fired,
    t = first ++ fired /\ announced first = [] /\
    length (attempts first) = 1 /\ firings fired.
Proof.
  unfold execute. intro H.
  apply exec_bind in H. destruct H as (r & ta & tb & H & Hm & ->).
  assert (Eb : tb = []) by (destruct r; destruct Hm as [-> _]; reflexivity).
  subst tb. rewrite app_nil_r. clear Hm.
  apply exec_and_then in H.
  destruct H as [(code & H & ->)|(st0 & t1 & t2 & H1 & H2 & ->)].
  - apply exec_first_attempt in H. destruct H as (r' & H & _).
    apply retry_reads in H. destruct H as (Ha & o & Ht & _).
    exists ta, []. rewrite app_nil_r, Ht.
    repeat split; [exact Ha | apply firings_nil].
  - apply exec_first_attempt in H1. destruct H1 as (r' & H1 & _).
    apply retry_reads in H1. destruct H1 as (Ha & o & Ht & _).
    apply ladder_firings in H2.
    destruct H2 as (fired & tail & -> & Hf & Htail).
    destruct fired as [|x fired].
    + exists (t1 ++ tail), []. rewrite app_nil_r.
      apply inert_silent in Htail. destruct Htail as (Ta & _ & Tn & _).
      rewrite announced_app, attempts_app, Ha, Ht, Ta, Tn.
      repeat split. apply firings_nil.
    + exists t1, ((x :: fired) ++ tail). rewrite Ht.
      repeat split; [exact Ha|].
      apply firings_app_inert; [exact Hf | discriminate | exact Htail].
Qed.

End Firings.

(** C1, as the code has it: in every session each rule of the ladder fires
    at most once and the rules that fire do so in the order of the ladder
    (a failed retry does not end the session, later rules may still fire);
    every firing makes at most one retry: the session is its first attempt
    followed by firings, each of them the announcement of a rule followed,
    before the next announcement, by at most one attempt; and the session
    returns the exit code of the last attempt it made, so that a non-zero
    return means that every attempt failed. *)
Theorem ladder_cascade :
  forall (W : Type) (h : Handler W) (w : W) (s : Session),
    let '(rc, _, t) := run h (execute s) w in
    StronglySorted lt (announced t) /\
    Forall (fun k => 1 <= k <= 6) (announced t) /\
    (exists first fired,
        t = first ++ fired /\ announced first = [] /\
        length (attempts first) = 1 /\ firings fired) /\
    length (attempts t) <= 1 + length (announced t) /\
    attempts t <> [] /\
    rc = last (codes t) 0%Z /\
    (rc <> 0%Z -> all_failed t).
Proof.
  intros W h w s. pose proof (run_exec h (execute s) w) as H.
  destruct (run h (execute s) w) as [[rc w'] t]. cbn [fst snd] in H.
  pose proof (execute_firings s t rc H) as Hfired.
  apply execute_summary in H.
  destruct H as ((Hs & Hf) & Hl & Hne & Hrc & Hend).
  split; [exact Hs|]. split; [exact Hf|]. split; [exact Hfired|].
  split; [unfold codes in Hl; now rewrite length_map in Hl|].
  split; [intro E; apply Hne; unfold codes; now rewrite E|].
  split; [exact Hrc|]. intro Hnz.
  destruct Hend as [[Hall _]|(t1 & c & o & echoes & before & Es & Ho & _ & _ & He)];
    [exact Hall|].
  exfalso. apply Hnz. rewrite Hrc, Es, codes_app.
  destruct (echoes_collect _ He) as (Ea & _ & _).
  unfold codes at 2, attempts. cbn [collect attempt_of].
  rewrite collect_app, Ea. cbn. rewrite last_app_default. cbn. exact Ho.
Qed.

(** ** Failures no classifier recognises *)

Lemma unclassified_elim (r : CompletedProcess) :
  unclassified r = true ->
  has_403_error r = false /\ has_pot_error r = false /\
  has_wpc_error r = false.
Proof.
  unfold unclassified. intro H.
  apply andb_true_iff in H. destruct H as [H Hw].
  apply andb_true_iff in H. destruct H as [Hf Hp].
  now rewrite !negb_true_iff in *.
Qed.

Section Unclassified.

Variable s : Session.

Lemma classified_rules_skip (st : State) :
  unclassified (result st) = true ->
  rule_restart s st = Next st /\ rule_wpc_pending s st = Next st /\
  rule_wpc_switch s st = Next st /\ rule_web_safari s st = Next st.
Proof.
  intro H. apply unclassified_elim in H. destruct H as (Hf & Hp & Hw).
  unfold rule_restart, rule_wpc_pending, rule_wpc_switch, rule_web_safari.
  rewrite Hf, Hp, Hw, !andb_false_r. cbn [andb]. auto.
Qed.

Lemma ladder_unclassified (st : State) :
  unclassified (result st) = true ->
  ladder s st =
  (st' <-- rule_fallback s st ;;
   print (msg_failed (returncode (result st'))) ;;
   Next st').
Proof.
  intro H. destruct (classified_rules_skip st H) as (E1 & E2 & E3 & E4).
  unfold ladder, token_rules. rewrite E1.
  cbn [and_then Next Return bind]. rewrite E2.
  cbn [and_then Next Return bind]. rewrite E3.
  cbn [and_then Next Return bind]. rewrite E4.
  reflexivity.
Qed.

Lemma execute_unclassified (t : Trace) (rc : Z) (c : list string)
      (capture : bool) (o : ProcOutcome)
      (rest : list (list string * bool * ProcOutcome)) :
  exec (execute s) t rc ->
  attempts t = (c, capture, o) :: rest ->
  exit_code o <> 0%Z ->
  unclassified (completed capture o) = true ->
  if negb (audio_only (params s)) && format_from_quality s
  then announced t = [6] /\
       exists o', rest = [(fallback_cmd s, hide_cookie_logs s, o')]
  else announced t = [] /\ rest = [] /\ rc = exit_code o.
Proof.
  unfold execute. intros H Ha Ho Hu.
  apply exec_bind in H. destruct H as (r & ta & tb & H & Hm & ->).
  apply exec_and_then in H.
  destruct H as [(code & H & ->)|(st0 & t1 & t2 & H1 & H2 & ->)].
  - exfalso. apply exec_first_attempt in H. destruct H as (r' & H & E).
    apply retry_reads in H. destruct H as (_ & o0 & Ht & Hr).
    destruct Hm as [-> _]. rewrite app_nil_r, Ht in Ha.
    inversion Ha; subst.
    destruct Hr as [(E0 & _)|(_ & -> & _)]; [congruence | discriminate].
  - apply exec_first_attempt in H1. destruct H1 as (r' & H1 & E).
    apply retry_reads in H1. destruct H1 as (An & o0 & Ht & Hr).
    destruct Hr as [(_ & -> & _)|(_ & -> & _)]; [discriminate|].
    injection E as ->.
    rewrite !attempts_app, Ht in Ha. cbn [app] in Ha.
    inversion Ha as [[Ec Ecap Eo Hrest]]. subst c capture o0. clear Ha.
    rewrite ladder_unclassified in H2 by exact Hu.
    unfold rule_fallback in H2.
    destruct (negb (audio_only (params s)) && format_from_quality s).
    + apply exec_and_then in H2.
      assert (Hfb : exists tf r1 tg,
                 exec (retry s (fallback_cmd s)) tf r1 /\
                 t2 = Saw (PrintMsg msg_fallback) tt :: tf ++ tg /\
                 forallb inert tg = true /\
                 (forall st, r = inr st -> False)).
      { destruct H2 as [(code & H2 & ->)|(st1 & t3 & t4 & H2 & _ & _)].
        - cbn [bind print trigger exec] in H2.
          destruct H2 as ([] & t' & -> & H2).
          apply exec_and_then in H2.
          destruct H2 as [(code' & H2 & E)|(rr & t5 & t6 & H2 & H3 & ->)].
          + exists t', (inl code'), []. rewrite app_nil_r.
            repeat split; auto. intros st E'. discriminate.
          + cbn [bind print trigger exec Return] in H3.
            destruct H3 as ([] & t'' & -> & -> & E).
            exists t5, (inr rr), [Saw (PrintMsg (msg_failed (returncode rr))) tt].
            repeat split; auto. intros st E'. discriminate.
        - exfalso. cbn [bind print trigger exec] in H2.
          destruct H2 as ([] & t' & -> & H2).
          apply exec_and_then in H2.
          destruct H2 as [(code' & _ & E)|(rr & t5 & t6 & _ & H3 & _)];
            [discriminate|].
          cbn [bind print trigger exec Return] in H3.
          destruct H3 as ([] & t'' & _ & _ & E). discriminate. }
      destruct Hfb as (tf & r1 & tg & Hf & -> & Hg & _).
      apply retry_reads in Hf. destruct Hf as (Af & o' & Atf & _).
      apply inert_silent in Hg. destruct Hg as (Ag & _ & Ng & _).
      assert (Eb : tb = []) by (destruct r; destruct Hm as [-> _]; reflexivity).
      subst tb. rewrite app_nil_r in *. split.
      * rewrite announced_app, An.
        change (Saw (PrintMsg msg_fallback) tt :: tf ++ tg)
          with ([Saw (PrintMsg msg_fallback) tt] ++ tf ++ tg).
        rewrite !announced_app, Af, Ng. reflexivity.
      * exists o'.
        change (Saw (PrintMsg msg_fallback) tt :: tf ++ tg)
          with ([Saw (PrintMsg msg_fallback) tt] ++ tf ++ tg).
        rewrite !attempts_app, Atf, Ag. reflexivity.
    + cbn [and_then Next Return bind print trigger exec] in H2.
      destruct H2 as ([] & t' & -> & -> & ->).
      destruct Hm as [-> ->]. cbn [result].
      rewrite returncode_completed.
      split; [rewrite !announced_app, An; reflexivity|].
      split; reflexivity.
Qed.

(** Without browser cookies the output of the extractor is never captured,
    so no classifier-guarded rule can fire in the session. *)
Lemma uncaptured_session_only_falls_back (t : Trace) (rc : Z) :
  hide_cookie_logs s = false ->
  exec (execute s) t rc ->
  announced t = [] \/ announced t = [6].
Proof.
  intros Hh H. pose proof H as H0. unfold execute in H0.
  apply exec_bind in H0. destruct H0 as (r & ta & tb & H0 & Hm & ->).
  apply exec_and_then in H0.
  destruct H0 as [(code & H0 & ->)|(st0 & t1 & t2 & H1 & H2 & ->)].
  - left. apply exec_first_attempt in H0. destruct H0 as (r' & H0 & E).
    apply retry_reads in H0. destruct H0 as (An & _).
    destruct Hm as [-> _]. now rewrite app_nil_r.
  - apply exec_first_attempt in H1. destruct H1 as (r' & H1 & E).
    apply retry_reads in H1. destruct H1 as (An & o & At & Hr).
    destruct Hr as [(_ & -> & _)|(Ho & -> & _)]; [discriminate|].
    assert (Ha : attempts ((t1 ++ t2) ++ tb) =
                 (cmd s, false, o) :: attempts (t2 ++ tb)).
    { rewrite <- app_assoc, attempts_app, At, Hh. reflexivity. }
    pose proof (execute_unclassified _ _ _ _ _ _ H Ha Ho eq_refl) as Hu.
    destruct (negb (audio_only (params s)) && format_from_quality s).
    + right. apply Hu.
    + left. apply Hu.
Qed.

End Unclassified.

(** ** Every failed attempt that no classifier recognises *)

Lemma app_eq_cons_cases {A : Type} (l1 l2 t1 t2 : list A) (x : A) :
  l1 ++ l2 = t1 ++ x :: t2 ->
  (exists l, l1 = t1 ++ x :: l /\ t2 = l ++ l2) \/
  (exists l, t1 = l1 ++ l /\ l2 = l ++ x :: t2).
Proof.
  intro E. apply app_eq_app in E. destruct E as (l & [[E1 E2]|[E1 E2]]).
  - destruct l as [|y l].
    + right. exists []. rewrite app_nil_r in *. cbn [app] in E2. subst. auto.
    + left. injection E2 as <- ->. exists l. auto.
  - right. exists l. auto.
Qed.

Lemma attempts_split (t1 t2 : Trace) (c : list string) (capture : bool)
      (o : ProcOutcome) :
  attempts (t1 ++ Saw (Spawn c capture) o :: t2) <> [].
Proof.
  rewrite attempts_app. unfold attempts at 2. cbn [collect attempt_of].
  destruct (attempts t1); discriminate.
Qed.

(** The one attempt of a trace has one place in it. *)
Lemma attempt_position (a b t1 t2 : Trace) (x y : Obs) :
  a ++ x :: b = t1 ++ y :: t2 ->
  attempts a = [] -> attempts b = [] ->
  attempt_of x <> None -> attempt_of y <> None ->
  a = t1 /\ x = y /\ b = t2.
Proof.
  intros E Ha Hb Hx Hy. revert t1 E Ha.
  induction a as [|z a IH]; intros [|z' t1] E Ha.
  - injection E as -> ->. auto.
  - exfalso. injection E as _ ->.
    unfold attempts in Hb. rewrite collect_app in Hb. cbn [collect] in Hb.
    destruct (attempt_of y); [|congruence].
    destruct (collect attempt_of t1); discriminate.
  - exfalso. injection E as -> _.
    unfold attempts in Ha. cbn [collect] in Ha.
    destruct (attempt_of y); [discriminate | congruence].
  - injection E as <- E.
    assert (Ha' : attempts a = []).
    { unfold attempts in *. cbn [collect] in Ha.
      destruct (attempt_of z); [discriminate | exact Ha]. }
    destruct (IH t1 E Ha') as (-> & -> & ->). auto.
Qed.

Lemma bounded_not_fallback (l : list nat) :
  Forall (fun k => k <= 5) l -> existsb (Nat.eqb 6) l = false.
Proof.
  induction 1 as [|k l Hk _ IH]; [reflexivity|]. cbn [existsb].
  rewrite IH. destruct (Nat.eqb_spec 6 k); [lia | reflexivity].
Qed.

Lemma settles_quiet (t : Trace) (r : Z + State) :
  attempts t = [] -> settles t r.
Proof.
  intros Ha t1 c capture o t2 E _ _. exfalso.
  rewrite E in Ha. exact (attempts_split _ _ _ _ _ Ha).
Qed.

Lemma settles_seq (t1 t2 : Trace) (st1 : State) (r : Z + State) :
  settles t1 (inr st1) -> settles t2 r ->
  (unclassified (result st1) = true -> t2 = [] /\ r = inr st1) ->
  settles (t1 ++ t2) r.
Proof.
  intros S1 S2 Hskip a c capture o b E Ho Hu.
  apply app_eq_cons_cases in E. destruct E as [(l & E1 & ->)|(l & -> & E2)].
  - destruct (S1 _ _ _ _ _ E1 Ho Hu) as (An & At & st & Er & Es).
    injection Er as <-. rewrite <- Es in Hu.
    destruct (Hskip Hu) as [-> ->]. rewrite app_nil_r.
    split; [exact An|]. split; [exact At|]. exists st1. auto.
  - exact (S2 _ _ _ _ _ E2 Ho Hu).
Qed.

Lemma and_then_settles (p : Flow State) (k : State -> Flow State)
      (t : Trace) (r : Z + State) :
  (forall t1 r1, exec p t1 r1 -> settles t1 r1) ->
  (forall st t2 r2, exec (k st) t2 r2 -> settles t2 r2) ->
  (forall st, unclassified (result st) = true -> k st = Next st) ->
  exec (and_then p k) t r -> settles t r.
Proof.
  intros Hp Hk Hskip H. apply exec_and_then in H.
  destruct H as [(code & H & ->)|(st1 & t1 & t2 & H1 & H2 & ->)].
  - now apply Hp.
  - apply (settles_seq _ _ st1); [now apply Hp | now apply (Hk st1)|].
    intro Hu. rewrite (Hskip _ Hu) in H2. destruct H2 as [-> ->]. auto.
Qed.

Lemma and_then_bound (Q : nat -> Prop) (p : Flow State)
      (k : State -> Flow State) (t : Trace) (r : Z + State) :
  (forall t1 r1, exec p t1 r1 -> Forall Q (announced t1)) ->
  (forall st t2 r2, exec (k st) t2 r2 -> Forall Q (announced t2)) ->
  exec (and_then p k) t r -> Forall Q (announced t).
Proof.
  intros Hp Hk H. apply exec_and_then in H.
  destruct H as [(code & H & ->)|(st1 & t1 & t2 & H1 & H2 & ->)].
  - eapply Hp; eauto.
  - rewrite announced_app. apply Forall_app. split; eauto.
Qed.

Lemma exec_and_then_assoc {A B C : Type} (p : Flow A) (k1 : A -> Flow B)
      (k2 : B -> Flow C) (t : Trace) (r : Z + C) :
  exec (a <-- p ;; b <-- k1 a ;; k2 b) t r ->
  exec (b <-- (a <-- p ;; k1 a) ;; k2 b) t r.
Proof.
  intro H. apply exec_and_then in H. apply exec_and_then.
  destruct H as [(code & H & ->)|(a & t1 & t2 & H1 & H2 & ->)].
  - left. exists code. split; [|reflexivity].
    apply exec_and_then. left. eauto.
  - apply exec_and_then in H2.
    destruct H2 as [(code & H2 & ->)|(b & t3 & t4 & H2 & H3 & ->)].
    + left. exists code. split; [|reflexivity].
      apply exec_and_then. right. exists a, t1, t2. auto.
    + right. exists b, (t1 ++ t3), t4. split; [|split; [exact H3|]].
      * apply exec_and_then. right. exists a, t1, t3. auto.
      * now rewrite app_assoc.
Qed.

Section Settling.

Variable s : Session.

(** Where the attempt of a retry stands, when it failed. *)
Lemma retry_split (c : list string) (t : Trace) (r : Z + CompletedProcess) :
  exec (retry s c) t r ->
  forall t1 c' capture o t2,
    t = t1 ++ Saw (Spawn c' capture) o :: t2 ->
    exit_code o <> 0%Z ->
    announced t1 = [] /\ attempts t1 = [] /\
    announced t2 = [] /\ attempts t2 = [] /\
    c' = c /\ capture = hide_cookie_logs s /\
    r = inr (completed capture o).
Proof.
  intros H t1 c' capture o t2 E Ho. apply exec_retry in H.
  destruct H as (before & o0 & echoes & He & Hs).
  destruct (echoes_collect _ He) as (Ea & Er & _).
  assert (Hpos : forall tail,
             attempts tail = [] ->
             t = [Saw (ListFiles (output_root s)) before;
                  Saw (PrintMsg (msg_executing c)) tt] ++
                 Saw (Spawn c (hide_cookie_logs s)) o0 :: tail ->
             t1 = [Saw (ListFiles (output_root s)) before;
                   Saw (PrintMsg (msg_executing c)) tt] /\
             (c, hide_cookie_logs s, o0) = (c', capture, o) /\ tail = t2).
  { intros tail Ht Et. rewrite E in Et. symmetry in Et.
    apply attempt_position in Et; try discriminate; auto.
    destruct Et as (<- & Ex & <-). split; [reflexivity|]. split; [|reflexivity].
    apply (f_equal attempt_of) in Ex. cbn [attempt_of] in Ex. congruence. }
  destruct Hs as [(E0 & -> & Et)|(E0 & -> & Et)].
  - exfalso.
    assert (Ht : attempts (echoes ++ [Saw (FinalizeDownload (output_root s)
                                             (audio_only (params s)) before) tt])
                 = []).
    { unfold attempts. rewrite collect_app, Ea. reflexivity. }
    destruct (Hpos _ Ht Et) as (_ & Ex & _). congruence.
  - destruct (Hpos echoes Ea Et) as (-> & Ex & <-).
    injection Ex as <- <- <-.
    repeat split; auto.
Qed.

(** A rule that does some things without attempting anything ([pre]) and
    then retries. *)
Lemma fired_settles (pre t : Trace) (c : list string)
      (r : Z + CompletedProcess) (retried : bool) :
  attempts pre = [] ->
  exec (retry s c) t r ->
  settles (pre ++ t)
    match r with
    | inl code => inl code
    | inr rr => inr (mkState rr retried)
    end.
Proof.
  intros Hpre H t1 c' capture o t2 E Ho Hu.
  apply app_eq_cons_cases in E. destruct E as [(l & E1 & _)|(l & _ & E2)].
  - exfalso. rewrite E1 in Hpre. exact (attempts_split _ _ _ _ _ Hpre).
  - destruct (retry_split _ _ _ H _ _ _ _ _ E2 Ho)
      as (_ & _ & An & At & _ & _ & ->).
    split; [exact An|]. split; [exact At|]. eexists. split; reflexivity.
Qed.

Lemma first_attempt_settles (t : Trace) (r : Z + State) :
  exec (first_attempt s) t r -> settles t r.
Proof.
  intro H. apply exec_first_attempt in H. destruct H as (r' & H & ->).
  exact (fired_settles [] t _ r' false eq_refl H).
Qed.

Lemma restart_and_retry_settles (st : State) (t : Trace) (r : Z + State) :
  exec (restart_and_retry s st) t r -> settles t r.
Proof.
  unfold restart_and_retry. cbn [bind print trigger exec].
  intros ([] & t1 & -> & restarted & t2 & -> & H). destruct restarted.
  - apply exec_retry_next in H. destruct H as (r' & H & ->).
    exact (fired_settles
             [Saw (PrintMsg msg_restart) tt;
              Saw (RestartPoTokenProvider (proxy_value s) (no_proxy s)) true]
             t2 _ r' (wpc_retried st) eq_refl H).
  - destruct H as [-> ->]. now apply settles_quiet.
Qed.

Lemma switch_if_still_failing_skips (st : State) :
  unclassified (result st) = true -> switch_if_still_failing s st = Next st.
Proof.
  intro H. apply unclassified_elim in H. destruct H as (_ & Hp & _).
  unfold switch_if_still_failing. now rewrite Hp.
Qed.

Lemma switch_if_still_failing_settles (st : State) (t : Trace)
      (r : Z + State) :
  exec (switch_if_still_failing s st) t r -> settles t r.
Proof.
  unfold switch_if_still_failing. destruct (has_pot_error (result st)).
  - cbn [bind print trigger exec].
    intros ([] & t1 & -> & ready & t2 & -> & H). destruct ready.
    + apply exec_retry_next in H. destruct H as (r' & H & ->).
      exact (fired_settles
               [Saw (PrintMsg msg_still_failing) tt;
                Saw (EnsureWpcProvider (proxy_value s)) true]
               t2 _ r' true eq_refl H).
    + destruct H as [-> ->]. now apply settles_quiet.
  - intros [-> ->]. now apply settles_quiet.
Qed.

Lemma rule_restart_settles (st : State) (t : Trace) (r : Z + State) :
  exec (rule_restart s st) t r -> settles t r.
Proof.
  unfold rule_restart.
  destruct (use_po_token s && is_str (provider_type s) "bgutil" &&
            has_pot_error (result st)).
  - apply and_then_settles.
    + intros t1 r1. apply restart_and_retry_settles.
    + intros st1 t2 r2. apply switch_if_still_failing_settles.
    + apply switch_if_still_failing_skips.
  - intros [-> ->]. now apply settles_quiet.
Qed.

Lemma rule_wpc_pending_settles (st : State) (t : Trace) (r : Z + State) :
  exec (rule_wpc_pending s st) t r -> settles t r.
Proof.
  unfold rule_wpc_pending.
  destruct (use_po_token s && has_wpc_error (result st)).
  - cbn [bind print trigger exec].
    intros ([] & t1 & -> & [] & t2 & -> & H).
    apply exec_retry_next in H. destruct H as (r' & H & ->).
    exact (fired_settles
             [Saw (PrintMsg msg_wpc_pending) tt; Saw (Sleep 3) tt]
             t2 _ r' true eq_refl H).
  - intros [-> ->]. now apply settles_quiet.
Qed.

Lemma rule_wpc_switch_settles (st : State) (t : Trace) (r : Z + State) :
  exec (rule_wpc_switch s st) t r -> settles t r.
Proof.
  unfold rule_wpc_switch.
  destruct (use_po_token s && has_pot_error (result st) &&
            negb (wpc_retried st)).
  - cbn [bind print trigger exec].
    intros ([] & t1 & -> & ready & t2 & -> & H). destruct ready.
    + apply exec_retry_next in H. destruct H as (r' & H & ->).
      exact (fired_settles
               [Saw (PrintMsg msg_wpc_switch) tt;
                Saw (EnsureWpcProvider (proxy_value s)) true]
               t2 _ r' (wpc_retried st) eq_refl H).
    + destruct H as [-> ->]. now apply settles_quiet.
  - intros [-> ->]. now apply settles_quiet.
Qed.

Lemma rule_web_safari_settles (st : State) (t : Trace) (r : Z + State) :
  exec (rule_web_safari s st) t r -> settles t r.
Proof.
  unfold rule_web_safari.
  destruct (Py.truthy (cookies_from_browser (params s)) &&
            negb (Py.truthy (player_client (params s))) &&
            has_403_error (result st)).
  - cbn [bind print trigger exec]. intros ([] & t1 & -> & H).
    apply exec_retry_next in H. destruct H as (r' & H & ->).
    exact (fired_settles [Saw (PrintMsg msg_web_safari) tt]
             t1 _ r' (wpc_retried st) eq_refl H).
  - intros [-> ->]. now apply settles_quiet.
Qed.

(** The rules guarded by a classifier leave an unclassified result as it
    is. *)
Lemma unclassified_skips (st : State) :
  unclassified (result st) = true ->
  rule_restart s st = Next st /\ switch_if_still_failing s st = Next st /\
  rule_wpc_pending s st = Next st /\ rule_wpc_switch s st = Next st /\
  rule_web_safari s st = Next st.
Proof.
  intro H. destruct (classified_rules_skip s st H) as (E1 & E2 & E3 & E4).
  pose proof (switch_if_still_failing_skips st H). auto.
Qed.

Lemma token_rules_skips (st : State) :
  unclassified (result st) = true -> token_rules s st = Next st.
Proof.
  intro H. destruct (classified_rules_skip s st H) as (E1 & E2 & E3 & _).
  unfold token_rules. rewrite E1. cbn [and_then Next bind].
  rewrite E2. cbn [and_then Next bind]. exact E3.
Qed.

Lemma token_rules_settles (st : State) (t : Trace) (r : Z + State) :
  exec (token_rules s st) t r -> settles t r.
Proof.
  unfold token_rules. apply and_then_settles.
  - intros t1 r1. apply rule_restart_settles.
  - intros st1 t2 r2. apply and_then_settles.
    + intros ? ?. apply rule_wpc_pending_settles.
    + intros ? ? ?. apply rule_wpc_switch_settles.
    + intros st2 H. now destruct (classified_rules_skip s st2 H) as (_ & _ & E & _).
  - intros st1 H. destruct (classified_rules_skip s st1 H) as (_ & E2 & E3 & _).
    rewrite E2. cbn [and_then Next bind]. exact E3.
Qed.

(** The session up to the format fallback: the first attempt and the five
    rules guarded by a classifier. *)
Lemma guarded_rules_settle (t : Trace) (r : Z + State) :
  exec (st1 <-- (st0 <-- first_attempt s ;; token_rules s st0) ;;
        rule_web_safari s st1) t r ->
  settles t r /\ Forall (fun k => k <= 5) (announced t).
Proof.
  intro H. split.
  - revert H. apply and_then_settles.
    + intros t1 r1. apply and_then_settles.
      * intros ? ?. apply first_attempt_settles.
      * intros ? ? ?. apply token_rules_settles.
      * apply token_rules_skips.
    + intros ? ? ?. apply rule_web_safari_settles.
    + intros st H. now destruct (classified_rules_skip s st H) as (_ & _ & _ & E).
  - revert H. apply and_then_bound.
    + intros t1 r1. apply and_then_bound.
      * intros t0 r0 H. apply exec_first_attempt in H.
        destruct H as (r' & H & _). apply retry_reads in H.
        destruct H as (-> & _). constructor.
      * intros st0 t2 r2 H. apply token_rules_ok in H.
        destruct H as ((_ & Hf) & _).
        eapply Forall_impl; [|exact Hf]. cbn. intros k Hk. lia.
    + intros st1 t2 r2 H. apply rule_web_safari_ok in H.
      destruct H as ((_ & Hf) & _).
      eapply Forall_impl; [|exact Hf]. cbn. intros k Hk. lia.
Qed.

(** The end of the ladder: the format fallback and the last message. *)
Lemma exec_fallback_tail (st : State) (t : Trace) (r : Z + State) :
  exec (st' <-- rule_fallback s st ;;
        print (msg_failed (returncode (result st'))) ;;
        Next st') t r ->
  if negb (audio_only (params s)) && format_from_quality s then
    exists tf r1 tg,
      exec (retry s (fallback_cmd s)) tf r1 /\
      t = Saw (PrintMsg msg_fallback) tt :: tf ++ tg /\
      forallb inert tg = true /\
      r = inl match r1 with
              | inl code => code
              | inr rr => returncode rr
              end
  else
    t = [Saw (PrintMsg (msg_failed (returncode (result st)))) tt] /\
    r = inr st.
Proof.
  unfold rule_fallback.
  destruct (negb (audio_only (params s)) && format_from_quality s).
  - intro H. apply exec_and_then in H.
    destruct H as [(code & H & ->)|(st1 & t3 & t4 & H & _ & _)];
      cbn [bind print trigger exec] in H;
      destruct H as ([] & t' & -> & H); apply exec_and_then in H.
    + destruct H as [(code' & H & E)|(rr & t5 & t6 & H & H3 & ->)].
      * injection E as ->. exists t', (inl code'), [].
        rewrite app_nil_r. auto.
      * cbn [bind print trigger exec Return] in H3.
        destruct H3 as ([] & t'' & -> & -> & E). injection E as ->.
        exists t5, (inr rr), [Saw (PrintMsg (msg_failed (returncode rr))) tt].
        auto.
    + exfalso.
      destruct H as [(code' & _ & E)|(rr & t5 & t6 & _ & H3 & _)];
        [discriminate|].
      cbn [bind print trigger exec Return] in H3.
      destruct H3 as ([] & t'' & _ & _ & E). discriminate.
  - cbn [and_then Next Return bind print trigger exec].
    intros ([] & t' & -> & -> & ->). auto.
Qed.

(** The whole session, read at any of its failed attempts. *)
Lemma execute_settles (t : Trace) (rc : Z) :
  exec (execute s) t rc ->
  forall t1 c capture o t2,
    t = t1 ++ Saw (Spawn c capture) o :: t2 ->
    exit_code o <> 0%Z ->
    unclassified (completed capture o) = true ->
    if fallback_pending s t1
    then announced t2 = [6] /\
         exists o',
           attempts t2 = [(fallback_cmd s, hide_cookie_logs s, o')] /\
           rc = exit_code o'
    else announced t2 = [] /\ attempts t2 = [] /\ rc = exit_code o.
Proof.
  unfold execute, ladder, fallback_pending.
  intros H t1 c capture o t2 E Ho Hu.
  apply exec_bind in H. destruct H as (r & ta & tb & H & Hm & ->).
  assert (Eb : tb = [] /\
               rc = match r with
                    | inl code => code
                    | inr st => returncode (result st)
                    end)
    by (destruct r; destruct Hm as [-> ->]; auto).
  destruct Eb as [-> ->]. rewrite app_nil_r in E. clear Hm.
  apply exec_and_then_assoc, exec_and_then_assoc, exec_and_then in H.
  destruct H as [(code & H & ->)|(st2 & t5 & td & H5 & Hd & ->)].
  { exfalso. apply guarded_rules_settle in H. destruct H as [S _].
    destruct (S _ _ _ _ _ E Ho Hu) as (_ & _ & st & Er & _). discriminate. }
  apply guarded_rules_settle in H5. destruct H5 as [S5 B5].
  apply exec_fallback_tail in Hd.
  apply app_eq_cons_cases in E. destruct E as [(l & E1 & ->)|(l & -> & E2)].
  - destruct (S5 _ _ _ _ _ E1 Ho Hu) as (An & At & st & Er & Es).
    injection Er as <-.
    rewrite E1, announced_app in B5. apply Forall_app in B5.
    rewrite (bounded_not_fallback _ (proj1 B5)). cbn [negb]. rewrite andb_true_r.
    destruct (negb (audio_only (params s)) && format_from_quality s).
    + destruct Hd as (tf & r1 & tg & Hf & -> & Hg & ->).
      apply retry_reads in Hf. destruct Hf as (Af & o' & Atf & Hr).
      apply inert_silent in Hg. destruct Hg as (Ag & _ & Ng & _).
      change (Saw (PrintMsg msg_fallback) tt :: tf ++ tg)
        with ([Saw (PrintMsg msg_fallback) tt] ++ tf ++ tg).
      rewrite !announced_app, !attempts_app, An, At, Af, Atf, Ag, Ng.
      split; [reflexivity|]. exists o'. split; [reflexivity|].
      destruct Hr as [(E0 & -> & _)|(_ & -> & _)];
        [congruence | now rewrite returncode_completed].
    + destruct Hd as [-> ->].
      rewrite announced_app, attempts_app, An, At, Es, returncode_completed.
      repeat split.
  - destruct (negb (audio_only (params s)) && format_from_quality s).
    + destruct Hd as (tf & r1 & tg & Hf & Et & Hg & ->).
      apply inert_silent in Hg. destruct Hg as (Ag & _ & Ng & _).
      rewrite Et in E2.
      change (Saw (PrintMsg msg_fallback) tt :: tf ++ tg)
        with (([Saw (PrintMsg msg_fallback) tt] ++ tf) ++ tg) in E2.
      apply app_eq_cons_cases in E2.
      destruct E2 as [(l2 & E3 & ->)|(l2 & _ & E3)].
      2: { exfalso. rewrite E3 in Ag. exact (attempts_split _ _ _ _ _ Ag). }
      apply app_eq_cons_cases in E3.
      destruct E3 as [(l3 & E4 & _)|(l3 & -> & E4)].
      { exfalso. destruct l as [|x l]; [discriminate|].
        injection E4 as _ E4. destruct l; discriminate. }
      destruct (retry_split _ _ _ Hf _ _ _ _ _ E4 Ho)
        as (_ & _ & An & At & _ & _ & ->).
      assert (Hfired : existsb (Nat.eqb 6)
                         (announced (t5 ++ [Saw (PrintMsg msg_fallback) tt] ++ l3))
                       = true).
      { rewrite !announced_app, !existsb_app.
        unfold announced at 2. cbn [collect rule_of].
        autorewrite with messages. cbn [existsb Nat.eqb].
        now rewrite orb_true_r. }
      rewrite Hfired, andb_false_r.
      rewrite announced_app, attempts_app, An, At, Ag, Ng, returncode_completed.
      repeat split.
    + exfalso. destruct Hd as [-> _].
      destruct l as [|x l]; [discriminate|].
      injection E2 as _ E2. destruct l; discriminate.
Qed.

End Settling.

(** C2, as the code has it: on a result that no classifier recognises the
    five rules guarded by a classifier do nothing, and neither does the
    second step of the first rule, whatever the session; the last rule does
    not look at the result at all.  So after any failed attempt of a
    session, the first one or a retry, whose output no classifier
    recognises, no rule announces itself and nothing is attempted, with one
    exception: the progressive-format fallback, if it applies to the session
    (a video session whose format comes from a quality preset) and has not
    fired before that attempt, fires and makes exactly one more attempt,
    whose exit code the session returns.  Without the fallback the session
    returns the exit code of the unrecognised attempt. *)
Theorem unclassified_failure :
  forall s : Session,
    (forall st : State,
        unclassified (result st) = true ->
        rule_restart s st = Next st /\
        switch_if_still_failing s st = Next st /\
        rule_wpc_pending s st = Next st /\
        rule_wpc_switch s st = Next st /\ rule_web_safari s st = Next st) /\
    (forall (W : Type) (h : Handler W) (w : W),
        let '(rc, _, t) := run h (execute s) w in
        forall t1 c capture o t2,
          t = t1 ++ Saw (Spawn c capture) o :: t2 ->
          exit_code o <> 0%Z ->
          unclassified (completed capture o) = true ->
          if fallback_pending s t1
          then announced t2 = [6] /\
               exists o',
                 attempts t2 = [(fallback_cmd s, hide_cookie_logs s, o')] /\
                 rc = exit_code o'
          else announced t2 = [] /\ attempts t2 = [] /\ rc = exit_code o).
Proof.
  intro s. split; [apply unclassified_skips|].
  intros W h w. pose proof (run_exec h (execute s) w) as H.
  destruct (run h (execute s) w) as [[rc w'] t]. cbn [fst snd] in H.
  now apply execute_settles.
Qed.

(** ** The 403 rule *)

Section WebSafari.

Variable s : Session.

(** Every result the ladder works on was produced by [run_yt_dlp] with the
    session's capture setting. *)
Lemma reaches_from_runner (t : Trace) (st : State) :
  exec (st0 <-- first_attempt s ;; token_rules s st0) t (inr st) ->
  from_runner s (result st).
Proof.
  intro H. apply exec_and_then in H.
  destruct H as [(code & _ & E)|(st0 & t1 & t2 & H1 & H2 & ->)];
    [discriminate|].
  apply exec_first_attempt in H1. destruct H1 as (r' & H1 & E).
  apply retry_reads in H1. destruct H1 as (_ & o & _ & Hr).
  destruct Hr as [(_ & -> & _)|(_ & -> & _)]; [discriminate|].
  injection E as ->.
  apply token_rules_ok in H2. destruct H2 as (_ & _ & _ & _ & _ & Hfrom).
  apply Hfrom. exists o. reflexivity.
Qed.

Lemma web_safari_fires (st : State) (t : Trace) (r : Z + State) :
  Py.truthy (cookies_from_browser (params s)) = true ->
  Py.truthy (player_client (params s)) = false ->
  has_403_error (result st) = true ->
  exec (rule_web_safari s st) t r ->
  announced t = [5] /\
  exists kept o,
    without_extractor_args (cmd s) kept /\
    ~ In "--extractor-args"%string kept /\
    attempts t =
      [(kept ++ ["--extractor-args"%string;
                 "youtube:player_client=web_safari"%string], true, o)] /\
    (exit_code o = 0%Z -> r = inl 0%Z /\ finalized t = 1) /\
    (exit_code o <> 0%Z ->
     r = inr (mkState (completed true o) (wpc_retried st)) /\
     finalized t = 0).
Proof.
  intros Hhide Hclient H403 H.
  unfold rule_web_safari in H.
  rewrite Hhide, Hclient, H403 in H. cbn [negb andb] in H.
  cbn [bind print trigger exec] in H. destruct H as ([] & t1 & -> & H).
  apply exec_retry_next in H. destruct H as (r' & H & ->).
  pose proof H as Hshape. apply exec_retry in Hshape.
  apply retry_reads in H. destruct H as (An & o & At & Hr).
  unfold hide_cookie_logs in At, Hr. rewrite Hhide in At, Hr.
  split.
  { change (Saw (PrintMsg msg_web_safari) tt :: t1)
      with ([Saw (PrintMsg msg_web_safari) tt] ++ t1).
    rewrite announced_app, An. reflexivity. }
  destruct (player_client_loop (cmd s)) as [Hloop _].
  destruct (Hloop []) as (kept & skip & Ek & Hkept & Hnone).
  assert (Ec : with_player_client (cmd s) "web_safari" =
               kept ++ ["--extractor-args"%string;
                        "youtube:player_client=web_safari"%string]).
  { unfold with_player_client. rewrite Ek. reflexivity. }
  exists kept, o. split; [exact Hkept|]. split; [exact Hnone|]. split.
  { change (Saw (PrintMsg msg_web_safari) tt :: t1)
      with ([Saw (PrintMsg msg_web_safari) tt] ++ t1).
    rewrite attempts_app, At, Ec. reflexivity. }
  destruct Hshape as (before & o1 & echoes & He & Hs).
  assert (Eo : o1 = o).
  { destruct Hs as [(_ & _ & ->)|(_ & _ & ->)];
      unfold attempts in At; cbn [collect attempt_of] in At;
      inversion At; reflexivity. }
  subst o1. destruct (echoes_collect _ He) as (_ & _ & Ef).
  destruct Hs as [(E0 & -> & ->)|(E0 & -> & ->)].
  - split; [|intro; congruence]. intros _. split; [reflexivity|].
    unfold finalized. cbn [collect finalize_of rule_of].
    rewrite collect_app, Ef. reflexivity.
  - split; [intro; congruence|]. intros _.
    unfold hide_cookie_logs. rewrite Hhide. split; [reflexivity|].
    unfold finalized. cbn [collect finalize_of rule_of].
    rewrite Ef. reflexivity.
Qed.

(** A result whose output was not captured is not classified. *)
Lemma uncaptured_not_forbidden (st : State) :
  Py.truthy (cookies_from_browser (params s)) = false ->
  from_runner s (result st) ->
  has_403_error (result st) = false.
Proof.
  intros Hhide (o & ->). unfold hide_cookie_logs. rewrite Hhide. reflexivity.
Qed.

Lemma web_safari_skips (st : State) (t : Trace) (r : Z + State) :
  Py.truthy (cookies_from_browser (params s)) = false \/
  has_403_error (result st) = false ->
  exec (rule_web_safari s st) t r ->
  t = [] /\ r = inr st.
Proof.
  unfold rule_web_safari. intros [E|E]; rewrite E, ?andb_false_r;
    cbn [andb]; intros [-> ->]; auto.
Qed.

End WebSafari.

(** C7, as the code has it: the 403 rule looks at the cookies of the
    browser only.  In a session with no player client given, when the
    ladder reaches the rule after the failed attempts before it: if the
    cookies come from the browser and the current result is classified as
    forbidden access, the rule fires and makes exactly one retry, with
    captured output, of the session's command without its
    [--extractor-args] pairs, followed by the one pair that selects the
    web_safari client; the session ends with 0 if that retry succeeds and
    goes on with its result otherwise.  If the current result is not so
    classified the rule does nothing.  And without cookies from the
    browser (with a cookie file alone, or no cookies) the output of the
    extractor was not captured, so that the result is not classified as
    forbidden access whatever the extractor wrote, and the rule does
    nothing. *)
Theorem forbidden_retries_with_web_safari :
  forall (W : Type) (h : Handler W) (w w1 : W) (s : Session) (st : State)
         (t1 : Trace),
    Py.truthy (player_client (params s)) = false ->
    run h (st0 <-- first_attempt s ;; token_rules s st0) w = (inr st, w1, t1) ->
    let '(r, _, t) := run h (rule_web_safari s st) w1 in
    (Py.truthy (cookies_from_browser (params s)) = true ->
     has_403_error (result st) = true ->
     announced t = [5] /\
     exists kept o,
       without_extractor_args (cmd s) kept /\
       ~ In "--extractor-args"%string kept /\
       attempts t =
         [(kept ++ ["--extractor-args"%string;
                    "youtube:player_client=web_safari"%string], true, o)] /\
       (exit_code o = 0%Z -> r = inl 0%Z /\ finalized t = 1) /\
       (exit_code o <> 0%Z ->
        r = inr (mkState (completed true o) (wpc_retried st)) /\
        finalized t = 0)) /\
    (has_403_error (result st) = false -> t = [] /\ r = inr st) /\
    (Py.truthy (cookies_from_browser (params s)) = false ->
     has_403_error (result st) = false /\ t = [] /\ r = inr st).
Proof.
  intros W h w w1 s st t1 Hclient Hreach.
  pose proof (run_exec h (st0 <-- first_attempt s ;; token_rules s st0) w) as H.
  rewrite Hreach in H. cbn [fst snd] in H.
  apply reaches_from_runner in H.
  pose proof (run_exec h (rule_web_safari s st) w1) as H5.
  destruct (run h (rule_web_safari s st) w1) as [[r w2] t]. cbn [fst snd] in H5.
  split; [|split].
  - intros Hb H403. eapply web_safari_fires; eauto.
  - intro H403. eapply web_safari_skips; eauto.
  - intro Hb. split; [now apply (uncaptured_not_forbidden s)|].
    eapply web_safari_skips; eauto.
Qed.

(** ** Configuration errors *)

(** C3, as the code has it: every invocation starts by running
    [which yt-dlp]; when that fails the exit code is 1, whatever the options.
    With the tool present, conflicting cookie sources give exit code 2 with
    nothing else done.  In a download (neither a listing of formats nor an
    information query) a format given together with a quality preset, or an
    unsupported preset, gives exit code 2 without any attempt; what was
    done before are calls during which no process is run (reads of the
    environment, the search for the browser, messages) and, exactly when
    token-backed access is requested and the cookie sources do not
    conflict, one call of the set-up of the token provider, during which
    processes are run.  When token-backed access is requested, the set-up
    of the provider comes right after the reads of the environment, and an
    unresolvable provider gives exit code 2 with nothing done after it but
    the message. *)
Theorem configuration_errors :
  forall (W : Type) (h : Handler W) (w : W) (a : Args),
    let '(rc, _, t) := run h (download_video a) w in
    exists code rest,
      t = Saw (Which "yt-dlp") code :: rest /\
      (code <> 0%Z ->
       rc = 1%Z /\
       rest = [Saw (PrintMsg msg_not_installed) tt;
               Saw (PrintMsg msg_install_hint) tt]) /\
      (code = 0%Z -> cookie_conflict a = true ->
       rc = 2%Z /\ rest = [Saw (PrintMsg msg_cookie_conflict) tt]) /\
      (code = 0%Z -> list_formats a = false -> info_only a = false ->
       format_conflict a || unsupported_preset a = true ->
       rc = 2%Z /\ attempts t = [] /\
       provider_calls t =
         (if negb (cookie_conflict a) && token_backed a then 1 else 0) /\
       forallb (fun o => starts_no_process o || is_provider_setup o) rest
         = true) /\
      (code = 0%Z -> cookie_conflict a = false -> token_backed a = true ->
       exists envs proxy_url no_proxy answer post,
         rest = envs ++ Saw (EnsurePoTokenProvider proxy_url no_proxy) answer
                      :: post /\
         forallb is_environ_get envs = true /\
         (Py.truthy answer = false ->
          rc = 2%Z /\ post = [Saw (PrintMsg msg_no_provider) tt])).
Proof.
  intros W h w a. pose proof (run_exec h (download_video a) w) as H.
  destruct (run h (download_video a) w) as [[rc w'] t]. cbn [fst snd] in H.
  unfold download_video in H. apply exec_bind in H.
  destruct H as (r & t1 & t2 & H1 & H2 & ->).
  apply prepare_facts in H1.
  destruct H1 as (code & rest & -> & Pb & Pc & Pd & Pe).
  exists code, (rest ++ t2). split; [reflexivity|].
  split; [|split; [|split]].
  - intro Hc. destruct (Pb Hc) as [-> ->]. destruct H2 as [-> ->]. auto.
  - intros Hc Hcc. destruct (Pc Hc Hcc) as [-> ->].
    destruct H2 as [-> ->]. auto.
  - intros Hc L I F. destruct (Pd Hc L I F) as (-> & Ha & Hp & Hq).
    destruct H2 as [-> ->]. rewrite !app_nil_r. auto.
  - intros Hc Hcc Htb.
    destruct (Pe Hc Hcc Htb) as (envs & pu & np & ans & post & E & Hpre & Hans).
    exists envs, pu, np, ans, (post ++ t2). split.
    { rewrite E, <- app_assoc. reflexivity. }
    split; [exact Hpre|]. intro Hf. destruct (Hans Hf) as [-> ->].
    destruct H2 as [-> ->]. auto.
Qed.

(** ** Concrete runs *)

(** C1 fails as stated: with browser cookies, a first attempt that ends in a
    403 makes the 403 rule fire; its retry exits with code 5, yet the session
    does not end there: the format fallback fires as well and the session
    returns the exit code 6 of that last retry. *)
Lemma ladder_applies_two_rules :
  let world :=
    with_children quiet_world
      [ mkOutcome 1 "" forbidden_output;
        mkOutcome 5 "" forbidden_output;
        mkOutcome 6 "" "" ] in
  let '(rc, _, t) := run scripted (download_video browser_cookie_args) world in
  announced t = [5; 6] /\ codes t = [1; 5; 6]%Z /\ rc = 6%Z.
Proof. vm_compute. repeat split. Qed.

(** C2 fails as stated: with the defaults of the command line, a first
    attempt that fails with output no classifier recognises is followed by
    one more attempt, made by the format fallback. *)
Lemma unclassified_failure_is_retried :
  let o := mkOutcome 1 "" "ERROR: Unsupported URL" in
  let world := with_children quiet_world [o; mkOutcome 1 "" ""] in
  let '(rc, _, t) :=
    run scripted (download_video (default_args "https://youtu.be/x")) world in
  unclassified (completed true o) = true /\
  unclassified (completed false o) = true /\
  codes t = [1; 1]%Z /\ announced t = [6] /\ length (attempts t) = 2.
Proof. vm_compute. repeat split. Qed.

Lemma browser_cookie_session_prepared :
  fst (fst (run scripted (prepare browser_cookie_args) quiet_world)) =
  inr browser_cookie_session.
Proof. vm_compute. reflexivity. Qed.

(** C7 fails as stated: in a session with a cookie file and no player
    client, a download whose attempts end in a 403 is not retried with the
    web_safari client.  The output of the extractor, which would be
    classified as forbidden access, is not captured; only the format
    fallback fires, and no command run selects the web_safari client.
    With an explicit format the fallback does not apply either, and the
    one attempt is all that happens. *)
Lemma cookie_file_forbidden_is_not_retried :
  let o := mkOutcome 1 "" forbidden_output in
  let with_file :=
    with_auto_po_token
      (with_cookies_file (default_args "https://youtu.be/x")
         (Some "cookies.txt"))
      false in
  let with_file_and_format := with_quality with_file (Some "best") None false in
  has_403_error (completed true o) = true /\
  Py.truthy (cookies_file with_file) = true /\
  Py.truthy (player_client with_file) = false /\
  (let '(rc, _, t) :=
     run scripted (download_video with_file)
       (with_children quiet_world [o; o; o]) in
   announced t = [6] /\ codes t = [1; 1]%Z /\ rc = 1%Z /\
   forallb (fun x =>
              negb (Py.list_in "youtube:player_client=web_safari"
                      (fst (fst x))))
           (attempts t) = true) /\
  (let '(rc, _, t) :=
     run scripted (download_video with_file_and_format)
       (with_children quiet_world [o; o; o]) in
   announced t = [] /\ codes t = [1]%Z /\ rc = 1%Z).
Proof. vm_compute. repeat split. Qed.

(** The 403 rule at work: with cookies from the browser the first attempt
    ends in a 403 and the retry with the web_safari client succeeds. *)
Lemma forbidden_retries_with_web_safari_run :
  exists st w1 t1,
    run scripted
      (st0 <-- first_attempt browser_cookie_session ;;
       token_rules browser_cookie_session st0)
      (with_children quiet_world
         [mkOutcome 1 "" forbidden_output; mkOutcome 0 "" ""]) =
    (inr st, w1, t1) /\
    Py.truthy (cookies_from_browser (params browser_cookie_session)) = true /\
    has_403_error (result st) = true /\
    let '(r, _, t) := run scripted (rule_web_safari browser_cookie_session st) w1 in
    (Py.truthy (cookies_from_browser (params browser_cookie_session)) = true ->
     has_403_error (result st) = true ->
     announced t = [5] /\
     exists kept o,
       without_extractor_args (cmd browser_cookie_session) kept /\
       ~ In "--extractor-args"%string kept /\
       attempts t =
         [(kept ++ ["--extractor-args"%string;
                    "youtube:player_client=web_safari"%string], true, o)] /\
       (exit_code o = 0%Z -> r = inl 0%Z /\ finalized t = 1) /\
       (exit_code o <> 0%Z ->
        r = inr (mkState (completed true o) (wpc_retried st)) /\
        finalized t = 0)) /\
    (has_403_error (result st) = false -> t = [] /\ r = inr st) /\
    (Py.truthy (cookies_from_browser (params browser_cookie_session)) = false ->
     has_403_error (result st) = false /\ t = [] /\ r = inr st).
Proof.
  eexists. eexists. eexists. split; [|split; [|split]].
  - vm_compute. reflexivity.
  - reflexivity.
  - reflexivity.
  - eapply (forbidden_retries_with_web_safari Script scripted
              (with_children quiet_world
                 [mkOutcome 1 "" forbidden_output; mkOutcome 0 "" ""])).
    + reflexivity.
    + vm_compute. reflexivity.
Defined.

(** The scenario of the specification: quality "720p", a first attempt that
    exits with 1 on "fragment 1 not found", no cookie source.  The format
    fallback fires, with the selector capped at 720, and its retry
    succeeds. *)
Example fallback_scenario :
  let a :=
    with_quality (default_args "https://youtu.be/x") None (Some "720p")
      false in
  let world :=
    with_children quiet_world
      [mkOutcome 1 "" "ERROR: fragment 1 not found"; mkOutcome 0 "" ""] in
  let '(rc, _, t) := run scripted (download_video a) world in
  rc = 0%Z /\ announced t = [6] /\ finalized t = 1 /\
  map (fun x => fst (fst x)) (attempts t) =
  [ [ "yt-dlp"; "--extractor-args"; "youtube:player_client=mweb";
      "--no-playlist"; "-o"; "./%(title)s.%(ext)s"; "-f";
      "bestvideo[height<=720]+bestaudio/best";
      "--merge-output-format"; "mp4"; "https://youtu.be/x" ];
    [ "yt-dlp"; "--extractor-args"; "youtube:player_client=mweb";
      "--no-playlist"; "-o"; "./%(title)s.%(ext)s"; "-f";
      "best[height<=720][protocol!*=m3u8][ext=mp4]/best[height<=720][protocol!*=m3u8]/best[protocol!*=m3u8]";
      "--merge-output-format"; "mp4"; "https://youtu.be/x" ] ].
Proof. vm_compute. repeat split. Qed.

Example with_player_client_example :
  with_player_client
    [ "yt-dlp"; "--extractor-args"; "youtube:player_client=mweb"; "-f"; "best";
      "--extractor-args"; "youtubepot-wpc:browser_path=/usr/bin/chrome";
      "https://youtu.be/x" ]
    "web_safari" =
  [ "yt-dlp"; "-f"; "best"; "https://youtu.be/x";
    "--extractor-args"; "youtube:player_client=web_safari" ].
Proof. reflexivity. Qed.

Example classifier_examples :
  has_403_error (mkCompleted 1 None (Some "ERROR: HTTP ERROR 403: Forbidden"))
    = true /\
  has_403_error (mkCompleted 1 None None) = false /\
  has_pot_error (mkCompleted 1 (Some "[youtube] Spotted") (Some "No Error"))
    = true /\
  has_wpc_error (mkCompleted 1 (Some "[pot:wpc] waiting") None) = true.
Proof. repeat split. Qed.

(** * Properties of the helpers and of whole sessions *)

(** ** Composition of the command rebuilders *)

(** Tokens without "--extractor-args" pass through the loop of
    [with_player_client] unchanged. *)
Lemma player_client_keeps (kept rebuilt : list string) :
  ~ In "--extractor-args"%string kept ->
  fold_left player_client_step kept (rebuilt, false) = (rebuilt ++ kept, false).
Proof.
  revert rebuilt. induction kept as [|token rest IH]; intros rebuilt Hn.
  - now rewrite app_nil_r.
  - cbn [fold_left player_client_step].
    destruct (String.eqb_spec token "--extractor-args") as [->|_].
    + exfalso. apply Hn. now left.
    + rewrite IH, <- app_assoc; [reflexivity|].
      intro H. apply Hn. now right.
Qed.

Lemma player_client_drops_pairs (kept pairs : list string) :
  ~ In "--extractor-args"%string kept ->
  (pairs = [] \/
   (exists v, pairs = ["--extractor-args"%string; v]) \/
   (exists v v', pairs = ["--extractor-args"%string; v;
                          "--extractor-args"%string; v'])) ->
  fold_left player_client_step (kept ++ pairs) ([], false) = (kept, false).
Proof.
  intros Hn Hp. rewrite fold_left_app, (player_client_keeps kept [] Hn).
  cbn [app].
  destruct Hp as [->|[[v ->]|(v & v' & ->)]]; reflexivity.
Qed.

(** X1: choosing a player client twice keeps only the last choice.  For
    every command, rebuilding it for client [a], adding or not the browser
    path of the WPC provider, and rebuilding the result for client [b]
    gives the command that rebuilding the original for [b] gives at once:
    [with_player_client] removes every [--extractor-args] pair, also the
    one that [with_wpc_browser] appended. *)
Theorem with_player_client_last_wins (cmd : list string) (a b : string)
        (browser_path : option string) :
  with_player_client (with_wpc_browser (with_player_client cmd a) browser_path) b
  = with_player_client cmd b.
Proof.
  destruct (player_client_loop cmd) as [Hf _].
  destruct (Hf []) as (kept & skip & E & _ & Hn). cbn [app] in E.
  unfold with_player_client at 2 3. rewrite E.
  unfold with_wpc_browser.
  destruct (negb (Py.truthy browser_path)).
  - unfold with_player_client.
    rewrite (player_client_drops_pairs kept _ Hn); [reflexivity|].
    right. left. eexists. reflexivity.
  - unfold with_player_client. rewrite <- app_assoc. cbn [app].
    rewrite (player_client_drops_pairs kept _ Hn); [reflexivity|].
    right. right. eexists. eexists. reflexivity.
Qed.

(** ** The order decided by [version_at_least] *)

Lemma padded_ge_refl (a : list Z) : padded_ge a a.
Proof. left. reflexivity. Qed.

Lemma padded_ge_trans (a b c : list Z) :
  padded_ge a b -> padded_ge b c -> padded_ge a c.
Proof.
  intros [Hab|(i & Hi & Hlt)] [Hbc|(k & Hk & Hlt')].
  - left. intro i. now rewrite Hab.
  - right. exists k. split; [intros j Hj; rewrite Hab; now apply Hk|].
    now rewrite Hab.
  - right. exists i. split; [intros j Hj; rewrite <- Hbc; now apply Hi|].
    now rewrite <- Hbc.
  - right. destruct (Nat.lt_trichotomy i k) as [Hik|[->|Hki]].
    + exists i. split.
      * intros j Hj. rewrite Hi by assumption. apply Hk. lia.
      * rewrite <- (Hk i Hik). assumption.
    + exists k. split.
      * intros j Hj. rewrite Hi by assumption. now apply Hk.
      * lia.
    + exists k. split.
      * intros j Hj. rewrite Hi by lia. now apply Hk.
      * rewrite (Hi k Hki). assumption.
Qed.

(** Two sequences agree on their first [n] components, or there is a first
    component among them where they differ. *)
Lemma first_difference (n : nat) (a b : list Z) :
  (forall i, i < n -> nth i a 0%Z = nth i b 0%Z) \/
  (exists i, i < n /\
             (forall j, j < i -> nth j a 0%Z = nth j b 0%Z) /\
             nth i a 0%Z <> nth i b 0%Z).
Proof.
  induction n as [|n [IH|(i & Hi & Heq & Hne)]].
  - left. intros i Hi. lia.
  - destruct (Z.eq_dec (nth n a 0%Z) (nth n b 0%Z)) as [E|Hne].
    + left. intros i Hi. destruct (Nat.eq_dec i n) as [->|]; [exact E|].
      apply IH. lia.
    + right. exists n. split; [lia|]. split; [exact IH | exact Hne].
  - right. exists i. split; [lia|]. split; assumption.
Qed.

Lemma padded_ge_total (a b : list Z) : padded_ge a b \/ padded_ge b a.
Proof.
  destruct (first_difference (Nat.max (length a) (length b)) a b)
    as [Heq|(i & _ & Heq & Hne)].
  - left. left. intro i.
    destruct (Nat.lt_ge_cases i (Nat.max (length a) (length b))) as [Hi|Hi].
    + now apply Heq.
    + rewrite !nth_overflow by lia. reflexivity.
  - destruct (Z.lt_total (nth i a 0%Z) (nth i b 0%Z)) as [Hlt|[E|Hgt]].
    + right. right. exists i. split; [|exact Hlt].
      intros j Hj. symmetry. now apply Heq.
    + contradiction.
    + left. right. exists i. split; assumption.
Qed.

Lemma padded_ge_antisym (a b : list Z) :
  padded_ge a b -> padded_ge b a ->
  forall i, nth i a 0%Z = nth i b 0%Z.
Proof.
  intros [Hab|(i & Hi & Hlt)] [Hba|(k & Hk & Hlt')].
  - assumption.
  - specialize (Hab k). lia.
  - specialize (Hba i). lia.
  - exfalso. destruct (Nat.lt_trichotomy i k) as [Hik|[->|Hki]].
    + specialize (Hk i Hik). lia.
    + lia.
    + specialize (Hi k Hki). lia.
Qed.

(** X2: on plain versions (text within ASCII of at most 4300 characters,
    for which [str.isdigit] and [int] read the digits 0 to 9 and nothing
    else) the comparison of [version_at_least] is a total preorder on the
    versions that have at least one all-digit component.  A plain version
    is at least itself exactly when it has such a component; the
    comparison is transitive; two plain versions with such a component are
    comparable one way or the other; and two plain versions that are each
    at least the other have the same numeric components up to trailing
    zeros. *)
Theorem version_at_least_order :
  (forall v,
      plain_version v = true ->
      (version_at_least v v = true <-> parse_version v <> [])) /\
  (forall a b c,
      plain_version a = true -> plain_version b = true ->
      plain_version c = true ->
      version_at_least a b = true -> version_at_least b c = true ->
      version_at_least a c = true) /\
  (forall a b,
      plain_version a = true -> plain_version b = true ->
      parse_version a <> [] -> parse_version b <> [] ->
      version_at_least a b = true \/ version_at_least b a = true) /\
  (forall a b,
      plain_version a = true -> plain_version b = true ->
      version_at_least a b = true -> version_at_least b a = true ->
      forall i, nth i (parse_version a) 0%Z = nth i (parse_version b) 0%Z).
Proof.
  split; [|split; [|split]].
  - intros v _. rewrite version_at_least_iff. split.
    + intros (H & _). exact H.
    + intro H. split; [exact H|]. split; [exact H | apply padded_ge_refl].
  - intros a b c _ _ _. rewrite !version_at_least_iff.
    intros (Ha & _ & Hab) (_ & Hc & Hbc).
    split; [exact Ha|]. split; [exact Hc|].
    exact (padded_ge_trans _ _ _ Hab Hbc).
  - intros a b _ _ Ha Hb. rewrite !version_at_least_iff.
    destruct (padded_ge_total (parse_version a) (parse_version b)) as [H|H].
    + left. split; [exact Ha|]. split; [exact Hb | exact H].
    + right. split; [exact Hb|]. split; [exact Ha | exact H].
  - intros a b _ _. rewrite !version_at_least_iff.
    intros (_ & _ & Hab) (_ & _ & Hba).
    exact (padded_ge_antisym _ _ Hab Hba).
Qed.

(** ** What the log filter lets through *)

Lemma prefix_before_char (pat a rest : string) (c : ascii) :
  ~ In c (list_ascii_of_string pat) ->
  String.prefix pat (a ++ String c rest) = true ->
  String.prefix pat a = true.
Proof.
  revert a. induction pat as [|p pat IH]; intros a Hn H.
  - destruct a; reflexivity.
  - destruct a as [|x a]; cbn [String.append String.prefix] in *.
    + destruct (ascii_dec p c) as [->|]; [|discriminate].
      exfalso. apply Hn. now left.
    + destruct (ascii_dec p x); [|discriminate].
      apply IH; [|exact H]. intro Hi. apply Hn. now right.
Qed.

Lemma str_in_across_char (pat a rest : string) (c : ascii) :
  pat <> ""%string ->
  ~ In c (list_ascii_of_string pat) ->
  Py.str_in pat (a ++ String c rest) = true ->
  Py.str_in pat a = true \/ Py.str_in pat rest = true.
Proof.
  intros Hne Hn. induction a as [|x a IH]; intro H.
  - cbn [String.append] in H. rewrite str_in_cons in H.
    apply orb_true_iff in H. destruct H as [H|H]; [|now right].
    destruct pat as [|p pat]; [contradiction|].
    cbn [String.prefix] in H.
    destruct (ascii_dec p c) as [->|]; [|discriminate].
    exfalso. apply Hn. now left.
  - cbn [String.append] in H. rewrite str_in_cons in H.
    apply orb_true_iff in H. destruct H as [H|H].
    + left. rewrite str_in_cons.
      change (String x (a ++ String c rest))
        with (String x a ++ String c rest)%string in H.
      now rewrite (prefix_before_char _ _ _ _ Hn H).
    + destruct (IH H) as [Ha|Hr]; [left | now right].
      rewrite str_in_cons, Ha. apply orb_true_r.
Qed.

Lemma str_in_join_lines (pat : string) (lines : list string) :
  pat <> ""%string ->
  ~ In "010"%char (list_ascii_of_string pat) ->
  Forall (fun line => Py.str_in pat line = false) lines ->
  Py.str_in pat (Py.join Py.nl lines) = false.
Proof.
  intros Hne Hn. induction 1 as [|line rest Hl Hr IH].
  - destruct pat; [contradiction | reflexivity].
  - destruct rest as [|line' rest]; [exact Hl|].
    change (Py.join Py.nl (line :: line' :: rest))
      with (line ++ String "010"%char (Py.join Py.nl (line' :: rest)))%string.
    destruct (Py.str_in pat (line ++ String "010" (Py.join Py.nl (line' :: rest))))
      eqn:E; [|reflexivity].
    destruct (str_in_across_char _ _ _ _ Hne Hn E) as [H|H]; congruence.
Qed.

Lemma lower_join_lines (lines : list string) :
  Py.lower (Py.join Py.nl lines) = Py.join Py.nl (map Py.lower lines).
Proof.
  induction lines as [|line rest IH]; [reflexivity|].
  destruct rest as [|line' rest]; [reflexivity|].
  change (Py.join Py.nl (line :: line' :: rest))
    with (line ++ Py.nl ++ Py.join Py.nl (line' :: rest))%string.
  rewrite !lower_append, IH. reflexivity.
Qed.

Lemma filter_cookie_lines_clean (text : option string) :
  Py.str_in "extracting cookies" (Py.lower (filter_cookie_lines text)) = false.
Proof.
  unfold filter_cookie_lines.
  destruct (negb (Py.truthy text)); [reflexivity|].
  rewrite lower_join_lines. apply str_in_join_lines.
  - discriminate.
  - cbn. intuition discriminate.
  - apply Forall_forall. intros line Hin.
    apply in_map_iff in Hin. destruct Hin as (raw & <- & Hin).
    apply filter_In in Hin. destruct Hin as [_ Hc].
    unfold is_cookie_line in Hc. apply negb_true_iff in Hc.
    apply orb_false_iff in Hc. exact (proj1 Hc).
Qed.

Lemma echoed_app (t1 t2 : Trace) : echoed (t1 ++ t2) = echoed t1 ++ echoed t2.
Proof. apply collect_app. Qed.

(** X3: [run_yt_dlp] runs its command exactly once, capturing the output
    exactly when asked to hide cookie logs, and returns the result of that
    run as the process left it: the filter applies to what is printed
    again, not to what the classifiers read.  Without capture nothing is
    printed again.  With capture, each stream is printed again only when
    something is left of it, and no text printed again holds the words
    [extracting cookies], however they are capitalised in ASCII.  (Python
    lower-cases beyond ASCII and so drops, besides, a line that spells
    these words with the Kelvin sign for the letter k.) *)
Theorem run_yt_dlp_echo :
  forall (W : Type) (h : Handler W) (w : W) (cmd : list string) (hide : bool),
    let '(r, _, t) := run h (run_yt_dlp cmd hide) w in
    (exists o, attempts t = [(cmd, hide, o)] /\ r = completed hide o) /\
    (hide = false -> echoed t = []) /\
    Forall (fun e =>
              snd e <> ""%string /\
              forall spelling,
                Py.lower spelling = "extracting cookies"%string ->
                ~ occurs_in spelling (snd e))
           (echoed t).
Proof.
  intros W h w c hide.
  assert (clean : forall text spelling,
             Py.lower spelling = "extracting cookies"%string ->
             ~ occurs_in spelling (filter_cookie_lines text)).
  { intros text spelling Hs Ho.
    apply (occurs_in_lower _ _ _ Hs) in Ho. apply str_in_iff in Ho.
    rewrite filter_cookie_lines_clean in Ho. discriminate. }
  unfold run_yt_dlp, subprocess_run. destruct hide; cbn [negb bind trigger run].
  - destruct (h _ (Spawn c true) w) as [o w1].
    set (so := filter_cookie_lines (stdout (completed true o))).
    set (se := filter_cookie_lines (stderr (completed true o))).
    assert (Hso : forall spelling,
               Py.lower spelling = "extracting cookies"%string ->
               ~ occurs_in spelling so) by (intro; apply clean).
    assert (Hse : forall spelling,
               Py.lower spelling = "extracting cookies"%string ->
               ~ occurs_in spelling se) by (intro; apply clean).
    clearbody so se.
    destruct so as [|c1 so]; destruct se as [|c2 se];
      cbn [when nonempty Py.truthy bind trigger run].
    + split; [eexists; split; reflexivity|].
      split; [discriminate | constructor].
    + destruct (h _ (Echo true (String c2 se)) w1) as [[] w2].
      split; [eexists; split; reflexivity|].
      split; [discriminate|].
      repeat constructor; [discriminate | exact Hse].
    + destruct (h _ (Echo false (String c1 so)) w1) as [[] w2].
      split; [eexists; split; reflexivity|].
      split; [discriminate|].
      repeat constructor; [discriminate | exact Hso].
    + destruct (h _ (Echo false (String c1 so)) w1) as [[] w2].
      destruct (h _ (Echo true (String c2 se)) w2) as [[] w3].
      split; [eexists; split; reflexivity|].
      split; [discriminate|].
      repeat constructor; try discriminate; assumption.
  - destruct (h _ (Spawn c false) w) as [o w1].
    split; [eexists; split; reflexivity|].
    split; [reflexivity | constructor].
Qed.

(** ** How many attempts a session makes *)

Section Attempts.

Variable s : Session.

Lemma took_nil (n : nat) : took s n [].
Proof. split; [simpl; lia | constructor]. Qed.

Lemma took_app (n1 n2 : nat) (t1 t2 : Trace) :
  took s n1 t1 -> took s n2 t2 -> took s (n1 + n2) (t1 ++ t2).
Proof.
  intros [L1 F1] [L2 F2]. unfold took. rewrite attempts_app. split.
  - rewrite length_app. lia.
  - apply Forall_app. auto.
Qed.

Lemma took_more (n m : nat) (t : Trace) : took s n t -> n <= m -> took s m t.
Proof. intros [L F] H. split; [lia | exact F]. Qed.

Lemma took_inert (n : nat) (pre t : Trace) :
  attempts pre = [] -> took s n t -> took s n (pre ++ t).
Proof.
  intros Ha H. unfold took. rewrite attempts_app, Ha. exact H.
Qed.

Lemma took_retry (c : list string) (t : Trace) (r : Z + CompletedProcess) :
  In c (session_commands s) -> exec (retry s c) t r -> took s 1 t.
Proof.
  intros Hc H. apply retry_reads in H. destruct H as (_ & o & E & _).
  unfold took. rewrite E. split; [simpl; lia|].
  constructor; [|constructor]. split; [exact Hc | reflexivity].
Qed.

Lemma took_retry_next (c : list string) (b : bool) (t : Trace)
      (r : Z + State) :
  In c (session_commands s) ->
  exec (retry_result <-- retry s c ;; Next (mkState retry_result b)) t r ->
  took s 1 t /\ forall st', r = inr st' -> wpc_retried st' = b.
Proof.
  intros Hc H. apply exec_retry_next in H. destruct H as (r' & H & ->).
  split; [exact (took_retry _ _ _ Hc H)|].
  intros st' E. destruct r'; [discriminate|]. now injection E as <-.
Qed.

Ltac in_commands := unfold session_commands; cbn [In]; tauto.

(** Rule 1 and 2: one retry leaves [wpc_retried] as it was, a second one
    sets it. *)
Lemma rule_restart_took (st : State) (t : Trace) (r : Z + State) :
  exec (rule_restart s st) t r ->
  took s 2 t /\
  forall st', r = inr st' ->
              (wpc_retried st' = wpc_retried st /\ took s 1 t) \/
              wpc_retried st' = true.
Proof.
  unfold rule_restart.
  destruct (use_po_token s && is_str (provider_type s) "bgutil" &&
            has_pot_error (result st)).
  - intro H. apply exec_and_then in H.
    assert (R : forall t1 r1,
               exec (restart_and_retry s st) t1 r1 ->
               took s 1 t1 /\
               forall st1, r1 = inr st1 -> wpc_retried st1 = wpc_retried st).
    { unfold restart_and_retry. cbn [bind print trigger exec].
      intros t1 r1 ([] & ta & -> & restarted & tb & -> & H1).
      destruct restarted.
      - apply took_retry_next in H1; [|in_commands].
        destruct H1 as [T1 W1]. split; [|exact W1].
        apply (took_inert 1 [_; _] tb); [reflexivity | exact T1].
      - destruct H1 as [-> ->]. split.
        + apply (took_inert 1 [_; _] []); [reflexivity | apply took_nil].
        + intros st1 E. now injection E as <-. }
    assert (S2 : forall st1 t2 r2,
               exec (switch_if_still_failing s st1) t2 r2 ->
               took s 1 t2 /\
               forall st2, r2 = inr st2 ->
                           (st2 = st1 /\ took s 0 t2) \/ wpc_retried st2 = true).
    { unfold switch_if_still_failing. intros st1 t2 r2.
      destruct (has_pot_error (result st1)).
      - cbn [bind print trigger exec].
        intros ([] & ta & -> & ready & tb & -> & H2). destruct ready.
        + apply took_retry_next in H2; [|in_commands].
          destruct H2 as [T2 W2]. split.
          * apply (took_inert 1 [_; _] tb); [reflexivity | exact T2].
          * intros st2 E. right. now apply W2.
        + destruct H2 as [-> ->]. split.
          * apply (took_inert 1 [_; _] []); [reflexivity | apply took_nil].
          * intros st2 E. injection E as <-. left. split; [reflexivity|].
            apply (took_inert 0 [_; _] []); [reflexivity | apply took_nil].
      - intros [-> ->]. split; [apply took_nil|].
        intros st2 E. injection E as <-. left.
        split; [reflexivity | apply took_nil]. }
    destruct H as [(code & H & ->)|(st1 & t1 & t2 & H1 & H2 & ->)].
    + apply R in H. destruct H as [T _].
      split; [apply (took_more 1); [exact T | lia] | discriminate].
    + apply R in H1. destruct H1 as [T1 W1].
      apply S2 in H2. destruct H2 as [T2 W2].
      split; [exact (took_app 1 1 _ _ T1 T2)|].
      intros st' E. destruct (W2 _ E) as [[-> T0]|Hw]; [left | now right].
      split; [now apply W1 | exact (took_app 1 0 _ _ T1 T0)].
  - intros [-> ->]. split; [apply took_nil|].
    intros st' E. injection E as <-. left. split; [reflexivity | apply took_nil].
Qed.

Lemma rule_wpc_pending_took (st : State) (t : Trace) (r : Z + State) :
  exec (rule_wpc_pending s st) t r ->
  took s 1 t /\
  forall st', r = inr st' ->
              (st' = st /\ took s 0 t) \/ wpc_retried st' = true.
Proof.
  unfold rule_wpc_pending.
  destruct (use_po_token s && has_wpc_error (result st)).
  - cbn [bind print trigger exec].
    intros ([] & t1 & -> & [] & t2 & -> & H).
    apply took_retry_next in H; [|in_commands]. destruct H as [T Hw].
    split.
    + apply (took_inert 1 [_; _] t2); [reflexivity | exact T].
    + intros st' E. right. now apply Hw.
  - intros [-> ->]. split; [apply took_nil|].
    intros st' E. injection E as <-. left. split; [reflexivity | apply took_nil].
Qed.

Lemma rule_wpc_switch_took (st : State) (t : Trace) (r : Z + State) :
  exec (rule_wpc_switch s st) t r ->
  took s 1 t /\ (took s 0 t \/ wpc_retried st = false).
Proof.
  unfold rule_wpc_switch.
  destruct (use_po_token s && has_pot_error (result st) &&
            negb (wpc_retried st)) eqn:G.
  - cbn [bind print trigger exec].
    intros ([] & t1 & -> & ready & t2 & -> & H).
    apply andb_true_iff in G. destruct G as [_ G].
    apply negb_true_iff in G.
    split; [|now right]. destruct ready.
    + apply took_retry_next in H; [|in_commands]. destruct H as [T _].
      apply (took_inert 1 [_; _] t2); [reflexivity | exact T].
    + destruct H as [-> ->].
      apply (took_inert 1 [_; _] []); [reflexivity | apply took_nil].
  - intros [-> ->]. split; [apply took_nil | left; apply took_nil].
Qed.

(** The three token rules make at most three attempts: a retry of rule 4
    excludes those of rules 2 and 3. *)
Lemma token_rules_took (st : State) (t : Trace) (r : Z + State) :
  wpc_retried st = false ->
  exec (token_rules s st) t r -> took s 3 t.
Proof.
  unfold token_rules. intros W0 H. apply exec_and_then in H.
  destruct H as [(code & H & ->)|(st1 & t1 & t2 & H1 & H2 & ->)].
  - apply rule_restart_took in H. destruct H as [T _].
    apply (took_more 2); [exact T | lia].
  - apply rule_restart_took in H1. destruct H1 as [T1 W1].
    specialize (W1 st1 eq_refl).
    apply exec_and_then in H2.
    destruct H2 as [(code & H2 & ->)|(st2 & t3 & t4 & H2 & H3 & ->)].
    + apply rule_wpc_pending_took in H2. destruct H2 as [T2 _].
      exact (took_app 2 1 _ _ T1 T2).
    + apply rule_wpc_pending_took in H2. destruct H2 as [T2 W2].
      specialize (W2 st2 eq_refl).
      apply rule_wpc_switch_took in H3. destruct H3 as [T3 [T0|W3]].
      * apply (took_more (2 + (1 + 0))); [|lia].
        apply took_app; [exact T1|]. apply took_app; assumption.
      * destruct W2 as [[-> T2']|W2]; [|congruence].
        destruct W1 as [[_ T1']|W1]; [|congruence].
        apply (took_more (1 + (0 + 1))); [|lia].
        apply took_app; [exact T1'|]. apply took_app; assumption.
Qed.

Lemma ladder_took (st : State) (t : Trace) (r : Z + State) :
  wpc_retried st = false ->
  exec (ladder s st) t r -> took s 5 t.
Proof.
  unfold ladder. intros W0 H. apply exec_and_then in H.
  destruct H as [(code & H & ->)|(st1 & t1 & t2 & H1 & H2 & ->)].
  - apply (took_more 3); [|lia]. exact (token_rules_took _ _ _ W0 H).
  - apply (token_rules_took _ _ _ W0) in H1.
    assert (R5 : forall st t r, exec (rule_web_safari s st) t r -> took s 1 t).
    { clear. intros st t r. unfold rule_web_safari.
      destruct (Py.truthy (cookies_from_browser (params s)) &&
                negb (Py.truthy (player_client (params s))) &&
                has_403_error (result st)).
      - cbn [bind print trigger exec]. intros ([] & t1 & -> & H).
        apply took_retry_next in H; [|in_commands]. destruct H as [T _].
        apply (took_inert 1 [_] t1); [reflexivity | exact T].
      - intros [-> ->]. apply took_nil. }
    assert (R6 : forall st t r, exec (rule_fallback s st) t r -> took s 1 t).
    { clear. intros st t r. unfold rule_fallback.
      destruct (negb (audio_only (params s)) && format_from_quality s).
      - cbn [bind print trigger exec]. intros ([] & t1 & -> & H).
        apply exec_and_then in H.
        destruct H as [(code & H & ->)|(rr & ta & tb & H & Hk & ->)].
        + apply took_retry in H; [|in_commands].
          apply (took_inert 1 [_] t1); [reflexivity | exact H].
        + apply took_retry in H; [|in_commands].
          cbn [bind print trigger exec Return] in Hk.
          destruct Hk as ([] & t' & -> & -> & ->).
          apply (took_inert 1 [_] (ta ++ [_])); [reflexivity|].
          apply (took_app 1 0); [exact H|].
          apply (took_inert 0 [_] []); [reflexivity | apply took_nil].
      - intros [-> ->]. apply took_nil. }
    apply exec_and_then in H2.
    destruct H2 as [(code & H2 & ->)|(st2 & t3 & t4 & H2 & H3 & ->)].
    + apply R5 in H2. apply (took_more (3 + 1)); [|lia]. now apply took_app.
    + apply R5 in H2. apply exec_and_then in H3.
      destruct H3 as [(code & H3 & ->)|(st3 & t5 & t6 & H3 & H4 & ->)].
      * apply R6 in H3. apply (took_more (3 + (1 + 1))); [|lia].
        apply took_app; [exact H1|]. now apply took_app.
      * apply R6 in H3. cbn [bind print trigger exec Next] in H4.
        destruct H4 as ([] & t' & -> & -> & ->).
        apply (took_more (3 + (1 + (1 + 0)))); [|lia].
        apply took_app; [exact H1|]. apply took_app; [exact H2|].
        apply took_app; [exact H3|].
        apply (took_inert 0 [_] []); [reflexivity | apply took_nil].
Qed.

Lemma execute_took (t : Trace) (rc : Z) :
  exec (execute s) t rc ->
  (exists o rest, attempts t = (cmd s, hide_cookie_logs s, o) :: rest) /\
  took s 6 t.
Proof.
  unfold execute. intro H.
  apply exec_bind in H. destruct H as (r & ta & tb & H & Hm & ->).
  assert (Eb : tb = []) by (destruct r; destruct Hm; assumption).
  subst tb. rewrite app_nil_r. clear Hm.
  apply exec_and_then in H.
  destruct H as [(code & H & ->)|(st0 & t1 & t2 & H1 & H2 & ->)].
  - apply exec_first_attempt in H. destruct H as (r' & H & _).
    pose proof (took_retry (cmd s) _ _ ltac:(in_commands) H) as T.
    apply retry_reads in H. destruct H as (_ & o & E & _).
    split; [exists o, []; exact E|].
    apply (took_more 1); [exact T | lia].
  - apply exec_first_attempt in H1. destruct H1 as (r' & H1 & E).
    pose proof (took_retry (cmd s) _ _ ltac:(in_commands) H1) as T.
    apply retry_reads in H1. destruct H1 as (_ & o & Ea & Hr).
    assert (W0 : wpc_retried st0 = false).
    { destruct r'; [discriminate|]. injection E as ->. reflexivity. }
    apply (ladder_took _ _ _ W0) in H2.
    split.
    + rewrite attempts_app, Ea. eexists. eexists. reflexivity.
    + exact (took_app 1 5 _ _ T H2).
Qed.

End Attempts.

(** X4: a session of the retry engine (lines 873-965) makes at most six
    attempts, whatever the environment answers.  The first attempt runs the
    prepared command; every attempt runs the prepared command or one of the
    four commands the ladder rebuilds from it ([session_commands]); and
    every attempt captures the output exactly when the session uses
    browser cookies. *)
Theorem session_attempts :
  forall (W : Type) (h : Handler W) (w : W) (s : Session),
    let '(_, _, t) := run h (execute s) w in
    (exists o rest, attempts t = (cmd s, hide_cookie_logs s, o) :: rest) /\
    length (attempts t) <= 6 /\
    Forall (fun a => In (fst (fst a)) (session_commands s) /\
                     snd (fst a) = hide_cookie_logs s)
           (attempts t).
Proof.
  intros W h w s. pose proof (run_exec h (execute s) w) as H.
  destruct (run h (execute s) w) as [[rc w'] t]. cbn [fst snd] in H.
  apply execute_took in H. destruct H as [H1 [H2 H3]]. auto.
Qed.

(** The bound is reached. *)
Example six_attempts :
  let a := with_cookies_from_browser (default_args "https://youtu.be/x")
             (Some "chrome") in
  let world :=
    with_children quiet_world
      [ mkOutcome 1 "" "ERROR: pot provider unreachable";
        mkOutcome 1 "" "ERROR: pot provider unreachable";
        mkOutcome 1 "" "[pot:wpc] waiting for the browser";
        mkOutcome 1 "" forbidden_output;
        mkOutcome 1 "" "";
        mkOutcome 1 "" "" ] in
  let '(rc, _, t) := run scripted (download_video a) world in
  length (attempts t) = 6 /\ announced t = [1; 2; 3; 5; 6] /\ rc = 1%Z.
Proof. vm_compute. repeat split. Qed.

(** ** The command of the last rule *)

Lemma list_in_iff (x : string) (l : list string) :
  Py.list_in x l = true <-> In x l.
Proof.
  unfold Py.list_in. rewrite existsb_exists. split.
  - intros (y & Hy & E). apply String.eqb_eq in E. now subst.
  - intro H. exists x. split; [exact H | apply String.eqb_refl].
Qed.

Lemma list_in_false (x : string) (l : list string) :
  Py.list_in x l = false <-> ~ In x l.
Proof.
  rewrite <- list_in_iff. destruct (Py.list_in x l); split; intro H;
    congruence.
Qed.

Lemma index_first (x : string) (pre rest : list string) :
  ~ In x pre -> Py.index x (pre ++ x :: rest) = length pre.
Proof.
  induction pre as [|y pre IH]; intro Hn; cbn [app Py.index length].
  - now rewrite String.eqb_refl.
  - destruct (String.eqb_spec y x) as [->|_].
    + exfalso. apply Hn. now left.
    + f_equal. apply IH. intro H. apply Hn. now right.
Qed.

Lemma set_nth_after (pre : list string) (x v w : string) (post : list string) :
  Py.set_nth (length pre + 1) w (pre ++ x :: v :: post) = pre ++ x :: w :: post.
Proof.
  induction pre as [|y pre IH]; [reflexivity|].
  cbn [app length Nat.add Py.set_nth]. now rewrite IH.
Qed.

(** X5: the command of the format fallback (lines 946-953).  When the
    prepared command holds [-f] followed by a value, the value after the
    first [-f] is replaced by the fallback format and no other token
    changes; when the first [-f] is the last token, the command is left as
    it is; when there is no [-f], the option and the fallback format are
    appended. *)
Theorem fallback_cmd_shape (s : Session) :
  let retry_format := fallback_format_for_quality (quality (params s)) in
  (forall pre value post,
      cmd s = pre ++ "-f"%string :: value :: post ->
      ~ In "-f"%string pre ->
      fallback_cmd s = pre ++ "-f"%string :: retry_format :: post) /\
  (forall pre,
      cmd s = pre ++ ["-f"%string] -> ~ In "-f"%string pre ->
      fallback_cmd s = cmd s) /\
  (~ In "-f"%string (cmd s) ->
   fallback_cmd s = cmd s ++ ["-f"%string; retry_format]).
Proof.
  intro retry_format. unfold fallback_cmd. fold retry_format.
  split; [|split].
  - intros pre value post E Hn. rewrite E.
    rewrite (proj2 (list_in_iff _ _)) by (apply in_or_app; right; now left).
    rewrite index_first by exact Hn.
    replace (List.length pre + 1 <?
             List.length (pre ++ "-f"%string :: value :: post))%nat
      with true.
    + apply set_nth_after.
    + symmetry. apply Nat.ltb_lt. rewrite length_app. simpl. lia.
  - intros pre E Hn. rewrite E.
    rewrite (proj2 (list_in_iff _ _)) by (apply in_or_app; right; now left).
    rewrite index_first by exact Hn.
    replace (List.length pre + 1 <? List.length (pre ++ ["-f"%string]))%nat
      with false; [reflexivity|].
    symmetry. apply Nat.ltb_ge. rewrite length_app. simpl. lia.
  - intro Hn. now rewrite (proj2 (list_in_false _ _) Hn).
Qed.

(** ** The third classifier *)

(** X6: [has_wpc_error] holds exactly when [pot:wpc] or [webpoclient]
    occurs in the lower-cased concatenation of the captured standard output
    and standard error, an absent stream counting as empty.  An output with
    [pot:wpc] and the word [error] is also a token error for
    [has_pot_error], since [pot:wpc] contains [pot]: the two classifiers
    overlap. *)
Theorem has_wpc_error_iff (result : CompletedProcess) :
  let text :=
    Py.lower (Py.text_of (stdout result) ++ Py.text_of (stderr result)) in
  (has_wpc_error result = true <->
   occurs_in "pot:wpc" text \/ occurs_in "webpoclient" text) /\
  (occurs_in "pot:wpc" text -> occurs_in "error" text ->
   has_pot_error result = true).
Proof.
  intro text. subst text. unfold has_wpc_error, has_pot_error, output_text.
  set (text := Py.lower _). split.
  - rewrite orb_true_iff, !str_in_iff. reflexivity.
  - intros (before & after & E) He. apply andb_true_iff.
    rewrite !str_in_iff. split; [|exact He].
    exists before, (":wpc" ++ after)%string. rewrite E. reflexivity.
Qed.

(** ** What [prepare] establishes *)

Lemma preset_fallback (q : option string) :
  Py.truthy q = true ->
  Py.truthy (dict_get QUALITY_PRESETS (Py.text_of q)) = true ->
  fallback_matches q (dict_get QUALITY_PRESETS (Py.text_of q)).
Proof.
  destruct q as [q|]; [|discriminate]. intros _. cbn [Py.text_of].
  unfold QUALITY_PRESETS. cbn [dict_get].
  repeat match goal with
         | |- context [String.eqb ?k q] =>
             destruct (String.eqb_spec k q) as [<-|_]
         end; try discriminate; intros _.
  - right. split; [now left | reflexivity].
  - left. exists "1080". split; reflexivity.
  - left. exists "720". split; reflexivity.
  - left. exists "480". split; reflexivity.
  - left. exists "360". split; reflexivity.
  - right. split; [now right | reflexivity].
Qed.

Lemma quality_defaults (fs q : option string) (audio : bool) :
  let q' := if negb (Py.truthy fs) && negb (Py.truthy q) && negb audio
            then Some "best"%string else q in
  Py.truthy q' = false -> q = q' /\ (audio = true \/ Py.truthy fs = true).
Proof.
  intro q'. subst q'.
  destruct (Py.truthy fs), (Py.truthy q) eqn:Eq, audio; cbn [negb andb];
    intro H; try discriminate H; try congruence; auto.
Qed.

Lemma inr_eq {A B : Type} (x y : B) : @inr A B x = inr y -> x = y.
Proof. now injection 1. Qed.

Lemma prepared_exec (a : Args) (t : Trace) (s : Session) :
  exec (prepare a) t (inr s) -> prepared a s /\ attempts t = [].
Proof.
  unfold prepare. intro H.
  repeat exec_step H.
  all: try match goal with
       | H : inr _ = inl _ |- _ => discriminate H
       end.
  all: apply inr_eq in H; subst s.
  all: destruct (environ_collect _ Hproxy) as (Ha & _).
  all: split;
    [|unfold attempts; cbn [collect attempt_of];
      rewrite ?collect_app, Ha; reflexivity].
  all: unfold prepared, cookie_conflict, format_conflict, token_retry_client,
       retry_client_or_mweb, Py.or_else.
  all: cbn [params cmd use_po_token provider_type wpc_available
            po_token_client format_from_quality retry_client
            set_format set_wpc_browser_path cookies_from_browser cookies_file
            player_client audio_only quality format_spec].
  all: repeat match goal with
         | H : _ && negb false = _ |- _ => rewrite andb_true_r in H
         | H : true && _ = _ |- _ => cbn [andb] in H
         | H : false && _ = _ |- _ => clear H
         | H : negb _ = false |- _ => apply negb_false_iff in H
         end.
  all: split; [auto|]. all: split; [auto|].
  all: set (q' := if negb (Py.truthy (format_spec a)) &&
                     negb (Py.truthy (quality a)) && negb (audio_only a)
                  then Some "best"%string else quality a) in *.
  all: split;
    [ split; [congruence|]; split; [reflexivity|];
      intro U;
      first
        [ discriminate U
        | split; [assumption|];
          destruct (Py.truthy (player_client a)) eqn:Ep; cbv iota;
          [now rewrite Ep|];
          destruct (Py.truthy (cookies_from_browser a) ||
                    Py.truthy (cookies_file a)); reflexivity ]
    | split; [reflexivity|]; split;
      [ apply quality_defaults
      | intro Hq; rewrite Hq in *; cbn [andb] in *;
        match goal with
        | H : negb _ = false |- _ => apply negb_false_iff in H
        end;
        split; [reflexivity | now apply preset_fallback] ] ].
Qed.

(** ** Sessions without browser cookies *)

(** X7: a session without browser cookies is never classified.  When
    [cookies_from_browser] is not set, no attempt captures its output, the
    only rule of the ladder that can fire is the format fallback (rule 6),
    and the session makes at most two attempts. *)
Theorem plain_session_only_falls_back :
  forall (W : Type) (h : Handler W) (w : W) (s : Session),
    Py.truthy (cookies_from_browser (params s)) = false ->
    let '(_, _, t) := run h (execute s) w in
    (announced t = [] \/ announced t = [6]) /\
    length (attempts t) <= 2 /\
    Forall (fun a => snd (fst a) = false) (attempts t).
Proof.
  intros W h w s Hc. pose proof (run_exec h (execute s) w) as H.
  destruct (run h (execute s) w) as [[rc w'] t]. cbn [fst snd] in H.
  pose proof (uncaptured_session_only_falls_back s t rc Hc H) as Ha.
  pose proof (execute_summary s t rc H) as (_ & Hl & _).
  pose proof (execute_took s t rc H) as (_ & _ & Hf).
  split; [exact Ha|]. split.
  - unfold codes in Hl. rewrite length_map in Hl.
    destruct Ha as [E|E]; rewrite E in Hl; simpl in Hl; lia.
  - eapply Forall_impl; [|exact Hf]. intros a [_ E]. rewrite E. exact Hc.
Qed.

Lemma android_session_prepared :
  fst (fst (run scripted (prepare android_args) quiet_world)) =
  inr android_session.
Proof. vm_compute. reflexivity. Qed.

Lemma plain_session_only_falls_back_run :
  let '(_, _, t) :=
    run scripted (execute android_session)
      (with_children quiet_world [mkOutcome 1 "" forbidden_output]) in
  (announced t = [] \/ announced t = [6]) /\
  length (attempts t) <= 2 /\
  Forall (fun a => snd (fst a) = false) (attempts t).
Proof.
  apply (plain_session_only_falls_back Script scripted
           (with_children quiet_world [mkOutcome 1 "" forbidden_output])
           android_session).
  reflexivity.
Defined.

(** ** Sessions as [prepare] sets them up *)

(** X8: what the set-up phase of [download_video] (lines 729-872) hands to
    the retry engine.  Whenever it ends with a session and not with an exit
    code: no download was attempted yet; the invocation is a download
    (neither list-formats nor info-only) with no conflict of cookie sources
    or of format and quality; the session keeps the cookie sources, the
    player client and the audio flag of the arguments; the token provider
    is in use exactly when [auto_po_token] is set, a provider was then
    found, and the retries of the token rules use the given player client,
    else [web_safari] with a cookie source, else [mweb]; and the format
    comes from a quality preset exactly when the session has a quality, in
    which case it is the entry of [QUALITY_PRESETS] and the fallback
    format has the same height cap (none for [best] and [worst]), while
    otherwise the download is audio-only or has an explicit format. *)
Theorem prepared_session :
  forall (W : Type) (h : Handler W) (w : W) (a : Args),
    let '(r, _, t) := run h (prepare a) w in
    forall s, r = inr s -> prepared a s /\ attempts t = [].
Proof.
  intros W h w a. pose proof (run_exec h (prepare a) w) as H.
  destruct (run h (prepare a) w) as [[r w'] t]. cbn [fst snd] in H.
  intros s ->. now apply prepared_exec.
Qed.

(** ** Listing formats and printing metadata *)

Lemma environ_quiet (t : Trace) :
  forallb is_environ_get t = true ->
  collect mkdir_of t = [] /\ collect provider_call_of t = [] /\
  collect info_of t = [].
Proof.
  intro H. rewrite forallb_forall in H.
  repeat split; apply collect_inert; intros [X e x] Ho;
    specialize (H _ Ho); destruct e; try discriminate; reflexivity.
Qed.

Lemma echoes_quiet (t : Trace) :
  forallb is_echo t = true ->
  collect mkdir_of t = [] /\ collect provider_call_of t = [] /\
  collect info_of t = [].
Proof.
  intro H. rewrite forallb_forall in H.
  repeat split; apply collect_inert; intros [X e x] Ho;
    specialize (H _ Ho); destruct e; try discriminate; reflexivity.
Qed.

(** Reads the trace of a run of [prepare]: explicit entries, the lookups
    of the proxy settings and stretches of echoes. *)
Ltac read_prepare :=
  unfold codes, finalized, announced, attempts, created, provider_calls,
    info_calls in *;
  repeat match goal with
         | H : forallb is_environ_get ?e = true |- _ =>
             let H1 := fresh "Hq" in
             let H2 := fresh "Hs" in
             pose proof (environ_quiet e H) as H1;
             pose proof (environ_collect e H) as H2;
             destruct H1 as (? & ? & ?); destruct H2 as (? & ? & ?); clear H
         | H : forallb is_echo ?e = true |- _ =>
             let H1 := fresh "Hq" in
             let H2 := fresh "Hs" in
             pose proof (echoes_quiet e H) as H1;
             pose proof (echoes_collect e H) as H2;
             destruct H1 as (? & ? & ?); destruct H2 as (? & ? & ?); clear H
         end;
  repeat (rewrite ?collect_app;
          cbn [collect attempt_of rule_of finalize_of mkdir_of
               provider_call_of info_of map length app snd];
          repeat match goal with
                 | |- context [rule_of_message ladder_messages ?m] =>
                     let v := eval vm_compute in
                                (rule_of_message ladder_messages m) in
                     change (rule_of_message ladder_messages m) with v
                 end;
          repeat match goal with
                 | H : collect _ _ = [] |- _ => rewrite H
                 end).

Lemma listing_exec (a : Args) (t : Trace) (r : Z + Session) :
  list_formats a = true ->
  exec (prepare a) t r ->
  exists code,
    r = inl code /\ announced t = [] /\ finalized t = 0 /\ created t = [] /\
    ((attempts t = [] /\ (code = 1%Z \/ code = 2%Z)) \/
     exists pre o,
       attempts t = [(pre ++ ["-F"%string; url a],
                      Py.truthy (cookies_from_browser a), o)] /\
       code = exit_code o).
Proof.
  unfold prepare. intros L H. rewrite L in H.
  repeat exec_step H.
  all: repeat match goal with x : unit |- _ => destruct x end.
  all: eexists; split; [exact H|].
  all: read_prepare.
  all: split; [reflexivity|]. all: split; [reflexivity|].
  all: split; [reflexivity|].
  all: first [ left; split; [reflexivity|]; auto; fail
             | right; eexists; eexists; split; [reflexivity|];
               apply returncode_completed ].
Qed.

Lemma info_exec (a : Args) (t : Trace) (r : Z + Session) :
  list_formats a = false -> info_only a = true ->
  exec (prepare a) t r ->
  exists code,
    r = inl code /\ announced t = [] /\ finalized t = 0 /\ created t = [] /\
    attempts t = [] /\ provider_calls t = 0 /\
    ((info_calls t = [] /\ (code = 1%Z \/ code = 2%Z)) \/
     exists cmd_base,
       info_calls t =
         [(cmd_base, url a, Py.truthy (cookies_from_browser a), code)]).
Proof.
  unfold prepare. intros L I H. rewrite L, I in H.
  cbn [negb andb] in H. rewrite andb_false_r in H.
  repeat exec_step H.
  all: repeat match goal with x : unit |- _ => destruct x end.
  all: eexists; split; [exact H|].
  all: read_prepare.
  all: repeat (split; [reflexivity|]).
  all: first [ left; split; [reflexivity|]; auto; fail
             | right; eexists; reflexivity ].
Qed.

(** X9: in the two inspection modes [download_video] starts no download.
    With list-formats set, it announces no rule of the ladder, never
    finalizes and creates no directory; it stops before any attempt with
    exit code 1 or 2, or it makes exactly one attempt, the command built so
    far followed by [-F] and the URL, captured exactly when browser cookies
    are used, and returns the exit code of that attempt.  With info-only
    set and list-formats not, it makes no attempt of its own (no call of
    [run_yt_dlp]) and never calls the token-provider manager; it stops with
    exit code 1 or 2 before any call of [print_video_info], or calls it
    exactly once, for the URL, and returns its answer.  The extractor is
    still run in that mode, by [print_video_info] during that one call
    (line 625), which is not an attempt. *)
Theorem inspection_modes :
  forall (W : Type) (h : Handler W) (w : W) (a : Args),
    let '(rc, _, t) := run h (download_video a) w in
    (list_formats a = true ->
     announced t = [] /\ finalized t = 0 /\ created t = [] /\
     ((attempts t = [] /\ (rc = 1%Z \/ rc = 2%Z)) \/
      exists pre o,
        attempts t = [(pre ++ ["-F"%string; url a],
                       Py.truthy (cookies_from_browser a), o)] /\
        rc = exit_code o)) /\
    (list_formats a = false -> info_only a = true ->
     announced t = [] /\ finalized t = 0 /\ created t = [] /\
     attempts t = [] /\ provider_calls t = 0 /\
     ((info_calls t = [] /\ (rc = 1%Z \/ rc = 2%Z)) \/
      exists cmd_base,
        info_calls t =
          [(cmd_base, url a, Py.truthy (cookies_from_browser a), rc)])).
Proof.
  intros W h w a. rewrite download_video_run.
  pose proof (run_exec h (prepare a) w) as H.
  destruct (run h (prepare a) w) as [[r w1] t0]. cbn [fst snd] in H.
  destruct r as [code|s].
  - split.
    + intro L. destruct (listing_exec a t0 _ L H) as (c & E & F).
      injection E as ->. exact F.
    + intros L I. destruct (info_exec a t0 _ L I H) as (c & E & F).
      injection E as ->. exact F.
  - destruct (run h (execute s) w1) as [[rc w2] t]. split.
    + intro L. destruct (listing_exec a t0 _ L H) as (c & E & _).
      discriminate E.
    + intros L I. destruct (info_exec a t0 _ L I H) as (c & E & _).
      discriminate E.
Qed.

(** ** Tasks *)

Lemma does_bind {A B : Type} (p : Task A) (f : A -> Task B)
      (l : Log) (b : B) :
  does (task_bind p f) l b <->
  exists a l1 l2, does p l1 a /\ does (f a) l2 b /\ l = l1 ++ l2.
Proof.
  revert l. induction p as [a|X q k IH]; intro l; cbn [task_bind does].
  - split.
    + intro H. exists a, [], l. auto.
    + intros (a' & l1 & l2 & [-> ->] & H & ->). exact H.
  - split.
    + intros (x & l' & -> & H). apply IH in H.
      destruct H as (a & l1 & l2 & H1 & H2 & ->).
      exists a, (Got q x :: l1), l2. split; [|auto].
      exists x, l1. auto.
    + intros (a & l1 & l2 & (x & l' & -> & H1) & H2 & ->).
      exists x, (l' ++ l2). split; [reflexivity|].
      apply IH. exists a, l', l2. auto.
Qed.

Lemma perform_does {W A : Type} (h : Responder W) (p : Task A) (w : W) :
  does p (snd (perform h p w)) (fst (fst (perform h p w))).
Proof.
  revert w. induction p as [a|X q k IH]; intro w; cbn [perform does].
  - auto.
  - destruct (h X q w) as [x w1]. specialize (IH x w1).
    destruct (perform h (k x) w1) as [[a w2] l]. cbn [fst snd] in *.
    exists x, l. auto.
Qed.

Lemma pick_app {B : Type} (f : Reply -> option B) (l1 l2 : Log) :
  pick f (l1 ++ l2) = pick f l1 ++ pick f l2.
Proof.
  induction l1 as [|o r IH]; [reflexivity|].
  cbn [app pick]. destruct (f o); now rewrite IH.
Qed.

(** One step of the symbolic execution of [H : does p l r]. *)
Ltac does_step H :=
  first
    [ progress cbn [task_bind request does] in H
    | match type of H with
      | exists _, _ => let x := fresh "x" in destruct H as [x H]
      | ?l = _ /\ _ => let E := fresh "E" in destruct H as [E H]; subst l
      | does (task_bind (match ?c with _ => _ end) _) _ _ => destruct c eqn:?
      | does (match ?c with _ => _ end) _ _ => destruct c eqn:?
      end ].

(** ** The MP3 script *)

Lemma truthy_text (v : option string) :
  Py.truthy v = true -> Py.text_of v <> ""%string.
Proof. destruct v as [[|c s]|]; discriminate. Qed.

Section Mp3Facts.

Variable joinpath : string -> string -> string.

Lemma download_songs_does (songs : list string) (dir yt ff : string)
      (n : Z) (l : Log) (r : Z) :
  does (Mp3.download_songs joinpath songs dir yt ff n) l r ->
  map fst (spawned l) =
    map (fun song => (Mp3.mp3_cmd joinpath song dir yt ff, false)) songs /\
  made_dirs l = [] /\
  r = (n + failed_count l)%Z.
Proof.
  revert n l. induction songs as [|song rest IH]; intros n l H.
  - destruct H as [-> ->]. repeat split. unfold failed_count. simpl. lia.
  - cbn [Mp3.download_songs] in H. apply does_bind in H.
    destruct H as (code & l1 & l2 & H1 & H2 & ->).
    apply IH in H2. destruct H2 as (Hs & Hd & ->).
    unfold Mp3.download_one in H1.
    cbn [task_bind request does] in H1.
    destruct H1 as ([] & la & -> & o & lb & -> & H1).
    assert (E : exists b m, lb = [Got (Say b m) tt] /\ code = exit_code o).
    { destruct (exit_code o =? 0)%Z; cbn [task_bind request does] in H1;
        destruct H1 as ([] & lc & -> & -> & ->);
        eexists; eexists; split; reflexivity. }
    destruct E as (b & m & -> & ->).
    unfold spawned, made_dirs, failed_count in *.
    cbn [app pick subprocess_of makedirs_of map fst snd filter].
    rewrite Hs, Hd. split; [reflexivity|]. split; [reflexivity|].
    unfold spawned. cbn [app pick subprocess_of filter snd].
    destruct (exit_code o =? 0)%Z; cbn [negb length]; lia.
Qed.

Lemma resolve_tools_does (l : Log) (r : Z + string * string) :
  does (Mp3.resolve_tools joinpath) l r ->
  spawned l = [] /\ made_dirs l = [] /\
  match r with
  | inr (yt_dlp_bin, ffmpeg_bin) =>
      yt_dlp_bin <> ""%string /\ ffmpeg_bin <> ""%string /\ said l = [] /\
      (forall p, In ("yt-dlp"%string, Some p) (lookups l) -> yt_dlp_bin = p) /\
      (forall p, In ("ffmpeg"%string, Some p) (lookups l) -> ffmpeg_bin = p)
  | inl code =>
      code = 1%Z /\
      exists missing,
        said l = [(true, Mp3.msg_missing missing)] /\
        (missing = ["yt-dlp"%string] \/ missing = ["ffmpeg"%string] \/
         missing = ["yt-dlp"%string; "ffmpeg"%string])
  end.
Proof.
  unfold Mp3.resolve_tools. intro H.
  repeat does_step H.
  all: repeat match goal with x : unit |- _ => destruct x end.
  all: subst r; split; [reflexivity|]; split; [reflexivity|].
  all: unfold said, lookups; cbn [pick said_of which_of].
  all: match goal with
       | Hb : Py.truthy ?y && Py.truthy ?f = true |- _ =>
           apply andb_true_iff in Hb; destruct Hb as [Hy Hf];
           split; [exact (truthy_text _ Hy)|];
           split; [exact (truthy_text _ Hf)|];
           split; [reflexivity|];
           split; intros p [E|[E|[]]];
           first [discriminate E | inversion E; reflexivity]
       | Hb : Py.truthy ?y && Py.truthy ?f = false |- _ =>
           split; [reflexivity|];
           eexists; split; [reflexivity|];
           unfold Mp3.missing_tools;
           destruct (Py.truthy y), (Py.truthy f);
           cbn [negb app]; first [discriminate Hb | auto]
       end.
Qed.

Lemma main_does (songs : list string) (l : Log) (rc : Z) :
  does (Mp3.main joinpath songs) l rc ->
  (rc = 1%Z /\ spawned l = [] /\ made_dirs l = [] /\
   exists missing,
     said l = [(true, Mp3.msg_missing missing)] /\
     (missing = ["yt-dlp"%string] \/ missing = ["ffmpeg"%string] \/
      missing = ["yt-dlp"%string; "ffmpeg"%string])) \/
  (exists yt_dlp_bin ffmpeg_bin home,
     let output_dir := joinpath home "Downloads" in
     made_dirs l = [output_dir] /\
     map fst (spawned l) =
       map (fun song =>
              (Mp3.mp3_cmd joinpath song output_dir yt_dlp_bin ffmpeg_bin,
               false))
           songs /\
     rc = (if (failed_count l =? 0)%Z then 0 else 1)%Z /\
     last (said l) (false, ""%string) =
       if (failed_count l =? 0)%Z
       then (false, ("All downloads saved in: " ++ output_dir)%string)
       else (true, ("Completed with " ++ str_of_int (failed_count l) ++
                    " failure(s).")%string)).
Proof.
  unfold Mp3.main. intro H. apply does_bind in H.
  destruct H as (tools & l1 & l2 & H1 & H2 & ->).
  apply resolve_tools_does in H1. destruct H1 as (Hs & Hd & Hr).
  destruct tools as [code|[yt ff]].
  - left. destruct H2 as [-> ->]. rewrite app_nil_r.
    destruct Hr as (-> & missing & Hm). repeat split; try assumption.
    exists missing. exact Hm.
  - right. destruct Hr as (_ & _ & Hq & _).
    cbn [task_bind request does] in H2.
    destruct H2 as (home & la & -> & [] & lb & -> & H2).
    apply does_bind in H2. destruct H2 as (n & lc & ld & H3 & H4 & ->).
    apply download_songs_does in H3. destruct H3 as (Hc & Hm & ->).
    rewrite Z.add_0_l in H4.
    exists yt, ff, home. cbv zeta.
    assert (F : failed_count
                  (l1 ++ Got PathHome home ::
                   Got (MakeDirs (joinpath home "Downloads")) tt :: lc ++ ld) =
                failed_count lc /\ spawned ld = [] /\ made_dirs ld = [] /\
                exists m, said ld = [m] /\
                  m = (if (failed_count lc =? 0)%Z
                       then (false, ("All downloads saved in: " ++
                                     joinpath home "Downloads")%string)
                       else (true, ("Completed with " ++
                                    str_of_int (failed_count lc) ++
                                    " failure(s).")%string)) /\
                  rc = (if (failed_count lc =? 0)%Z then 0 else 1)%Z).
    { destruct (failed_count lc =? 0)%Z eqn:E; cbn [negb] in H4;
        cbn [task_bind request does] in H4;
        destruct H4 as ([] & le & -> & -> & ->);
        (split; [|split; [reflexivity|]; split; [reflexivity|];
                  eexists; split; [reflexivity|]; split; reflexivity]);
        unfold failed_count, spawned; rewrite !pick_app;
        cbn [pick subprocess_of app]; rewrite !pick_app;
        fold (spawned l1); rewrite Hs; cbn [pick subprocess_of app];
        now rewrite app_nil_r. }
    destruct F as (-> & Sd & Md & m & Em & -> & ->).
    unfold made_dirs, spawned, said in *.
    rewrite !pick_app. cbn [pick makedirs_of subprocess_of said_of].
    rewrite !pick_app, Hd, Hs, Hm, Sd, Md, Em, Hq.
    cbn [app]. rewrite app_nil_r.
    split; [reflexivity|]. split; [exact Hc|]. split; [reflexivity|].
    rewrite last_last. reflexivity.
Qed.

End Mp3Facts.

(** X10: [resolve_tools] of the MP3 script runs no process and creates no
    directory.  When it returns a pair of paths, both are non-empty,
    nothing was printed, and a tool that [shutil.which] found is returned
    as found: the fallbacks serve only for a tool that is not on the search
    path.  Otherwise it exits with code 1 after exactly one message, on
    standard error, that names the missing tools: yt-dlp, ffmpeg, or both
    in this order. *)
Theorem resolve_tools_result :
  forall (W : Type) (h : Responder W) (w : W)
         (joinpath : string -> string -> string),
    let '(r, _, l) := perform h (Mp3.resolve_tools joinpath) w in
    spawned l = [] /\ made_dirs l = [] /\
    match r with
    | inr (yt_dlp_bin, ffmpeg_bin) =>
        yt_dlp_bin <> ""%string /\ ffmpeg_bin <> ""%string /\ said l = [] /\
        (forall p, In ("yt-dlp"%string, Some p) (lookups l) -> yt_dlp_bin = p) /\
        (forall p, In ("ffmpeg"%string, Some p) (lookups l) -> ffmpeg_bin = p)
    | inl code =>
        code = 1%Z /\
        exists missing,
          said l = [(true, Mp3.msg_missing missing)] /\
          (missing = ["yt-dlp"%string] \/ missing = ["ffmpeg"%string] \/
           missing = ["yt-dlp"%string; "ffmpeg"%string])
    end.
Proof.
  intros W h w joinpath.
  pose proof (perform_does h (Mp3.resolve_tools joinpath) w) as H.
  destruct (perform h (Mp3.resolve_tools joinpath) w) as [[r w'] l].
  cbn [fst snd] in H. now apply (resolve_tools_does joinpath).
Qed.

(** X11: the MP3 script as a whole, for every list of song queries.  Either
    a tool is missing: the exit code is 1, no process was run and no
    directory created.  Or the directory [Downloads] under the home
    directory is created and exactly one process is run per query, in the
    order of the queries, each with the command of [download_one] for its
    query and without capture, so a failed download does not stop the
    later ones; the exit code is 0 when no process failed and 1 otherwise,
    and the last message is the summary: where the files are, or, on
    standard error, the number of failures. *)
Theorem mp3_main_result :
  forall (W : Type) (h : Responder W) (w : W)
         (joinpath : string -> string -> string) (songs : list string),
    let '(rc, _, l) := perform h (Mp3.main joinpath songs) w in
    (rc = 1%Z /\ spawned l = [] /\ made_dirs l = [] /\
     exists missing,
       said l = [(true, Mp3.msg_missing missing)] /\
       (missing = ["yt-dlp"%string] \/ missing = ["ffmpeg"%string] \/
        missing = ["yt-dlp"%string; "ffmpeg"%string])) \/
    (exists yt_dlp_bin ffmpeg_bin home,
       let output_dir := joinpath home "Downloads" in
       made_dirs l = [output_dir] /\
       map fst (spawned l) =
         map (fun song =>
                (Mp3.mp3_cmd joinpath song output_dir yt_dlp_bin ffmpeg_bin,
                 false))
             songs /\
       rc = (if (failed_count l =? 0)%Z then 0 else 1)%Z /\
       last (said l) (false, ""%string) =
         if (failed_count l =? 0)%Z
         then (false, ("All downloads saved in: " ++ output_dir)%string)
         else (true, ("Completed with " ++ str_of_int (failed_count l) ++
                      " failure(s).")%string)).
Proof.
  intros W h w joinpath songs.
  pose proof (perform_does h (Mp3.main joinpath songs) w) as H.
  destruct (perform h (Mp3.main joinpath songs) w) as [[rc w'] l].
  cbn [fst snd] in H. now apply (main_does joinpath).
Qed.

(** ** The primary file of a download *)

Lemma max_by_size_spec (best : PathInfo) (rest : list PathInfo) :
  In (max_by_size best rest) (best :: rest) /\
  forall path, In path (best :: rest) ->
               (st_size path <= st_size (max_by_size best rest))%Z.
Proof.
  revert best. induction rest as [|p rest IH]; intro best.
  - split; [now left|]. intros path [<-|[]]. cbn. lia.
  - cbn [max_by_size].
    destruct (IH (if (st_size best <? st_size p)%Z then p else best))
      as [Hin Hmax].
    split.
    + destruct Hin as [E|Hin]; [|right; now right].
      rewrite <- E. destruct (st_size best <? st_size p)%Z;
        [right; now left | now left].
    + intros path [<-|[<-|Hp]].
      * specialize (Hmax _ (or_introl eq_refl)).
        destruct (Z.ltb_spec (st_size best) (st_size p)); lia.
      * specialize (Hmax _ (or_introl eq_refl)).
        destruct (Z.ltb_spec (st_size best) (st_size p)); lia.
      * apply Hmax. now right.
Qed.

Lemma filter_nil_iff {A : Type} (f : A -> bool) (l : list A) :
  filter f l = [] <-> Forall (fun x => f x = false) l.
Proof.
  induction l as [|x l IH]; cbn [filter].
  - split; [constructor | reflexivity].
  - destruct (f x) eqn:E; split; intro H.
    + discriminate.
    + inversion H. congruence.
    + constructor; [exact E | now apply IH].
    + inversion H. now apply IH.
Qed.

(** X12: [pick_primary_file] finds no file exactly when every file given is
    a partial download (suffix [.part], [.ytdl] or [.tmp], in any
    capitalisation); in particular when no file is given. *)
Theorem pick_primary_file_none (files : list PathInfo) (audio_only : bool) :
  pick_primary_file files audio_only = None <->
  Forall (fun path => is_partial path = true) files.
Proof.
  unfold pick_primary_file.
  destruct (filter (is_wanted audio_only) files) as [|w ws] eqn:Ew.
  - destruct (filter (fun path => negb (is_partial path)) files) eqn:En.
    + split; [intros _ | reflexivity].
      apply filter_nil_iff in En. eapply Forall_impl; [|exact En].
      intros path H. now apply negb_false_iff.
    + split; [discriminate|]. intro H.
      assert (Hin : In p (filter (fun path => negb (is_partial path)) files))
        by (rewrite En; now left).
      apply filter_In in Hin. destruct Hin as [Hin Hp].
      rewrite Forall_forall in H. rewrite (H _ Hin) in Hp. discriminate.
  - split; [discriminate|]. intro H.
    assert (Hin : In w (filter (is_wanted audio_only) files))
      by (rewrite Ew; now left).
    apply filter_In in Hin. destruct Hin as [Hin Hp].
    rewrite Forall_forall in H. unfold is_wanted in Hp.
    rewrite (H _ Hin) in Hp. discriminate.
Qed.

(** X13: the file that [pick_primary_file] picks is one of the files given
    and never a partial download; it is of the kind asked for (an audio or
    a video suffix) whenever some file given is; and it is a largest file
    of its group: no complete file given that is of the kind asked for
    exactly when the picked file is, is larger. *)
Theorem pick_primary_file_some (files : list PathInfo) (audio_only : bool)
        (primary : PathInfo) :
  pick_primary_file files audio_only = Some primary ->
  In primary files /\ is_partial primary = false /\
  ((exists path, In path files /\ is_wanted audio_only path = true) ->
   is_wanted audio_only primary = true) /\
  (forall path,
      In path files -> is_partial path = false ->
      is_wanted audio_only path = is_wanted audio_only primary ->
      (st_size path <= st_size primary)%Z).
Proof.
  unfold pick_primary_file.
  destruct (filter (is_wanted audio_only) files) as [|w ws] eqn:Ew.
  - destruct (filter (fun path => negb (is_partial path)) files)
      as [|p ps] eqn:En; [discriminate|].
    intro E. injection E as <-.
    destruct (max_by_size_spec p ps) as [Hin Hmax].
    rewrite <- En in Hin. apply filter_In in Hin. destruct Hin as [Hin Hp].
    apply negb_true_iff in Hp.
    split; [exact Hin|]. split; [exact Hp|]. split.
    + intros (path & Hpath & Hw).
      assert (Hf : In path (filter (is_wanted audio_only) files))
        by (apply filter_In; auto).
      rewrite Ew in Hf. destruct Hf.
    + intros path Hpath Hnp _. apply Hmax. rewrite <- En.
      apply filter_In. split; [exact Hpath|]. now rewrite Hnp.
  - intro E. injection E as <-.
    destruct (max_by_size_spec w ws) as [Hin Hmax].
    rewrite <- Ew in Hin. apply filter_In in Hin. destruct Hin as [Hin Hw].
    split; [exact Hin|]. split.
    + unfold is_wanted in Hw. apply andb_true_iff in Hw.
      destruct Hw as [Hw _]. now apply negb_true_iff.
    + split; [intros _; exact Hw|].
      intros path Hpath _ Heq. apply Hmax. rewrite <- Ew.
      apply filter_In. split; [exact Hpath|]. now rewrite Heq.
Qed.

Lemma pick_primary_file_some_witness :
  In (mkPath "a.mp4" ".mp4" 100)
     [mkPath "a.mp4.part" ".part" 900; mkPath "a.mp4" ".mp4" 100;
      mkPath "a.jpg" ".jpg" 500] /\
  is_partial (mkPath "a.mp4" ".mp4" 100) = false /\
  ((exists path,
       In path [mkPath "a.mp4.part" ".part" 900; mkPath "a.mp4" ".mp4" 100;
                mkPath "a.jpg" ".jpg" 500] /\
       is_wanted false path = true) ->
   is_wanted false (mkPath "a.mp4" ".mp4" 100) = true) /\
  (forall path,
      In path [mkPath "a.mp4.part" ".part" 900; mkPath "a.mp4" ".mp4" 100;
               mkPath "a.jpg" ".jpg" 500] ->
      is_partial path = false ->
      is_wanted false path = is_wanted false (mkPath "a.mp4" ".mp4" 100) ->
      (st_size path <= st_size (mkPath "a.mp4" ".mp4" 100))%Z).
Proof.
  apply (pick_primary_file_some
           [mkPath "a.mp4.part" ".part" 900; mkPath "a.mp4" ".mp4" 100;
            mkPath "a.jpg" ".jpg" 500] false (mkPath "a.mp4" ".mp4" 100)).
  reflexivity.
Defined.

(** ** The token-provider manager *)

Lemma spawned_app (l1 l2 : Log) : spawned (l1 ++ l2) = spawned l1 ++ spawned l2.
Proof. apply pick_app. Qed.

Lemma health_app (l1 l2 : Log) : health (l1 ++ l2) = health l1 ++ health l2.
Proof. apply pick_app. Qed.

Lemma docker_runs_app (l1 l2 : Log) :
  docker_runs (l1 ++ l2) = docker_runs l1 ++ docker_runs l2.
Proof.
  unfold docker_runs. now rewrite spawned_app, filter_app, map_app.
Qed.

Lemma run_captured_does (cmd : list string) (l : Log)
      (r : CompletedProcess) :
  does (run_captured cmd) l r ->
  exists o, l = [Got (Subprocess cmd true) o] /\ r = completed true o.
Proof.
  unfold run_captured. cbn [task_bind request does].
  intros (o & l' & -> & -> & ->). exists o. auto.
Qed.

Lemma parse_yt_dlp_version_does (l : Log) (r : option string) :
  does parse_yt_dlp_version l r ->
  exists o,
    l = [Got (Subprocess ["yt-dlp"%string; "--version"%string] true) o] /\
    r = if (exit_code o =? 0)%Z then Some (PyText.strip (out_text o))
        else None.
Proof.
  unfold parse_yt_dlp_version. intro H. apply does_bind in H.
  destruct H as (res & l1 & l2 & H1 & H2 & ->).
  apply run_captured_does in H1. destruct H1 as (o & -> & ->).
  exists o. cbn [completed returncode stdout Py.text_of] in H2.
  destruct (exit_code o =? 0)%Z; destruct H2 as [-> ->]; auto.
Qed.

Lemma yt_dlp_python_does (l : Log) (r : option string) :
  does yt_dlp_python l r -> spawned l = [] /\ health l = [].
Proof.
  unfold yt_dlp_python. intro H. repeat does_step H; auto.
Qed.

Lemma app_singleton_nil {A : Type} (l : list A) (x : A) : [] <> l ++ [x].
Proof. destruct l; discriminate. Qed.

Ltac pip_setup_proof :=
  let H := fresh "H" in
  intro H; apply does_bind in H;
  let version := fresh "version" in
  let l1 := fresh "l1" in
  let l2 := fresh "l2" in
  let H1 := fresh "H1" in
  let o := fresh "o" in
  destruct H as (version & l1 & l2 & H1 & H & ->);
  apply parse_yt_dlp_version_does in H1; destruct H1 as (o & -> & ->);
  unfold pip_setup;
  destruct (exit_code o =? 0)%Z eqn:Eo;
  [ destruct (Py.truthy (Some (PyText.strip (out_text o)))) eqn:Et;
    [ cbn [Py.text_of negb orb] in H;
      destruct (version_at_least (PyText.strip (out_text o)) _) eqn:Ev;
      cbn [negb] in H | cbn [negb orb] in H ]
  | cbn [Py.truthy negb orb] in H ].

Lemma bad_version_setup (package minimum msg : string) (o : ProcOutcome)
      (l : Log) (r : bool) :
  does (task_bind (say msg) (fun _ => Pure false)) l r ->
  exit_code o <> 0%Z \/
  version_at_least (PyText.strip (out_text o)) minimum = false ->
  pip_setup package minimum
    (Got (Subprocess ["yt-dlp"%string; "--version"%string] true) o :: l) r.
Proof.
  unfold say. cbn [task_bind request does].
  intros ([] & l' & -> & -> & ->) Hbad. split; [reflexivity|].
  exists o, []. split; [reflexivity|]. split; [constructor|].
  split; [simpl; lia|]. split; [discriminate|].
  intros (E & V & earlier & p & Hp & _). destruct Hbad; congruence.
Qed.

Lemma pip_runs_setup (package minimum msg1 msg2 : string)
      (install_cmd : string -> list string)
      (o : ProcOutcome) (l : Log) (r : bool) :
  (forall py, pip_for package (install_cmd py)) ->
  exit_code o = 0%Z ->
  version_at_least (PyText.strip (out_text o)) minimum = true ->
  does (task_bind yt_dlp_python (fun python_bin =>
          if negb (Py.truthy python_bin) then
            task_bind (say msg1) (fun _ => Pure false)
          else
            task_bind (run_captured
                         [Py.text_of python_bin; "-m"; "pip"; "show"; package]%string)
              (fun check =>
                 if (returncode check =? 0)%Z then Pure true
                 else
                   task_bind (say msg2) (fun _ =>
                   task_bind (run_captured (install_cmd (Py.text_of python_bin)))
                     (fun install => Pure (returncode install =? 0)%Z)))))
       l r ->
  pip_setup package minimum
    (Got (Subprocess ["yt-dlp"%string; "--version"%string] true) o :: l) r.
Proof.
  intros Hi Eo Ev H. apply does_bind in H.
  destruct H as (py & l1 & l2 & H1 & H & ->).
  apply yt_dlp_python_does in H1. destruct H1 as (S1 & H1).
  unfold pip_setup, health, spawned in *.
  cbn [pick health_of subprocess_of]. rewrite !pick_app, S1, H1.
  cbn [app]. destruct (Py.truthy py).
  - cbn [negb] in H. apply does_bind in H.
    destruct H as (check & l3 & l4 & H3 & H & ->).
    apply run_captured_does in H3. destruct H3 as (o1 & -> & ->).
    rewrite returncode_completed in H.
    assert (Hshow : pip_for package
                      [Py.text_of py; "-m"; "pip"; "show"; package]%string).
    { eexists. eexists. split; [reflexivity|]. right. now left. }
    destruct (exit_code o1 =? 0)%Z eqn:E1.
    + destruct H as [-> ->]. cbn [app pick health_of subprocess_of].
      split; [reflexivity|]. eexists. eexists. split; [reflexivity|].
      split; [repeat constructor; exact Hshow|]. split; [simpl; lia|].
      split; [|reflexivity]. intros _. split; [exact Eo|].
      split; [exact Ev|]. exists []. eexists. split; [reflexivity|].
      cbn [snd]. now apply Z.eqb_eq.
    + unfold say in H. cbn [task_bind request does] in H.
      destruct H as ([] & la & -> & H). apply does_bind in H.
      destruct H as (install & lb & lc & Hb & [-> ->] & ->).
      apply run_captured_does in Hb. destruct Hb as (o2 & -> & ->).
      rewrite returncode_completed.
      cbn [app pick health_of subprocess_of].
      split; [reflexivity|]. eexists. eexists. split; [reflexivity|].
      split; [repeat constructor; [exact Hshow | apply Hi]|].
      split; [simpl; lia|]. split.
      * intro E2. split; [exact Eo|]. split; [exact Ev|].
        eexists [_]. eexists. split; [reflexivity|].
        cbn [snd]. now apply Z.eqb_eq.
      * intros (_ & _ & earlier & p & Hp & E2).
        destruct earlier as [|a [|b earlier]]; try discriminate Hp.
        -- injection Hp as _ <-. now apply Z.eqb_eq.
        -- destruct earlier; discriminate Hp.
  - cbn [negb] in H. unfold say in H. cbn [task_bind request does] in H.
    destruct H as ([] & la & -> & -> & ->).
    cbn [app pick health_of subprocess_of].
    split; [reflexivity|]. eexists. eexists. split; [reflexivity|].
    split; [constructor|]. split; [simpl; lia|]. split; [discriminate|].
    intros (_ & _ & earlier & p & Hp & _).
    exfalso. exact (app_singleton_nil _ _ Hp).
Qed.

Lemma ensure_pot_plugin_installed_does (proxy_url : option string)
      (l : Log) (r : bool) :
  does (ensure_pot_plugin_installed proxy_url) l r ->
  pip_setup "bgutil-ytdlp-pot-provider" "2025.05.22" l r.
Proof.
  unfold ensure_pot_plugin_installed. pip_setup_proof.
  - eapply (pip_runs_setup _ _ _ _
              (fun py =>
                 extend_if (Py.truthy proxy_url)
                   [py; "-m"; "pip"; "install"; "bgutil-ytdlp-pot-provider";
                    "-i"; PYPI_MIRROR]%string
                   ["--proxy"%string; Py.text_of proxy_url]));
      [| now apply Z.eqb_eq | exact Ev | exact H].
    intro py. unfold extend_if. destruct (Py.truthy proxy_url);
      (eexists; eexists; split; [reflexivity|]); right; now left.
  - eapply bad_version_setup; [exact H | now right].
  - eapply bad_version_setup; [exact H|]. right.
    destruct (PyText.strip (out_text o)); [reflexivity | discriminate].
  - eapply bad_version_setup; [exact H|]. left.
    now apply Z.eqb_neq.
Qed.

Lemma ensure_wpc_provider_does (proxy_url : option string)
      (l : Log) (r : bool) :
  does (ensure_wpc_provider proxy_url) l r ->
  pip_setup "yt-dlp-getpot-wpc" "2025.09.26" l r.
Proof.
  unfold ensure_wpc_provider. pip_setup_proof.
  - eapply (pip_runs_setup _ _ _ _
              (fun py =>
                 extend_if (Py.truthy proxy_url)
                   [py; "-m"; "pip"; "install"; "-U"; "yt-dlp-getpot-wpc";
                    "-i"; PYPI_MIRROR]%string
                   ["--proxy"%string; Py.text_of proxy_url]));
      [| now apply Z.eqb_eq | exact Ev | exact H].
    intro py. unfold extend_if. destruct (Py.truthy proxy_url);
      (eexists; eexists; split; [reflexivity|]); right; right; now left.
  - eapply bad_version_setup; [exact H | now right].
  - eapply bad_version_setup; [exact H|]. right.
    destruct (PyText.strip (out_text o)); [reflexivity | discriminate].
  - eapply bad_version_setup; [exact H|]. left.
    now apply Z.eqb_neq.
Qed.

Lemma is_docker_pip (package : string) (cmd : list string) :
  pip_for package cmd -> is_docker cmd = false.
Proof.
  intros (py & tail & -> & _). cbn [is_docker]. apply andb_false_r.
Qed.

Lemma pip_setup_quiet (package minimum : string) (l : Log) (r : bool) :
  pip_setup package minimum l r -> docker_runs l = [] /\ health l = [].
Proof.
  intros (Hh & o & rest & Hs & Hp & _). split; [|exact Hh].
  unfold docker_runs. rewrite Hs. cbn [filter fst].
  change (is_docker ["yt-dlp"%string; "--version"%string]) with false.
  cbv iota.
  replace (filter (fun p => is_docker (fst (fst p))) rest) with
    (@nil (list string * bool * ProcOutcome)); [reflexivity|].
  symmetry. clear Hs. induction Hp as [|p rest Hp _ IH]; [reflexivity|].
  cbn [filter]. now rewrite (is_docker_pip _ _ Hp).
Qed.

Section ManagerFacts.

Variable urlparse : string -> ParseResult.
Variable urlunparse :
  string -> string -> string -> string -> string -> string -> string.

Lemma is_docker_run (use_host_network : bool) (env_args : list string) :
  is_docker (docker_run_cmd use_host_network env_args) = true.
Proof. destruct use_host_network; reflexivity. Qed.

(** Reads a log made of explicit entries. *)
Ltac read_log :=
  unfold docker_runs, health, spawned, said in *;
  repeat (rewrite ?pick_app;
          cbn [pick subprocess_of health_of said_of app filter map fst snd
               length];
          repeat match goal with
                 | |- context [is_docker (docker_run_cmd ?b ?e)] =>
                     rewrite (is_docker_run b e)
                 | |- context [is_docker ?c] =>
                     let v := eval vm_compute in (is_docker c) in
                     match v with
                     | true => change (is_docker c) with true
                     | false => change (is_docker c) with false
                     end
                 end;
          cbv iota).

Lemma restart_po_token_provider_does (proxy_url no_proxy : option string)
      (l : Log) (r : bool) :
  does (restart_po_token_provider urlparse urlunparse proxy_url no_proxy) l r ->
  restarted urlparse urlunparse proxy_url no_proxy l r.
Proof.
  unfold restart_po_token_provider, docker_available, docker_daemon_ready,
    container_exists, run_captured, restarted.
  intro H. repeat does_step H.
  all: repeat match goal with x : unit |- _ => destruct x end.
  all: repeat match goal with
         | H : context [returncode (completed true ?o)] |- _ =>
             rewrite returncode_completed in H
         end.
  all: cbn [completed stdout Py.text_of] in *.
  all: read_log.
  all: cbn [negb orb andb] in *.
  all: repeat match goal with
         | H : negb _ = true |- _ => apply negb_true_iff in H
         | H : negb _ = false |- _ => apply negb_false_iff in H
         | H : (_ =? 0)%Z = true |- _ => apply Z.eqb_eq in H
         | H : (_ =? 0)%Z = false |- _ => apply Z.eqb_neq in H
         end.
  all: try discriminate.
  all: split; [reflexivity|].
  all: try lazymatch goal with
       | |- context [ [(["docker"; "--version"]%string, ?a)] ] =>
           exists a; left; auto
       | |- context [ [(["docker"; "--version"]%string, ?a); (_, ?b)] ] =>
           exists a; right; exists b; left; auto
       | |- context [ (["docker"; "--version"]%string, ?a) :: (_, ?b) ::
                      (_, ?c) :: ?rest ] =>
           exists a; right; exists b; right;
           lazymatch rest with
           | [(["docker"; "rm"; "-f"; _]%string, ?d); (_, ?e); (_, ?f)] =>
               exists c, d, e, f
           | [(["docker"; "rm"; "-f"; _]%string, ?d); (_, ?e)] =>
               exists c, d, e, a
           | [(_, ?e); (_, ?f)] => exists c, a, e, f
           | [(_, ?e)] => exists c, a, e, a
           end
       end.
  all: split; [assumption|]; split; [assumption|];
    split; [now subst r|].
  all: repeat match goal with
         | H : ?c = _ |- context [if ?c then _ else _] => rewrite H
         end.
  all: reflexivity.
Qed.

Lemma wpc_or_none_does (proxy_url : option string) (l : Log)
      (r : option string) :
  does (wpc_or_none proxy_url) l r ->
  docker_runs l = [] /\ health l = [] /\
  (r = None \/ r = Some "wpc"%string).
Proof.
  unfold wpc_or_none. intro H. apply does_bind in H.
  destruct H as (ready & l1 & l2 & H1 & [-> ->] & ->).
  apply ensure_wpc_provider_does, pip_setup_quiet in H1.
  rewrite app_nil_r. destruct H1 as [Hd Hh].
  split; [exact Hd|]. split; [exact Hh|]. destruct ready; auto.
Qed.

Lemma docker_runs_cons (X : Type) (q : Request X) (x : X) (l : Log) :
  docker_runs (Got q x :: l) =
  match subprocess_of (Got q x) with
  | Some (cmd, _, o) => if is_docker cmd then [(cmd, o)] else []
  | None => []
  end ++ docker_runs l.
Proof.
  unfold docker_runs, spawned. cbn [pick].
  destruct (subprocess_of (Got q x)) as [[[cmd capture] o]|]; [|reflexivity].
  cbn [filter fst]. destruct (is_docker cmd); reflexivity.
Qed.

Lemma health_cons (X : Type) (q : Request X) (x : X) (l : Log) :
  health (Got q x :: l) =
  match health_of (Got q x) with
  | Some check => [check]
  | None => []
  end ++ health l.
Proof.
  unfold health. cbn [pick]. destruct (health_of (Got q x)); reflexivity.
Qed.

Lemma spawned_cons (X : Type) (q : Request X) (x : X) (l : Log) :
  spawned (Got q x :: l) =
  match subprocess_of (Got q x) with
  | Some p => [p]
  | None => []
  end ++ spawned l.
Proof.
  unfold spawned. cbn [pick]. destruct (subprocess_of (Got q x)); reflexivity.
Qed.

(** Reads a log whose entries are explicit up to a tail that a lemma
    describes. *)
Ltac read_manager :=
  repeat (rewrite ?docker_runs_app, ?health_app, ?spawned_app,
            ?docker_runs_cons, ?health_cons, ?spawned_cons;
          cbn [subprocess_of health_of app];
          repeat match goal with
                 | |- context [is_docker (docker_run_cmd ?b ?e)] =>
                     rewrite (is_docker_run b e)
                 | |- context [is_docker ?c] =>
                     let v := eval vm_compute in (is_docker c) in
                     match v with
                     | true => change (is_docker c) with true
                     | false => change (is_docker c) with false
                     end
                 end;
          cbv iota;
          repeat match goal with
                 | H : docker_runs ?l = _ |- context [docker_runs ?l] =>
                     rewrite H
                 | H : health ?l = _ |- context [health ?l] => rewrite H
                 end;
          cbn [app]).

Lemma restarted_health (proxy_url no_proxy : option string) (l : Log)
      (r : bool) :
  restarted urlparse urlunparse proxy_url no_proxy l r ->
  (r = false /\ health l = []) \/ health l = [(true, r)].
Proof.
  intros (_ & o1 & [(_ & -> & Hh & _)|(o2 & [(_ & _ & -> & Hh & _)|H])]);
    [now left | now left |].
  destruct H as (o3 & o4 & o5 & o6 & H).
  destruct (first_run_settings urlparse urlunparse proxy_url no_proxy).
  right. apply H.
Qed.

Lemma await_provider_does (proxy_url no_proxy : option string)
      (l : Log) (r : option string) :
  does (await_provider urlparse urlunparse proxy_url no_proxy) l r ->
  (r = None \/ r = Some "wpc"%string \/ r = Some "bgutil"%string) /\
  (r = Some "bgutil"%string <-> answered l) /\
  exists up rest, health l = (true, up) :: rest.
Proof.
  unfold await_provider, say, answered. cbn [task_bind request does].
  intros (up & l1 & -> & H). destruct up.
  - cbn [task_bind request does] in H.
    destruct H as ([] & l2 & -> & -> & ->).
    split; [auto|]. split; [|eexists; eexists; reflexivity].
    split; reflexivity.
  - apply does_bind in H.
    destruct H as (restarted_ok & l2 & l3 & H2 & H & ->).
    apply restart_po_token_provider_does, restarted_health in H2.
    destruct restarted_ok.
    + destruct H2 as [[E _]|H2]; [discriminate|].
      cbn [task_bind request does] in H.
      destruct H as (answering & l4 & -> & H). destruct answering.
      * cbn [andb task_bind request does] in H.
        destruct H as ([] & l5 & -> & -> & ->).
        read_manager. split; [auto|]. split; [split; reflexivity|].
        eexists. eexists. reflexivity.
      * cbn [andb task_bind request does] in H.
        destruct H as ([] & l5 & -> & H). apply wpc_or_none_does in H.
        destruct H as (_ & Hh & Hr). read_manager.
        split; [tauto|]. split; [|eexists; eexists; reflexivity].
        cbn [map snd last].
        split; [intro E; destruct Hr; congruence | discriminate].
    + cbn [andb task_bind request does] in H.
      destruct H as ([] & l5 & -> & H). apply wpc_or_none_does in H.
      destruct H as (_ & Hh & Hr). read_manager.
      split; [tauto|]. split; [|eexists; eexists; reflexivity].
      destruct H2 as [[_ E2]|E2]; rewrite E2; cbn [app map snd last];
        (split; [intro E; destruct Hr; congruence | discriminate]).
Qed.

Lemma ensure_po_token_provider_does (proxy_url no_proxy : option string)
      (l : Log) (r : option string) :
  does (ensure_po_token_provider urlparse urlunparse proxy_url no_proxy) l r ->
  ensured l r.
Proof.
  unfold ensure_po_token_provider. intro H. apply does_bind in H.
  destruct H as (installed & l1 & l2 & H1 & H & ->).
  apply ensure_pot_plugin_installed_does in H1.
  pose proof (pip_setup_quiet _ _ _ _ H1) as [D1 Hh1].
  destruct H1 as (_ & o & rest & S1 & _ & _ & I1).
  unfold docker_available, docker_daemon_ready, container_exists,
    run_captured, say in H.
  destruct installed; cbn [negb] in H.
  2: { apply wpc_or_none_does in H. destruct H as (D2 & H2 & Hr).
       unfold ensured, answered. read_manager. rewrite S1.
       cbn [map last app].
       split; [tauto|].
       split; [split; [intro E; destruct Hr; congruence | discriminate]|].
       split; [discriminate|].
       split; [eexists; eexists; split; [reflexivity | auto]|].
       split; discriminate. }
  destruct (proj1 I1 eq_refl) as (Eo & Ev & _). clear I1.
  repeat does_step H.
  all: repeat match goal with x : unit |- _ => destruct x end.
  all: repeat match goal with
         | H : context [returncode (completed true ?o)] |- _ =>
             rewrite returncode_completed in H
         end.
  all: cbn [negb orb andb] in *.
  all: repeat match goal with
         | H : negb _ = true |- _ => apply negb_true_iff in H
         | H : negb _ = false |- _ => apply negb_false_iff in H
         | H : (exit_code _ =? 0)%Z = true |- _ => apply Z.eqb_eq in H
         | H : (exit_code _ =? 0)%Z = false |- _ => apply Z.eqb_neq in H
         end.
  all: try match goal with
         | H : does (wpc_or_none _) _ _ |- _ =>
             apply wpc_or_none_does in H; destruct H as (D2 & H2 & Hr);
             assert (Hb : r <> Some "bgutil"%string)
               by (destruct Hr; congruence)
         | H : does (await_provider _ _ _ _) _ _ |- _ =>
             apply await_provider_does in H;
             destruct H as (Hr & Hb & up & hs & H2);
             unfold answered in Hb; rewrite H2 in Hb
         end.
  all: unfold ensured, answered; read_manager; rewrite S1;
    cbn [map snd last app].
  all: split; [tauto|].
  all: split;
    [ first [ exact Hb
            | split; [intro E; contradiction | discriminate]
            | subst r; split; reflexivity ] |].
  all: split;
    [ intros rest0 E; first [discriminate E | injection E as <-; auto] |].
  all: split;
    [ eexists; eexists; split; [reflexivity|];
      intros [Hbad|Hbad]; congruence |].
  all: split;
    [ intros o' rest' E Hne; first [discriminate E | injection E as -> <-];
      first [contradiction | auto]
    | intros o1 o2 rest' E Hne; first [discriminate E | injection E as -> -> <-];
      first [contradiction | auto] ].
Qed.

End ManagerFacts.

(** X14: [ensure_po_token_provider] answers [None], [wpc] or [bgutil], and
    it answers [bgutil] exactly when the last health check of the provider
    (a ping or a wait) found it answering.  When the first ping already
    answers, nothing more is checked and no container command is run. *)
Theorem provider_answer :
  forall (W : Type) (h : Responder W) (w : W)
         (urlparse : string -> ParseResult)
         (urlunparse :
            string -> string -> string -> string -> string -> string -> string)
         (proxy_url no_proxy : option string),
    let '(r, _, l) :=
      perform h
        (ensure_po_token_provider urlparse urlunparse proxy_url no_proxy) w in
    (r = None \/ r = Some "wpc"%string \/ r = Some "bgutil"%string) /\
    (r = Some "bgutil"%string <-> answered l) /\
    (forall rest,
        health l = (false, true) :: rest -> rest = [] /\ docker_runs l = []).
Proof.
  intros W h w urlparse urlunparse proxy_url no_proxy.
  pose proof (perform_does h
                (ensure_po_token_provider urlparse urlunparse proxy_url
                   no_proxy) w) as H.
  destruct (perform h _ w) as [[r w'] l]. cbn [fst snd] in H.
  apply ensure_po_token_provider_does in H.
  destruct H as (A & B & C & _). auto.
Qed.

(** X15: the plugin gates the container.  [ensure_po_token_provider] first
    runs [yt-dlp --version]; when that exits with a non-zero code or does
    not print a version of at least 2025.05.22, no container command is
    run, the provider is neither pinged nor waited for, and the answer is
    not [bgutil]. *)
Theorem plugin_gates_container :
  forall (W : Type) (h : Responder W) (w : W)
         (urlparse : string -> ParseResult)
         (urlunparse :
            string -> string -> string -> string -> string -> string -> string)
         (proxy_url no_proxy : option string),
    let '(r, _, l) :=
      perform h
        (ensure_po_token_provider urlparse urlunparse proxy_url no_proxy) w in
    exists o rest,
      spawned l = (["yt-dlp"; "--version"]%string, true, o) :: rest /\
      (exit_code o <> 0%Z \/
       version_at_least (PyText.strip (out_text o)) "2025.05.22" = false ->
       docker_runs l = [] /\ health l = [] /\ r <> Some "bgutil"%string).
Proof.
  intros W h w urlparse urlunparse proxy_url no_proxy.
  pose proof (perform_does h
                (ensure_po_token_provider urlparse urlunparse proxy_url
                   no_proxy) w) as H.
  destruct (perform h _ w) as [[r w'] l]. cbn [fst snd] in H.
  apply ensure_po_token_provider_does in H.
  destruct H as (_ & B & _ & (o & rest & S & D) & _).
  exists o, rest. split; [exact S|]. intro Hbad.
  destruct (D Hbad) as [Hd Hh]. split; [exact Hd|]. split; [exact Hh|].
  intro E. apply B in E. unfold answered in E. rewrite Hh in E.
  discriminate E.
Qed.

(** X16: without a container runtime nothing is started.  When
    [docker --version] exits with a non-zero code, or when [docker info]
    does after it, [ensure_po_token_provider] runs no further container
    command, has checked the provider by the one ping that did not answer
    and by nothing else, and does not answer [bgutil]. *)
Theorem container_runtime_unavailable :
  forall (W : Type) (h : Responder W) (w : W)
         (urlparse : string -> ParseResult)
         (urlunparse :
            string -> string -> string -> string -> string -> string -> string)
         (proxy_url no_proxy : option string),
    let '(r, _, l) :=
      perform h
        (ensure_po_token_provider urlparse urlunparse proxy_url no_proxy) w in
    (forall o rest,
        docker_runs l = (["docker"; "--version"]%string, o) :: rest ->
        exit_code o <> 0%Z ->
        rest = [] /\ health l = [(false, false)] /\
        r <> Some "bgutil"%string) /\
    (forall o1 o2 rest,
        docker_runs l = (["docker"; "--version"]%string, o1) ::
                        (["docker"; "info"]%string, o2) :: rest ->
        exit_code o2 <> 0%Z ->
        rest = [] /\ health l = [(false, false)] /\
        r <> Some "bgutil"%string).
Proof.
  intros W h w urlparse urlunparse proxy_url no_proxy.
  pose proof (perform_does h
                (ensure_po_token_provider urlparse urlunparse proxy_url
                   no_proxy) w) as H.
  destruct (perform h _ w) as [[r w'] l]. cbn [fst snd] in H.
  apply ensure_po_token_provider_does in H.
  destruct H as (_ & B & _ & _ & E & F).
  assert (N : health l = [(false, false)] -> r <> Some "bgutil"%string).
  { intros Hh Er. apply B in Er. unfold answered in Er. rewrite Hh in Er.
    discriminate Er. }
  split.
  - intros o rest Hd Hne. destruct (E o rest Hd Hne) as [-> Hh]. auto.
  - intros o1 o2 rest Hd Hne. destruct (F o1 o2 rest Hd Hne) as [-> Hh]. auto.
Qed.

(** X17: [restart_po_token_provider] runs container commands only.  When
    [docker --version] or [docker info] exits with a non-zero code, nothing
    else happens and the answer is [False].  Otherwise the container is
    listed, removed when the listing succeeded and names it, and created
    again: once, and once more without host networking when the first
    creation asked for host networking and failed; whatever the creations
    did, the provider is then waited for once and the answer is that of
    the wait. *)
Theorem restart_recreates_container :
  forall (W : Type) (h : Responder W) (w : W)
         (urlparse : string -> ParseResult)
         (urlunparse :
            string -> string -> string -> string -> string -> string -> string)
         (proxy_url no_proxy : option string),
    let '(r, _, l) :=
      perform h
        (restart_po_token_provider urlparse urlunparse proxy_url no_proxy) w in
    restarted urlparse urlunparse proxy_url no_proxy l r.
Proof.
  intros W h w urlparse urlunparse proxy_url no_proxy.
  pose proof (perform_does h
                (restart_po_token_provider urlparse urlunparse proxy_url
                   no_proxy) w) as H.
  destruct (perform h _ w) as [[r w'] l]. cbn [fst snd] in H.
  now apply restart_po_token_provider_does.
Qed.

(** X18: the two package set-ups, [ensure_pot_plugin_installed] (package
    bgutil-ytdlp-pot-provider, minimum version 2025.05.22) and
    [ensure_wpc_provider] (package yt-dlp-getpot-wpc, minimum 2025.09.26).
    Each asks the version of the extractor first, then runs [pip] for its
    package at most twice, runs no container command and no health check,
    and answers [True] exactly when the version query succeeded with a
    version at least the minimum and the last run of [pip] succeeded.  A
    version that passes the second minimum passes the first. *)
Theorem package_setup :
  forall (W : Type) (h : Responder W) (w : W) (proxy_url : option string),
    (let '(r, _, l) := perform h (ensure_pot_plugin_installed proxy_url) w in
     pip_setup "bgutil-ytdlp-pot-provider" "2025.05.22" l r /\
     docker_runs l = []) /\
    (let '(r, _, l) := perform h (ensure_wpc_provider proxy_url) w in
     pip_setup "yt-dlp-getpot-wpc" "2025.09.26" l r /\
     docker_runs l = []) /\
    (forall version,
        version_at_least version "2025.09.26" = true ->
        version_at_least version "2025.05.22" = true).
Proof.
  intros W h w proxy_url. split; [|split].
  - pose proof (perform_does h (ensure_pot_plugin_installed proxy_url) w) as H.
    destruct (perform h _ w) as [[r w'] l]. cbn [fst snd] in H.
    apply ensure_pot_plugin_installed_does in H.
    split; [exact H | exact (proj1 (pip_setup_quiet _ _ _ _ H))].
  - pose proof (perform_does h (ensure_wpc_provider proxy_url) w) as H.
    destruct (perform h _ w) as [[r w'] l]. cbn [fst snd] in H.
    apply ensure_wpc_provider_does in H.
    split; [exact H | exact (proj1 (pip_setup_quiet _ _ _ _ H))].
  - intros version H.
    assert (T : version_at_least "2025.09.26" "2025.05.22" = true)
      by reflexivity.
    apply version_at_least_iff in H. apply version_at_least_iff in T.
    apply version_at_least_iff.
    destruct H as (A & _ & Hab). destruct T as (_ & C & Hbc).
    split; [exact A|]. split; [exact C|].
    exact (padded_ge_trans _ _ _ Hab Hbc).
Qed.

(** X19: the first [docker run] of the manager hands the container the
    proxy URL as it was given.  Host networking is asked for exactly when
    there is a proxy whose host is 127.0.0.1 or localhost; for any other
    proxy the call of [normalize_proxy_for_docker] changes nothing, since
    it rewrites those two hosts only. *)
Theorem first_run_keeps_proxy :
  forall (urlparse : string -> ParseResult)
         (urlunparse :
            string -> string -> string -> string -> string -> string -> string)
         (proxy_url no_proxy : option string),
    first_run_settings urlparse urlunparse proxy_url no_proxy =
    (Py.truthy proxy_url && is_localhost_proxy urlparse (Py.text_of proxy_url),
     (if Py.truthy proxy_url then proxy_env_args (Py.text_of proxy_url)
      else []) ++ no_proxy_env_args no_proxy).
Proof.
  intros urlparse urlunparse proxy_url no_proxy.
  unfold first_run_settings, is_localhost_proxy, normalize_proxy_for_docker.
  destruct (Py.truthy proxy_url); [|reflexivity]. cbn [andb].
  destruct (local_host (urlparse (Py.text_of proxy_url))); reflexivity.
Qed.

(** ** Probes of the machine *)

Lemma first_set_one (n : string) (rest : list string) (v : option string) :
  (Py.truthy v = false -> rest = []) ->
  first_set (n :: rest) [(n, v)] v.
Proof.
  intro H. split; [discriminate|]. split; [reflexivity|].
  split; [constructor|]. split; [reflexivity|].
  intro F. now rewrite (H F).
Qed.

Lemma first_set_cons (n : string) (names : list string) (x : option string)
      (reads : list (string * option string)) (v : option string) :
  Py.truthy x = false ->
  first_set names reads v ->
  first_set (n :: names) ((n, x) :: reads) v.
Proof.
  intros Hx (Hne & Hm & Hf & Hv & Hl).
  destruct reads as [|r reads]; [contradiction|].
  split; [discriminate|]. split.
  - cbn [map fst length firstn]. f_equal. exact Hm.
  - split.
    + change (removelast ((n, x) :: r :: reads))
        with ((n, x) :: removelast (r :: reads)).
      constructor; [exact Hx | exact Hf].
    + split; [exact Hv|]. intro F. cbn [length]. f_equal. now apply Hl.
Qed.

Lemma first_set_result (names : list string)
      (reads : list (string * option string)) (v : option string) :
  first_set names reads v ->
  Py.truthy v = true ->
  exists before name,
    reads = before ++ [(name, v)] /\ In name names /\
    Forall (fun r => Py.truthy (snd r) = false) before.
Proof.
  intros (Hne & Hm & Hf & Hv & _) _.
  destruct (exists_last Hne) as (before & [name v'] & E). subst reads.
  rewrite removelast_last in Hf. rewrite last_last in Hv. cbn [snd] in Hv.
  subst v'. exists before, name. split; [reflexivity|]. split; [|exact Hf].
  assert (Hin : In name (map fst (before ++ [(name, v)]))).
  { rewrite map_app. apply in_or_app. right. now left. }
  rewrite Hm in Hin.
  rewrite <- (firstn_skipn (length (before ++ [(name, v)])) names).
  apply in_or_app. left. exact Hin.
Qed.

Lemma environ_first_reads (names : list string) (t : Trace)
      (r : option string) :
  names <> [] ->
  exec (environ_first names) t r ->
  first_set names (environ_reads t) r.
Proof.
  revert t. induction names as [|n rest IH]; intros t Hne; [contradiction|].
  destruct rest as [|n' rest].
  - cbn [environ_first trigger exec]. intros (x & t' & -> & -> & ->).
    apply first_set_one. reflexivity.
  - change (environ_first (n :: n' :: rest))
      with (v <- trigger (EnvironGet n) ;;
            if Py.truthy v then Ret v else environ_first (n' :: rest)).
    cbn [bind trigger exec]. intros (x & t' & -> & H).
    unfold environ_reads. cbn [collect environ_of].
    destruct (Py.truthy x) eqn:Ex.
    + destruct H as [-> ->]. apply first_set_one. congruence.
    + apply first_set_cons; [exact Ex|]. apply IH; [discriminate | exact H].
Qed.

(** X20: [get_proxy_settings] does nothing but read the environment.  An
    explicit proxy argument wins: no proxy variable is read then.  Without
    one, the variables ALL_PROXY, all_proxy, HTTPS_PROXY, https_proxy,
    HTTP_PROXY and http_proxy are read in this order up to the first that
    is set and not empty, whose value is the proxy; when none is, all six
    are read and the proxy is the value of the last, absent or empty.
    NO_PROXY and no_proxy are read after them, in the same way. *)
Theorem proxy_precedence :
  forall (W : Type) (h : Handler W) (w : W) (proxy_arg : option string),
    let '(r, _, t) := run h (get_proxy_settings proxy_arg) w in
    forallb is_environ_get t = true /\
    exists reads1 reads2,
      environ_reads t = reads1 ++ reads2 /\
      (if Py.truthy proxy_arg then reads1 = [] /\ fst r = proxy_arg
       else first_set ["ALL_PROXY"; "all_proxy"; "HTTPS_PROXY"; "https_proxy";
                       "HTTP_PROXY"; "http_proxy"]%string reads1 (fst r)) /\
      first_set ["NO_PROXY"; "no_proxy"]%string reads2 (snd r).
Proof.
  intros W h w proxy_arg.
  pose proof (run_exec h (get_proxy_settings proxy_arg) w) as H.
  destruct (run h (get_proxy_settings proxy_arg) w) as [[r w'] t].
  cbn [fst snd] in H.
  split; [exact (exec_get_proxy_settings _ _ _ H)|].
  unfold get_proxy_settings in H.
  apply exec_bind in H. destruct H as (proxy & t1 & t2 & H1 & H2 & ->).
  apply exec_bind in H2. destruct H2 as (np & t3 & t4 & H3 & [-> ->] & ->).
  rewrite app_nil_r. exists (environ_reads t1), (environ_reads t3).
  split; [apply collect_app|]. cbn [fst snd]. split.
  - destruct (Py.truthy proxy_arg).
    + destruct H1 as [-> ->]. split; reflexivity.
    + apply environ_first_reads; [discriminate | exact H1].
  - apply environ_first_reads; [discriminate | exact H3].
Qed.

Lemma first_which_does (names : list string) (l : Log) (r : option string) :
  names <> [] ->
  does (first_which names) l r ->
  spawned l = [] /\
  exists v, first_set names (probes l) v /\
            r = if Py.truthy v then v else None.
Proof.
  revert l. induction names as [|n rest IH]; intros l Hne; [contradiction|].
  cbn [first_which task_bind request does].
  intros (x & l' & -> & H). unfold probes, spawned.
  cbn [pick probe_of subprocess_of]. destruct (Py.truthy x) eqn:Ex.
  - destruct H as [-> ->]. split; [reflexivity|]. exists x.
    rewrite Ex. split; [|reflexivity]. apply first_set_one. congruence.
  - destruct rest as [|n' rest].
    + destruct H as [-> ->]. split; [reflexivity|]. exists x.
      rewrite Ex. split; [|reflexivity]. apply first_set_one. reflexivity.
    + apply IH in H; [|discriminate]. destruct H as (Hs & v & Hf & ->).
      split; [exact Hs|]. exists v. split; [|reflexivity].
      apply first_set_cons; assumption.
Qed.

Lemma first_existing_does (candidates names : list string) (l : Log)
      (r : option string) :
  names <> [] ->
  Forall (fun c => c <> ""%string) candidates ->
  does (first_existing candidates (first_which names)) l r ->
  spawned l = [] /\
  exists v, first_set (candidates ++ names) (probes l) v /\
            r = if Py.truthy v then v else None.
Proof.
  intros Hne Hc. revert l.
  induction Hc as [|c rest Hc _ IH]; intro l.
  - cbn [first_existing app]. now apply first_which_does.
  - cbn [first_existing task_bind request does app].
    intros (found & l' & -> & H). unfold probes, spawned.
    cbn [pick probe_of subprocess_of]. destruct found.
    + destruct H as [-> ->]. split; [reflexivity|]. exists (Some c).
      assert (T : Py.truthy (Some c) = true).
      { destruct c; [|reflexivity]. exfalso. apply Hc. reflexivity. }
      rewrite T. split; [|reflexivity]. apply first_set_one. congruence.
    + apply IH in H. destruct H as (Hs & v & Hf & ->).
      split; [exact Hs|]. exists v. split; [|reflexivity].
      apply first_set_cons; [reflexivity | exact Hf].
Qed.

(** X21: [find_chrome_path] runs no process and looks at six places in a
    fixed order: the two application paths, then the names google-chrome,
    chromium, chromium-browser and chrome on the search path.  It stops at
    the first place that exists or is found, which it answers; it answers
    [None] only after all six failed, and never an empty path. *)
Theorem find_chrome_path_order :
  forall (W : Type) (h : Responder W) (w : W),
    let '(r, _, l) := perform h find_chrome_path w in
    spawned l = [] /\
    r <> Some ""%string /\
    exists v,
      first_set (chrome_candidates ++ chrome_names) (probes l) v /\
      r = if Py.truthy v then v else None.
Proof.
  intros W h w. pose proof (perform_does h find_chrome_path w) as H.
  destruct (perform h find_chrome_path w) as [[r w'] l]. cbn [fst snd] in H.
  apply first_existing_does in H.
  - destruct H as (Hs & v & Hf & ->). split; [exact Hs|]. split.
    + destruct v as [[|c s]|]; discriminate.
    + exists v. split; [exact Hf | reflexivity].
  - discriminate.
  - repeat constructor; discriminate.
Qed.

Lemma get_video_resolution_does (path : string) (l : Log)
      (r : option string) :
  does (get_video_resolution path) l r ->
  exists o1 rest,
    spawned l = (["which"; "ffprobe"]%string, true, o1) :: rest /\
    (exit_code o1 <> 0%Z -> rest = [] /\ r = None) /\
    (exit_code o1 = 0%Z ->
     exists o2,
       rest = [(ffprobe_cmd path, true, o2)] /\
       r = if (exit_code o2 =? 0)%Z &&
              Py.truthy (Some (PyText.strip (out_text o2)))
           then Some (PyText.strip (out_text o2)) else None).
Proof.
  unfold get_video_resolution. intro H. apply does_bind in H.
  destruct H as (check & l1 & l2 & H1 & H & ->).
  apply run_captured_does in H1. destruct H1 as (o1 & -> & ->).
  rewrite returncode_completed in H.
  unfold spawned. cbn [app pick subprocess_of]. fold (spawned l2).
  destruct (exit_code o1 =? 0)%Z eqn:E1; cbn [negb] in H.
  - apply Z.eqb_eq in E1. apply does_bind in H.
    destruct H as (result & l3 & l4 & H3 & H & ->).
    apply run_captured_does in H3. destruct H3 as (o2 & -> & ->).
    rewrite returncode_completed in H.
    exists o1. eexists. split; [reflexivity|].
    split; [intro N; contradiction|]. intros _. exists o2.
    destruct (exit_code o2 =? 0)%Z; cbn [negb andb] in *;
      destruct H as [-> ->]; split; reflexivity.
  - apply Z.eqb_neq in E1. destruct H as [-> ->].
    exists o1, []. split; [reflexivity|].
    split; [auto | intro Z0; contradiction].
Qed.

(** X22: [get_video_resolution] first runs [which ffprobe] and, only when
    that exits with code 0, [ffprobe] on the path; both are captured and
    nothing else is run.  The answer is [None] when either exits with a
    non-zero code or when [ffprobe] prints nothing but whitespace;
    otherwise it is the output of [ffprobe] without the whitespace around
    it.  The answer is never an empty text. *)
Theorem get_video_resolution_result :
  forall (W : Type) (h : Responder W) (w : W) (path : string),
    let '(r, _, l) := perform h (get_video_resolution path) w in
    r <> Some ""%string /\
    exists o1 rest,
      spawned l = (["which"; "ffprobe"]%string, true, o1) :: rest /\
      (exit_code o1 <> 0%Z -> rest = [] /\ r = None) /\
      (exit_code o1 = 0%Z ->
       exists o2,
         rest = [(ffprobe_cmd path, true, o2)] /\
         (exit_code o2 <> 0%Z -> r = None) /\
         (exit_code o2 = 0%Z ->
          r = if Py.truthy (Some (PyText.strip (out_text o2)))
              then Some (PyText.strip (out_text o2)) else None)).
Proof.
  intros W h w path.
  pose proof (perform_does h (get_video_resolution path) w) as H.
  destruct (perform h (get_video_resolution path) w) as [[r w'] l].
  cbn [fst snd] in H. apply get_video_resolution_does in H.
  destruct H as (o1 & rest & Hs & Hbad & Hok). split.
  - destruct (Z.eq_dec (exit_code o1) 0) as [E|E].
    + destruct (Hok E) as (o2 & _ & ->).
      destruct (exit_code o2 =? 0)%Z; cbn [andb]; [|discriminate].
      destruct (PyText.strip (out_text o2)); discriminate.
    + destruct (Hbad E) as [_ ->]. discriminate.
  - exists o1, rest. split; [exact Hs|]. split; [exact Hbad|].
    intro E. destruct (Hok E) as (o2 & Hr & ->). exists o2.
    split; [exact Hr|]. split.
    + intro N. apply Z.eqb_neq in N. now rewrite N.
    + intro Z0. apply Z.eqb_eq in Z0. now rewrite Z0.
Qed.

(** ** Sizes for the reader *)

Lemma tenths_bounds (num : Z) (scale : nat) :
  let d := (1024 ^ Z.of_nat scale)%Z in
  (- d <= 2 * (10 * num - tenths num scale * d) <= d)%Z.
Proof.
  intro d. assert (Hd : (0 < d)%Z) by (apply Z.pow_pos_nonneg; lia).
  unfold tenths. fold d.
  pose proof (Z.div_mod (10 * num) d ltac:(lia)) as E.
  pose proof (Z.mod_pos_bound (10 * num) d Hd) as B.
  set (q := (10 * num / d)%Z) in *. set (r := ((10 * num) mod d)%Z) in *.
  destruct (Z.ltb_spec d (2 * r)); cbn [orb].
  - nia.
  - destruct (Z.eqb_spec (2 * r) d); cbn [andb].
    + destruct (Z.odd q); nia.
    + nia.
Qed.

Lemma tenths_monotone (num : Z) (scale : nat) (m : Z) :
  (m * 1024 ^ Z.of_nat scale <= 10 * num)%Z -> (m <= tenths num scale)%Z.
Proof.
  intro H. pose proof (tenths_bounds num scale) as B. cbv zeta in B.
  assert (Hd : (0 < 1024 ^ Z.of_nat scale)%Z) by (apply Z.pow_pos_nonneg; lia).
  set (d := (1024 ^ Z.of_nat scale)%Z) in *.
  unfold tenths. fold d.
  pose proof (Z.div_mod (10 * num) d ltac:(lia)) as E.
  pose proof (Z.mod_pos_bound (10 * num) d Hd) as Bm.
  set (q := (10 * num / d)%Z) in *. set (r := ((10 * num) mod d)%Z) in *.
  assert (m <= q)%Z by nia.
  destruct ((d <? 2 * r)%Z || ((2 * r =? d)%Z && Z.odd q)); lia.
Qed.

(** Just below the next unit the figure is rounded up to 1024.0. *)
Lemma tenths_rounds_up (num : Z) (scale : nat) :
  (20479 * 1024 ^ Z.of_nat scale <= 20 * num)%Z ->
  (num < 1024 * 1024 ^ Z.of_nat scale)%Z ->
  tenths num scale = 10240%Z.
Proof.
  intros Lo Hi.
  assert (Hd : (0 < 1024 ^ Z.of_nat scale)%Z) by (apply Z.pow_pos_nonneg; lia).
  unfold tenths. set (d := (1024 ^ Z.of_nat scale)%Z) in *.
  pose proof (Z.div_mod (10 * num) d ltac:(lia)) as E.
  pose proof (Z.mod_pos_bound (10 * num) d Hd) as Bm.
  set (q := (10 * num / d)%Z) in *. set (r := ((10 * num) mod d)%Z) in *.
  assert (Q : q = 10239%Z) by nia. rewrite Q in *.
  destruct (Z.ltb_spec d (2 * r)); cbn [orb]; [reflexivity|].
  destruct (Z.eqb_spec (2 * r) d); cbn [andb]; [reflexivity | lia].
Qed.

Lemma human_size_unit (k : nat) (unit : string) (n : Z) :
  In (k, unit) [(1, "KB"); (2, "MB"); (3, "GB"); (4, "TB")]%string ->
  (1024 ^ Z.of_nat k <= n < 1024 * 1024 ^ Z.of_nat k)%Z ->
  human_size n = (format_1f n k ++ " " ++ unit)%string.
Proof.
  intros Hk Hn. unfold human_size, human_size_units.
  cbn [In] in Hk.
  destruct Hk as [E|[E|[E|[E|[]]]]]; injection E as <- <-;
    cbn [Z.of_nat Pos.of_succ_nat Pos.succ] in *;
    repeat match goal with
           | |- context [(?a <? ?b)%Z] => destruct (Z.ltb_spec a b)
           end; first [reflexivity | lia].
Qed.

(** X23: what [human_size] prints for a size below 2^53 bytes.  Below 1024
    it prints the number of bytes.  From 1024^k on and below 1024^(k+1),
    for k from 1 to 4, it prints the size divided by 1024^k with one
    decimal and the unit KB, MB, GB or TB; the figure lies between 1.0 and
    1024.0, and it is 1024.0, not 1.0 of the next unit, for a size of at
    least 1023.95 times 1024^k.  From 1024^5 on it prints the unit PB with
    the size divided by 1024^4, a figure of at least 1024.0. *)
Theorem human_size_spec (n : Z) :
  (0 <= n < 2 ^ 53)%Z ->
  (n < 1024 -> human_size n = (str_of_int n ++ " B")%string)%Z /\
  (forall k unit,
      In (k, unit) [(1, "KB"); (2, "MB"); (3, "GB"); (4, "TB")]%string ->
      (1024 ^ Z.of_nat k <= n < 1024 * 1024 ^ Z.of_nat k)%Z ->
      human_size n = (format_1f n k ++ " " ++ unit)%string /\
      (10 <= tenths n k <= 10240)%Z /\
      ((20479 * 1024 ^ Z.of_nat k <= 20 * n)%Z ->
       human_size n = ("1024.0 " ++ unit)%string)) /\
  ((1024 ^ 5 <= n)%Z ->
   human_size n = (format_1f n 4 ++ " PB")%string /\
   (10240 <= tenths n 4)%Z).
Proof.
  intro Hn. split; [|split].
  - intro H. unfold human_size.
    destruct (Z.ltb_spec n 1024); [reflexivity | lia].
  - intros k unit Hk Hr.
    pose proof (human_size_unit k unit n Hk Hr) as E.
    split; [exact E|]. split.
    + pose proof (tenths_bounds n k) as B. cbv zeta in B.
      pose proof (tenths_monotone n k 10 ltac:(lia)) as M.
      split; [exact M|].
      assert (Hd : (0 < 1024 ^ Z.of_nat k)%Z)
        by (apply Z.pow_pos_nonneg; lia).
      nia.
    + intro Lo. rewrite E. unfold format_1f.
      rewrite (tenths_rounds_up n k Lo (proj2 Hr)). reflexivity.
  - intro H. split.
    + unfold human_size, human_size_units.
      cbn [Z.of_nat Pos.of_succ_nat Pos.succ].
      repeat match goal with
             | |- context [(?a <? ?b)%Z] => destruct (Z.ltb_spec a b)
             end; first [reflexivity | lia].
    + apply tenths_monotone. cbn [Z.of_nat Pos.of_succ_nat Pos.succ]. lia.
Qed.

Lemma human_size_spec_witness :
  (1048575 < 1024 ->
   human_size 1048575 = (str_of_int 1048575 ++ " B")%string)%Z /\
  (forall k unit,
      In (k, unit) [(1, "KB"); (2, "MB"); (3, "GB"); (4, "TB")]%string ->
      (1024 ^ Z.of_nat k <= 1048575 < 1024 * 1024 ^ Z.of_nat k)%Z ->
      human_size 1048575 = (format_1f 1048575 k ++ " " ++ unit)%string /\
      (10 <= tenths 1048575 k <= 10240)%Z /\
      ((20479 * 1024 ^ Z.of_nat k <= 20 * 1048575)%Z ->
       human_size 1048575 = ("1024.0 " ++ unit)%string)) /\
  ((1024 ^ 5 <= 1048575)%Z ->
   human_size 1048575 = (format_1f 1048575 4 ++ " PB")%string /\
   (10240 <= tenths 1048575 4)%Z).
Proof.
  apply (human_size_spec 1048575). lia.
Defined.

(** Two sizes as they are printed. *)
Example human_size_examples :
  human_size 1048575 = "1024.0 KB" /\
  human_size (1024 ^ 5) = "1024.0 PB" /\
  human_size 1536 = "1.5 KB" /\
  human_size 1023 = "1023 B".
Proof. repeat split. Qed.

(** ** Configuration errors, down to the processes *)

(** C3 fails as stated: with both cookie sources given and no yt-dlp, a
    process is run ([which]) and the exit code is 1; with a format and a
    quality preset both given and a listing of formats requested, the
    extractor is run and its exit code, here 0, is returned; and with a
    format and a quality preset both given in a download with the defaults
    of the command line, the exit code is 2 only after the set-up of the
    token provider was called.  During that call processes are run: on a
    system where everything is in place, the version query of the
    extractor and [pip show]. *)
Lemma configuration_error_runs_processes :
  let conflicting_cookies :=
    with_cookies_file
      (with_cookies_from_browser (default_args "https://youtu.be/x")
         (Some "chrome"))
      (Some "cookies.txt") in
  let conflicting_formats :=
    with_quality (default_args "https://youtu.be/x")
      (Some "best") (Some "720p") true in
  let conflicting_download :=
    with_quality (default_args "https://youtu.be/x")
      (Some "best") (Some "720p") false in
  (cookie_conflict conflicting_cookies = true /\
   let '(rc, _, t) :=
     run scripted (download_video conflicting_cookies)
       (with_which quiet_world 1) in
   rc = 1%Z /\
   t = [ Saw (Which "yt-dlp") 1%Z;
         Saw (PrintMsg msg_not_installed) tt;
         Saw (PrintMsg msg_install_hint) tt ]) /\
  (format_conflict conflicting_formats = true /\
   let '(rc, _, t) :=
     run scripted (download_video conflicting_formats)
       (with_children quiet_world [mkOutcome 0 "" ""]) in
   rc = 0%Z /\ length (attempts t) = 1) /\
  (format_conflict conflicting_download = true /\
   let '(rc, _, t) :=
     run scripted (download_video conflicting_download) quiet_world in
   rc = 2%Z /\ attempts t = [] /\ provider_calls t = 1 /\
   existsb is_provider_setup t = true) /\
  (let urlparse :=
     fun _ : string => mkParsed "" "" "" "" "" "" None None None None in
   let urlunparse := fun a b c d e f : string => a in
   let '(rc, (_, _, log), t) :=
     run (managed unit ready_system urlparse urlunparse)
       (download_video conflicting_download) (quiet_world, tt, []) in
   rc = 2%Z /\ attempts t = [] /\ provider_calls t = 1 /\
   map (fun p => fst (fst p)) (spawned log) =
     [ ["yt-dlp"; "--version"];
       ["/usr/bin/python3"; "-m"; "pip"; "show";
        "bgutil-ytdlp-pot-provider"] ]).
Proof. vm_compute. repeat split. Qed.
